(** * tflite-onnx: the graph builder, the activation de-fuser and the driver

    A shallow embedding of [onnx_tflite/utils.py], [base_layer.py],
    [aact_layers.py], [tree_structure.py] and [tflite2onnx.py].

    Python integers are unbounded: they are [Z].  Python lists are [list],
    [str] is [string].  The [dict] of nodes keeps insertion order and is
    iterated in that order, so it is an association list.  Exceptions are
    the [Raise] results of an error monad; the effects the driver performs
    on the outside world (warnings, calls of lowering routines, the save of
    the model) are recorded in a trace that survives an exception. *)

From Stdlib Require Import ZArith List String Bool Lia Floats DecimalString.
Import ListNotations.
Local Open Scope Z_scope.
Local Open Scope list_scope.

Set Implicit Arguments.

(* ================================================================== *)
(** * Exceptions *)
(* ================================================================== *)

Module Py.

(** The exceptions the modelled code can raise. *)
Inductive exn : Type :=
| ValueError (what : string)     (* list.remove(x), tensor details *)
| ValueError_op_type (code : Z)  (* raise ValueError(op_type) *)
| KeyError (key : string)
| KeyError_idx (key : Z)
| IndexError
| ZeroDivisionError
| AttributeError
| TypeError.

Inductive result (A : Type) : Type :=
| Ok (a : A)
| Raise (e : exn).
Arguments Ok {A} a.
Arguments Raise {A} e.

Definition bind {A B} (c : result A) (k : A -> result B) : result B :=
  match c with
  | Ok a => k a
  | Raise e => Raise e
  end.

(** [l[i]] for a non-negative literal index. *)
Definition index {A} (l : list A) (i : nat) : result A :=
  match nth_error l i with
  | Some a => Ok a
  | None => Raise IndexError
  end.

(** [l[-1]] *)
Definition last_item {A} (l : list A) : result A :=
  match rev l with
  | a :: _ => Ok a
  | [] => Raise IndexError
  end.

(** [a % b]: the sign of the result follows the divisor. *)
Definition mod_ (a b : Z) : result Z :=
  if b =? 0 then Raise ZeroDivisionError else Ok (a mod b).

(** [x in l] on strings and on integers. *)
Definition mem_str (x : string) (l : list string) : bool :=
  existsb (String.eqb x) l.

Definition mem_int (x : Z) (l : list Z) : bool :=
  existsb (Z.eqb x) l.

(** [l.remove(x)]: drops the first occurrence, [ValueError] when absent. *)
Fixpoint remove_first (x : string) (l : list string) : option (list string) :=
  match l with
  | [] => None
  | y :: l' =>
      if String.eqb y x then Some l'
      else option_map (cons y) (remove_first x l')
  end.

Definition list_remove (x : string) (l : list string) : result (list string) :=
  match remove_first x l with
  | Some l' => Ok l'
  | None => Raise (ValueError "list.remove(x): x not in list")
  end.

(** [str(n)] for an integer. *)
Definition str_int (n : Z) : string := NilZero.string_of_int (Z.to_int n).

End Py.
Import Py.

Declare Scope py_scope.
Delimit Scope py_scope with py.
Notation "x <- c ;; k" := (Py.bind c (fun x => k))
  (at level 61, c at next level, right associativity) : py_scope.
Local Open Scope py_scope.

(* ================================================================== *)
(** * utils.py *)
(* ================================================================== *)

Module utils.

(** [tflite2onnx_shape_map]: [None] unless the shape has four entries. *)
Definition tflite2onnx_shape_map (shape_list : list Z) : option (list Z) :=
  match shape_list with
  | [n; h; w; c] => Some [n; c; h; w]
  | _ => None
  end.

(** The [table] of [channel_last_2_channel_first_axis_mapping]; a key that
    is not in it raises [KeyError]. *)
Definition axis_table (axis : Z) : result Z :=
  if axis =? 0 then Ok 0
  else if axis =? 3 then Ok 1
  else if axis =? 1 then Ok 2
  else if axis =? 2 then Ok 3
  else Raise (KeyError (str_int axis)).

Fixpoint channel_last_2_channel_first_axis_mapping (axis_list : list Z)
  : result (list Z) :=
  match axis_list with
  | [] => Ok []
  | axis :: rest =>
      a <- axis_table axis ;;
      res <- channel_last_2_channel_first_axis_mapping rest ;;
      Ok (a :: res)
  end.

(** [getPadding]: [Ok None] for a mode that is neither VALID nor SAME. *)
Definition getPadding (feat_map_size kernel_size strides : list Z)
    (mode : string) : result (option (list Z)) :=
  if negb (String.eqb mode "VALID") && negb (String.eqb mode "SAME") then
    Ok None
  else if String.eqb mode "VALID" then
    Ok (Some [0; 0; 0; 0])
  else
    f1 <- index feat_map_size 1 ;;
    s0 <- index strides 0 ;;
    rh <- mod_ f1 s0 ;;
    pad_h <-
      (if rh =? 0 then
         k0 <- index kernel_size 0 ;;
         s0' <- index strides 0 ;;
         Ok (Z.max (k0 - s0') 0)
       else
         k0 <- index kernel_size 0 ;;
         f1' <- index feat_map_size 1 ;;
         s0' <- index strides 0 ;;
         rh' <- mod_ f1' s0' ;;
         Ok (Z.max (k0 - rh') 0)) ;;
    f2 <- index feat_map_size 2 ;;
    s1 <- index strides 1 ;;
    rw <- mod_ f2 s1 ;;
    pad_w <-
      (if rw =? 0 then
         k1 <- index kernel_size 1 ;;
         s1' <- index strides 1 ;;
         Ok (Z.max (k1 - s1') 0)
       else
         k1 <- index kernel_size 1 ;;
         f2' <- index feat_map_size 2 ;;
         s1' <- index strides 1 ;;
         rw' <- mod_ f2' s1' ;;
         Ok (Z.max (k1 - rw') 0)) ;;
    Ok (Some [pad_h / 2; pad_w / 2; pad_h - pad_h / 2; pad_w - pad_w / 2]).

End utils.


(* ================================================================== *)
(** * The source model: operators and the tensor catalog *)
(* ================================================================== *)

Module tflite.

(** The operator kinds of the generated enumeration [BuiltinOperator] that
    [Tree.__node_generator] names; every other builtin code is
    [UNLISTED code]. *)
Module BuiltinOperator.
Inductive t : Type :=
| CONV_2D | DEPTHWISE_CONV_2D | SOFTMAX | RELU | RELU6 | PRELU | LOGISTIC
| FULLY_CONNECTED | RESHAPE | PAD | ADD | MUL | CONCATENATION | MEAN
| MAX_POOL_2D | AVERAGE_POOL_2D | SQUEEZE | RESIZE_NEAREST_NEIGHBOR
| RESIZE_BILINEAR | L2_NORMALIZATION | TRANSPOSE_CONV
| UNLISTED (code : Z).
End BuiltinOperator.

(** The codes of [ActivationFunctionType] that
    [defused_activation_node_generator] names; [UNSPECIFIED code] is any
    other integer. *)
Module ActivationFunctionType.
Inductive t : Type :=
| NONE | RELU | RELU_N1_TO_1 | RELU6 | TANH | SIGN_BIT
| UNSPECIFIED (code : Z).
End ActivationFunctionType.

(** An operator record of the flatbuffer: its input and output tensor
    indices, and the fused-activation code of its option block (read only
    by the layers that carry one). *)
Record Operator : Type := {
  Inputs : list Z;
  Outputs : list Z;
  FusedActivationFunction : ActivationFunctionType.t
}.

(** [op.Outputs(0)] and [op.Inputs(0)]: the accessor answers 0 when the
    vector is absent. *)
Definition Outputs_0 (op : Operator) : Z := hd 0 (Outputs op).
Definition Inputs_0 (op : Operator) : Z := hd 0 (Inputs op).

(** A record of [interpreter._get_tensor_details], of
    [get_input_details] and of [get_output_details]. *)
Record TensorDetails : Type := {
  name : string;
  index : Z;
  shape : list Z
}.

(** The interpreter, an immutable snapshot of the tensor table.
    [_get_tensor_details] raises when it has no details for an index. *)
Record Interpreter : Type := {
  get_tensor_details : Z -> result TensorDetails;
  get_input_details : list TensorDetails;
  get_output_details : list TensorDetails
}.

(** What is read from the file at [model_path]: the operators of subgraph
    0 with their builtin codes, and the interpreter over the same file. *)
Record Model : Type := {
  operators : list (Operator * BuiltinOperator.t);
  interpreter : Interpreter
}.

End tflite.
Import tflite.

(* ================================================================== *)
(** * The target model *)
(* ================================================================== *)

Module onnx.

Inductive elem_type : Type := FLOAT.

Inductive attribute : Type :=
| ints (l : list Z)
| float_ (x : float).

Record NodeProto : Type := {
  op_type : string;
  name : string;
  input : list string;
  output : list string;
  attributes : list (string * attribute)
}.

Record ValueInfoProto : Type := {
  vi_name : string;
  vi_elem_type : elem_type;
  vi_shape : option (list Z)
}.

Record TensorProto : Type := {
  t_name : string;
  t_data_type : elem_type;
  t_dims : list Z;
  t_data : list float
}.

Record GraphProto : Type := {
  node : list NodeProto;
  graph_name : string;
  graph_input : list ValueInfoProto;
  graph_output : list ValueInfoProto;
  initializer : list TensorProto;
  value_info : list ValueInfoProto
}.

(** [helper.make_tensor_value_info(name, elem_type, shape)]; no shape is
    recorded when [shape] is [None]. *)
Definition make_tensor_value_info (name : string) (ty : elem_type)
    (shape : option (list Z)) : ValueInfoProto :=
  {| vi_name := name; vi_elem_type := ty; vi_shape := shape |}.

(** [onnx_end_node.output[:] = [name]] *)
Definition set_output (n : NodeProto) (out : list string) : NodeProto :=
  {| op_type := op_type n; name := name n; input := input n;
     output := out; attributes := attributes n |}.

End onnx.

(* ================================================================== *)
(** * Dictionaries in insertion order *)
(* ================================================================== *)

Section Dict.
Variables K V : Type.
Variable eqb : K -> K -> bool.

Definition dict : Type := list (K * V).

(** [d[k]] as a lookup *)
Fixpoint dict_get (d : dict) (k : K) : option V :=
  match d with
  | [] => None
  | (k', v) :: d' => if eqb k' k then Some v else dict_get d' k
  end.

(** [d[k] = v]: an existing key keeps its place *)
Fixpoint dict_set (d : dict) (k : K) (v : V) : dict :=
  match d with
  | [] => [(k, v)]
  | (k', v') :: d' =>
      if eqb k' k then (k', v) :: d' else (k', v') :: dict_set d' k v
  end.

Definition dict_keys (d : dict) : list K := map fst d.
End Dict.

Arguments dict_get {K V} eqb d k.
Arguments dict_set {K V} eqb d k v.
Arguments dict_keys {K V} d.

(** The node-name translation table of the driver. *)
Definition Table : Type := dict string (list string).

(* ================================================================== *)
(** * base_layer.py: the graph node *)
(* ================================================================== *)

(** The classes of layer objects: the ones [Tree.__node_generator]
    instantiates and the two de-fused activation classes. *)
Inductive LayerClass : Type :=
| Convolution | DepthwiseConvolution | Softmax | Relu | Relu6 | PRelu
| LOGISTIC | Dense | Reshape | Pad | Add | Mul | Concatenation | Mean
| MaxPooling2D | AveragePooling2D | Squeeze | ResizeNearestNeighbor
| ResizeBilinear | L2Normalization | TransposeConvolution
| ReluDefused | Relu6Defused.

(** The attributes of a [Layer] object that the graph passes read and
    write.  [op] is [None] only for a generated fused node. *)
Record Layer : Type := {
  cls : LayerClass;
  op : option Operator;
  op_type : BuiltinOperator.t;
  node_idx : Z;
  node_name : string;
  input_nodes_idx : list Z;
  input_nodes_name : list string;
  output_nodes_idx : list Z;
  output_nodes_name : list string
}.

Definition set_node_idx (l : Layer) (i : Z) : Layer :=
  {| cls := cls l; op := op l; op_type := op_type l;
     node_idx := i; node_name := node_name l;
     input_nodes_idx := input_nodes_idx l;
     input_nodes_name := input_nodes_name l;
     output_nodes_idx := output_nodes_idx l;
     output_nodes_name := output_nodes_name l |}.

Definition set_node_name (l : Layer) (s : string) : Layer :=
  {| cls := cls l; op := op l; op_type := op_type l;
     node_idx := node_idx l; node_name := s;
     input_nodes_idx := input_nodes_idx l;
     input_nodes_name := input_nodes_name l;
     output_nodes_idx := output_nodes_idx l;
     output_nodes_name := output_nodes_name l |}.

Definition set_input_nodes_idx (l : Layer) (v : list Z) : Layer :=
  {| cls := cls l; op := op l; op_type := op_type l;
     node_idx := node_idx l; node_name := node_name l;
     input_nodes_idx := v;
     input_nodes_name := input_nodes_name l;
     output_nodes_idx := output_nodes_idx l;
     output_nodes_name := output_nodes_name l |}.

Definition set_input_nodes_name (l : Layer) (v : list string) : Layer :=
  {| cls := cls l; op := op l; op_type := op_type l;
     node_idx := node_idx l; node_name := node_name l;
     input_nodes_idx := input_nodes_idx l;
     input_nodes_name := v;
     output_nodes_idx := output_nodes_idx l;
     output_nodes_name := output_nodes_name l |}.

Definition set_output_nodes_idx (l : Layer) (v : list Z) : Layer :=
  {| cls := cls l; op := op l; op_type := op_type l;
     node_idx := node_idx l; node_name := node_name l;
     input_nodes_idx := input_nodes_idx l;
     input_nodes_name := input_nodes_name l;
     output_nodes_idx := v;
     output_nodes_name := output_nodes_name l |}.

Definition set_output_nodes_name (l : Layer) (v : list string) : Layer :=
  {| cls := cls l; op := op l; op_type := op_type l;
     node_idx := node_idx l; node_name := node_name l;
     input_nodes_idx := input_nodes_idx l;
     input_nodes_name := input_nodes_name l;
     output_nodes_idx := output_nodes_idx l;
     output_nodes_name := v |}.

(** [[f(x) for x in l]] where [f] can raise *)
Fixpoint map_result {A B} (f : A -> result B) (l : list A) : result (list B) :=
  match l with
  | [] => Ok []
  | a :: l' =>
      b <- f a ;;
      bs <- map_result f l' ;;
      Ok (b :: bs)
  end.

(** [Layer.__init__]: [__init_node_info], [__init_inputs] and
    [__init_outputs].  The constructors of the layer classes call it with
    their own class. *)
Definition Layer_init (c : LayerClass) (op : option Operator)
    (op_type : BuiltinOperator.t) (tflite_interpreter : Interpreter)
  : result Layer :=
  info <-
    match op with
    | None => Ok (-1, "fused_node"%string)
    | Some o =>
        node_output_detail <- get_tensor_details tflite_interpreter (Outputs_0 o) ;;
        Ok (index node_output_detail, tflite.name node_output_detail)
    end ;;
  inputs <-
    match op with
    | None => Ok ([], [])
    | Some o =>
        names <- map_result
                   (fun idx => d <- get_tensor_details tflite_interpreter idx ;;
                               Ok (tflite.name d))
                   (Inputs o) ;;
        Ok (Inputs o, names)
    end ;;
  Ok {| cls := c; op := op; op_type := op_type;
        node_idx := fst info; node_name := snd info;
        input_nodes_idx := fst inputs; input_nodes_name := snd inputs;
        output_nodes_idx := []; output_nodes_name := [] |}.

(* ================================================================== *)
(** * Effects: warnings, lowering calls and the saved model *)
(* ================================================================== *)

(** What the program does to the outside world, in order: a call of
    [warnings.warn], a call of a layer's [generate] (with the previous node
    names it was initialised with and the table when it is passed one), and
    [onnx.save]. *)
Inductive event : Type :=
| Warn (message : string)
| Lower (layer : Layer) (previous_onnx_node_names : list string)
        (table : option Table)
| Save (model : onnx.GraphProto).

(** A computation: its result or exception, and the events it performed
    before returning or raising. *)
Definition M (A : Type) : Type := (result A * list event)%type.

Definition ret {A} (a : A) : M A := (Ok a, []).

Definition raise {A} (e : exn) : M A := (Raise e, []).

Definition emit (ev : event) : M unit := (Ok tt, [ev]).

Definition lift {A} (c : result A) : M A := (c, []).

Definition bindM {A B} (c : M A) (k : A -> M B) : M B :=
  match c with
  | (Ok a, before) => let (r, after) := k a in (r, before ++ after)
  | (Raise e, before) => (Raise e, before)
  end.

Definition outcome {A} (c : M A) : result A := fst c.
Definition trace {A} (c : M A) : list event := snd c.

Notation "x <~ c ;; k" := (bindM c (fun x => k))
  (at level 61, c at next level, right associativity) : py_scope.

(** [for x in l: st = body(st, x)] *)
Fixpoint for_each {A S} (body : S -> A -> M S) (l : list A) (st : S) : M S :=
  match l with
  | [] => ret st
  | a :: l' => st' <~ body st a ;; for_each body l' st'
  end.

Fixpoint for_each_result {A S} (body : S -> A -> result S) (l : list A)
    (st : S) : result S :=
  match l with
  | [] => Ok st
  | a :: l' => st' <- body st a ;; for_each_result body l' st'
  end.

(* ================================================================== *)
(** * Layers that are not in these files *)
(* ================================================================== *)

(** What a lowering routine returns: [node_list], [value_infos] and
    [weight_node_list]. *)
Definition Lowered : Type :=
  (list onnx.NodeProto * list onnx.ValueInfoProto * list onnx.TensorProto)%type.

(** The layer classes of [conv_layers.py], [core_layers.py],
    [merg_layers.py] and [pool_layers.py] are not among these files, and
    the lowering of [PRelu] reads floating-point buffers: what they
    contribute enters as parameters.

    [fused_activation_function] is the fused-activation code that a layer
    reads from the option block of its operator, [None] for a layer that
    carries no fused activation.

    [generate_ext] is [init_generate(...).generate(...)] of such a layer:
    the layer, the previous node names, and the table for the kinds that
    are passed one. *)
Class ExternalLayers : Type := {
  fused_activation_function : Layer -> option ActivationFunctionType.t;
  generate_ext :
    Interpreter -> Layer -> list string -> option Table -> result Lowered
}.

(* ================================================================== *)
(** * aact_layers.py *)
(* ================================================================== *)

Module aact_layers.

(** [ActivationDefused.__init__] *)
Definition ActivationDefused_init (c : LayerClass) (op : option Operator)
    (op_type : BuiltinOperator.t) (tflite_interpreter : Interpreter)
  : result Layer :=
  l <- Layer_init c op op_type tflite_interpreter ;;
  Ok (set_node_name l (node_name l ++ "_Fused")).

Definition not_support (kind : string) : string :=
  "Not Support " ++ kind ++ " Fused Activation Currently.".

Definition not_in_specification (code : Z) : string :=
  "Fused Activation Type " ++ str_int code ++ " Not in Specification.".

(** [defused_activation_node_generator] *)
Definition defused_activation_node_generator
    (activation_function_type : ActivationFunctionType.t)
    (op : option Operator) (op_type : BuiltinOperator.t)
    (tflite_interpreter : Interpreter) : M (option Layer) :=
  match activation_function_type with
  | ActivationFunctionType.NONE => ret None
  | ActivationFunctionType.RELU =>
      l <~ lift (ActivationDefused_init ReluDefused op op_type tflite_interpreter) ;;
      ret (Some l)
  | ActivationFunctionType.RELU_N1_TO_1 =>
      _ <~ emit (Warn (not_support "RELU_N1_TO_1")) ;;
      ret None
  | ActivationFunctionType.RELU6 =>
      l <~ lift (ActivationDefused_init Relu6Defused op op_type tflite_interpreter) ;;
      ret (Some l)
  | ActivationFunctionType.TANH =>
      _ <~ emit (Warn (not_support "TANH")) ;;
      ret None
  | ActivationFunctionType.SIGN_BIT =>
      _ <~ emit (Warn (not_support "SIGN_BIT")) ;;
      ret None
  | ActivationFunctionType.UNSPECIFIED code =>
      _ <~ emit (Warn (not_in_specification code)) ;;
      ret None
  end.

(** What [Layer.init_generate] stores on the layer for [generate]. *)
Record Generation : Type := {
  node_output_detail : TensorDetails;
  node_input_detail : TensorDetails;
  onnx_node_name : string;
  previous_onnx_node_names : list string
}.

(** [Layer.init_generate]; a fused node has no operator to read. *)
Definition init_generate (previous_onnx_node_names : list string)
    (op_info : option Operator) (tflite_interpreter : Interpreter)
  : result Generation :=
  match op_info with
  | None => Raise AttributeError
  | Some o =>
      out <- get_tensor_details tflite_interpreter (Outputs_0 o) ;;
      inp <- get_tensor_details tflite_interpreter (Inputs_0 o) ;;
      Ok {| node_output_detail := out;
            node_input_detail := inp;
            onnx_node_name := tflite.name out;
            previous_onnx_node_names := previous_onnx_node_names |}
  end.

Definition output_shape_info (nm : string) (g : Generation)
  : onnx.ValueInfoProto :=
  onnx.make_tensor_value_info nm onnx.FLOAT
    (utils.tflite2onnx_shape_map (shape (node_output_detail g))).

Definition make_node (op_type nm : string) (inputs outputs : list string)
    (attrs : list (string * onnx.attribute)) : onnx.NodeProto :=
  {| onnx.op_type := op_type; onnx.name := nm; onnx.input := inputs;
     onnx.output := outputs; onnx.attributes := attrs |}.

Definition clip_bounds : list (string * onnx.attribute) :=
  [("max"%string, onnx.float_ 6%float); ("min"%string, onnx.float_ 0%float)].

(** [ReluDefused.generate] and [Relu6Defused.generate] *)
Definition ReluDefused_generate (self : Layer) (g : Generation) : Lowered :=
  let relu_name := node_name self in
  ([make_node "Relu" relu_name [onnx_node_name g] [relu_name] []],
   [output_shape_info relu_name g], []).

Definition Relu6Defused_generate (self : Layer) (g : Generation) : Lowered :=
  let clip_name := node_name self in
  ([make_node "Clip" clip_name [onnx_node_name g] [clip_name] clip_bounds],
   [output_shape_info clip_name g], []).

(** [Relu.generate], [Relu6.generate], [LOGISTIC.generate] and
    [Softmax.generate] *)
Definition Relu_generate (g : Generation) : Lowered :=
  ([make_node "Relu" (onnx_node_name g) (previous_onnx_node_names g)
      [onnx_node_name g] []],
   [output_shape_info (onnx_node_name g) g], []).

Definition Relu6_generate (g : Generation) : Lowered :=
  ([make_node "Clip" (onnx_node_name g) (previous_onnx_node_names g)
      [onnx_node_name g] clip_bounds],
   [output_shape_info (onnx_node_name g) g], []).

Definition LOGISTIC_generate (g : Generation) : Lowered :=
  ([make_node "Sigmoid" (onnx_node_name g) (previous_onnx_node_names g)
      [onnx_node_name g] []],
   [], []).

Definition Softmax_generate (g : Generation) : Lowered :=
  ([make_node "Softmax" (onnx_node_name g) (previous_onnx_node_names g)
      [onnx_node_name g] []],
   [], []).

End aact_layers.

(** The classes of [aact_layers.py]: none of them overrides
    [defuse_activation_function]. *)
Definition keeps_Layer_method (c : LayerClass) : bool :=
  match c with
  | Relu | Relu6 | LOGISTIC | Softmax | PRelu | ReluDefused | Relu6Defused =>
      true
  | _ => false
  end.

Section Layers.
Context {ext : ExternalLayers}.

(** [Layer.defuse_activation_function]: no de-fused activation node. *)
Definition Layer_defuse_activation_function (self : Layer) : M (option Layer) :=
  ret None.

(** Modelled from the spec: the overrides of [defuse_activation_function]
    in the layer files that are not among the sources (convolution,
    depthwise convolution, fully-connected, elementwise add and mul).  A
    layer that carries an embedded fused activation hands its code to
    [defused_activation_node_generator] with its own operator and operator
    kind, so that the new node is named after the layer's node; a layer
    that carries none answers as [Layer] does. *)
Definition override_defuse_activation_function
    (tflite_interpreter : Interpreter) (self : Layer) : M (option Layer) :=
  match fused_activation_function self with
  | None => ret None
  | Some activation_function_type =>
      aact_layers.defused_activation_node_generator
        activation_function_type (op self) (op_type self) tflite_interpreter
  end.

(** [layer.defuse_activation_function()], by the class of the layer. *)
Definition defuse_activation_function (tflite_interpreter : Interpreter)
    (self : Layer) : M (option Layer) :=
  if keeps_Layer_method (cls self) then Layer_defuse_activation_function self
  else override_defuse_activation_function tflite_interpreter self.

(** [layer.init_generate([prev], op_type, op, interpreter).generate(...)]:
    the activation layers take no table. *)
Definition generate (tflite_interpreter : Interpreter) (self : Layer)
    (previous_onnx_node_names : list string) (table : option Table)
  : result Lowered :=
  let act (gen : aact_layers.Generation -> Lowered) :=
    g <- aact_layers.init_generate previous_onnx_node_names (op self)
           tflite_interpreter ;;
    match table with
    | None => Ok (gen g)
    | Some _ => Raise TypeError
    end in
  match cls self with
  | Relu => act aact_layers.Relu_generate
  | Relu6 => act aact_layers.Relu6_generate
  | LOGISTIC => act aact_layers.LOGISTIC_generate
  | Softmax => act aact_layers.Softmax_generate
  | ReluDefused => act (aact_layers.ReluDefused_generate self)
  | Relu6Defused => act (aact_layers.Relu6Defused_generate self)
  | _ => generate_ext tflite_interpreter self previous_onnx_node_names table
  end.
End Layers.

(* ================================================================== *)
(** * tree_structure.py *)
(* ================================================================== *)

(** [self.__nodes]: node name to layer object, in insertion order.  Each
    key holds an object of its own, so an object is referred to by its key
    and a write through a reference is an update at that key. *)
Definition Nodes : Type := dict string Layer.

Definition nodes_get (nodes : Nodes) (key : string) : result Layer :=
  match dict_get String.eqb nodes key with
  | Some l => Ok l
  | None => Raise (KeyError key)
  end.

(** A write to an attribute of the object stored at [key]. *)
Definition nodes_update (nodes : Nodes) (key : string) (f : Layer -> Layer)
  : Nodes :=
  map (fun kv => if String.eqb (fst kv) key then (fst kv, f (snd kv)) else kv)
      nodes.

Module Tree.

(** [Tree.__node_generator]; the constructors of the layer classes are
    [Layer.__init__] at their class. *)
Definition node_generator (op : Operator) (op_type : BuiltinOperator.t)
    (tflite_interpreter : Interpreter) : result Layer :=
  let new c := Layer_init c (Some op) op_type tflite_interpreter in
  match op_type with
  | BuiltinOperator.CONV_2D => new Convolution
  | BuiltinOperator.DEPTHWISE_CONV_2D => new DepthwiseConvolution
  | BuiltinOperator.SOFTMAX => new Softmax
  | BuiltinOperator.RELU => new Relu
  | BuiltinOperator.RELU6 => new Relu6
  | BuiltinOperator.PRELU => new PRelu
  | BuiltinOperator.LOGISTIC => new LOGISTIC
  | BuiltinOperator.FULLY_CONNECTED => new Dense
  | BuiltinOperator.RESHAPE => new Reshape
  | BuiltinOperator.PAD => new Pad
  | BuiltinOperator.ADD => new Add
  | BuiltinOperator.MUL => new Mul
  | BuiltinOperator.CONCATENATION => new Concatenation
  | BuiltinOperator.MEAN => new Mean
  | BuiltinOperator.MAX_POOL_2D => new MaxPooling2D
  | BuiltinOperator.AVERAGE_POOL_2D => new AveragePooling2D
  | BuiltinOperator.SQUEEZE => new Squeeze
  | BuiltinOperator.RESIZE_NEAREST_NEIGHBOR => new ResizeNearestNeighbor
  | BuiltinOperator.RESIZE_BILINEAR => new ResizeBilinear
  | BuiltinOperator.L2_NORMALIZATION => new L2Normalization
  | BuiltinOperator.TRANSPOSE_CONV => new TransposeConvolution
  | BuiltinOperator.UNLISTED code => Raise (ValueError_op_type code)
  end.

(** [Tree.__parse_graph] *)
Definition parse_graph (tflite_ops : list (Operator * BuiltinOperator.t))
    (tflite_interpreter : Interpreter) : result Nodes :=
  for_each_result
    (fun nodes o =>
       node <- node_generator (fst o) (snd o) tflite_interpreter ;;
       Ok (dict_set String.eqb nodes (node_name node) node))
    tflite_ops [].

(** [Tree.__eliminate_side_input]: the index lists first, then the name
    lists. *)
Definition eliminate_side_input (nodes : Nodes) : Nodes :=
  let nodes_idx := map (fun kv => node_idx (snd kv)) nodes in
  let nodes1 :=
    map (fun kv =>
           (fst kv,
            set_input_nodes_idx (snd kv)
              (filter (fun input_node_idx => mem_int input_node_idx nodes_idx)
                      (input_nodes_idx (snd kv)))))
        nodes in
  let nodes_name := dict_keys nodes1 in
  map (fun kv =>
         (fst kv,
          set_input_nodes_name (snd kv)
            (filter (fun input_node_name => mem_str input_node_name nodes_name)
                    (input_nodes_name (snd kv)))))
      nodes1.

(** [nodes_idx_dict]: node index to the object, held as its key. *)
Definition nodes_idx_dict (nodes : Nodes) : dict Z string :=
  fold_left (fun d kv => dict_set Z.eqb d (node_idx (snd kv)) (fst kv))
            nodes [].

Definition idx_dict_get (d : dict Z string) (idx : Z) : result string :=
  match dict_get Z.eqb d idx with
  | Some key => Ok key
  | None => Raise (KeyError_idx idx)
  end.

(** The first loop of [__init_outputs_node_info]: no membership test
    before the append. *)
Definition init_output_nodes_idx (d : dict Z string) (nodes : Nodes)
  : result Nodes :=
  for_each_result
    (fun nodes idx =>
       key <- idx_dict_get d idx ;;
       node <- nodes_get nodes key ;;
       for_each_result
         (fun nodes input_node_idx =>
            target <- idx_dict_get d input_node_idx ;;
            Ok (nodes_update nodes target
                  (fun t => set_output_nodes_idx t (output_nodes_idx t ++ [idx]))))
         (input_nodes_idx node) nodes)
    (dict_keys d) nodes.

(** The second loop: the list is stored back under the node's name. *)
Definition store_output_nodes_idx (d : dict Z string) (nodes : Nodes)
  : result Nodes :=
  for_each_result
    (fun nodes idx =>
       key <- idx_dict_get d idx ;;
       node <- nodes_get nodes key ;;
       _ <- nodes_get nodes (node_name node) ;;
       Ok (nodes_update nodes (node_name node)
             (fun t => set_output_nodes_idx t (output_nodes_idx node))))
    (dict_keys d) nodes.

(** The third loop: the names, appended only when not yet present. *)
Definition init_output_nodes_name (nodes : Nodes) : result Nodes :=
  for_each_result
    (fun nodes node_name =>
       node <- nodes_get nodes node_name ;;
       for_each_result
         (fun nodes input_node_name =>
            target <- nodes_get nodes input_node_name ;;
            if negb (mem_str node_name (output_nodes_name target)) then
              Ok (nodes_update nodes input_node_name
                    (fun t => set_output_nodes_name t
                                (output_nodes_name t ++ [node_name])))
            else Ok nodes)
         (input_nodes_name node) nodes)
    (dict_keys nodes) nodes.

(** [Tree.__init_outputs_node_info] *)
Definition init_outputs_node_info (nodes : Nodes) : result Nodes :=
  let d := nodes_idx_dict nodes in
  nodes <- init_output_nodes_idx d nodes ;;
  nodes <- store_output_nodes_idx d nodes ;;
  init_output_nodes_name nodes.

Section Defuse.
Context {ext : ExternalLayers}.

(** The body of the loop of [Tree.__defused] once a node has a de-fused
    activation node: the new node is linked by node name.  [key] is the
    loop's [node_name], [node] the object stored there. *)
Definition rewire (nodes : Nodes) (key : string) (node : Layer)
    (defused_activation_node : Layer) : result (Nodes * Layer) :=
  let defused_activation_node := set_node_idx defused_activation_node (-1) in
  (* init input node *)
  let input_node_outputs_remove_name := output_nodes_name node in
  let input_node_outputs_add_name := node_name defused_activation_node in
  (* init fused node *)
  let fused_node_inputs_name := [node_name node] in
  let fused_node_outputs_name := output_nodes_name node in
  (* init output node *)
  let output_node_inputs_remove_node_name := node_name node in
  let output_node_inputs_add_node_name := node_name defused_activation_node in
  (* modify input node *)
  outs <- for_each_result (fun l r => list_remove r l)
            input_node_outputs_remove_name (output_nodes_name node) ;;
  let nodes :=
    nodes_update nodes key
      (fun t => set_output_nodes_name t (outs ++ [input_node_outputs_add_name])) in
  (* modify fused node *)
  let defused_activation_node :=
    set_output_nodes_name
      (set_input_nodes_name defused_activation_node fused_node_inputs_name)
      fused_node_outputs_name in
  (* modify output node *)
  nodes <- for_each_result
             (fun nodes output_node_name =>
                output_node <- nodes_get nodes output_node_name ;;
                ins <- list_remove output_node_inputs_remove_node_name
                         (input_nodes_name output_node) ;;
                Ok (nodes_update nodes output_node_name
                      (fun t => set_input_nodes_name t
                                  (ins ++ [output_node_inputs_add_node_name]))))
             fused_node_outputs_name nodes ;;
  Ok (nodes, defused_activation_node).

(** One turn of the loop of [Tree.__defused]; the state is the nodes and
    [add_defused_activation_node_list]. *)
Definition defuse_node (tflite_interpreter : Interpreter)
    (st : Nodes * list Layer) (key : string) : M (Nodes * list Layer) :=
  node <~ lift (nodes_get (fst st) key) ;;
  defused_activation_node <~ defuse_activation_function tflite_interpreter node ;;
  match defused_activation_node with
  | None => ret st
  | Some f =>
      r <~ lift (rewire (fst st) key node f) ;;
      ret (fst r, snd st ++ [snd r])
  end.

(** [# add fused node] *)
Definition add_fused_nodes (nodes : Nodes) (added : list Layer) : Nodes :=
  fold_left (fun nodes f => dict_set String.eqb nodes (node_name f) f)
            added nodes.

(** [Tree.__defused] *)
Definition defused (tflite_interpreter : Interpreter) (nodes : Nodes)
    (enable_defuse : bool) : M Nodes :=
  if negb enable_defuse then ret nodes
  else
    st <~ for_each (defuse_node tflite_interpreter) (dict_keys nodes)
            (nodes, []) ;;
    ret (add_fused_nodes (fst st) (snd st)).

(** [Tree.__init__] followed by [get_nodes]. *)
Definition init (model : Model) (defused_flag : bool) : M Nodes :=
  nodes <~ lift (parse_graph (operators model) (interpreter model)) ;;
  let nodes := eliminate_side_input nodes in
  nodes <~ lift (init_outputs_node_info nodes) ;;
  defused (interpreter model) nodes defused_flag.
End Defuse.

End Tree.

(* ================================================================== *)
(** * utils.py, continued: helpers over the interpreter and the target *)
(* ================================================================== *)

Module utils_onnx.

(** [get_output_node_info_by_name_if_exist] *)
Definition get_output_node_info_by_name_if_exist (node_name : string)
    (interpreter : Interpreter) : option TensorDetails :=
  find (fun node_info => String.eqb node_name (tflite.name node_info))
       (get_output_details interpreter).

(** [make_kneron_valid_onnx_input] on a list that starts with the input
    value info and goes on with the weight tensors: a value info is kept,
    a tensor becomes a value info of its name, type and dims. *)
Definition make_kneron_valid_onnx_input
    (input_tensor_value_info : onnx.ValueInfoProto)
    (weights : list onnx.TensorProto) : list onnx.ValueInfoProto :=
  input_tensor_value_info ::
  map (fun data =>
         onnx.make_tensor_value_info (onnx.t_name data) (onnx.t_data_type data)
           (Some (onnx.t_dims data)))
      weights.

(** An element of the list that [make_kneron_valid_onnx_input] goes
    through: a tensor, an attribute (its name and type), or anything
    else, which is appended as it is. *)
Inductive input_init_item : Type :=
| a_tensor (data : onnx.TensorProto)
| an_attribute (name : string) (type : Z)
| another (data : onnx.ValueInfoProto).

(** What a call gives: the list that is returned, or the [NameError] for
    a name that the module does not define. *)
Inductive returned : Type :=
| Returns (onnx_inputs : list onnx.ValueInfoProto)
| NameError (name : string).

(** The loop of [make_kneron_valid_onnx_input] on any list, with the
    list [onnx_inputs] it has built so far.  The branch of an attribute
    evaluates [onnx_proto.TypeProto()], and [utils.py] neither imports
    nor defines [onnx_proto]. *)
Fixpoint make_kneron_valid_onnx_input_loop (input_init : list input_init_item)
    (onnx_inputs : list onnx.ValueInfoProto) : returned :=
  match input_init with
  | [] => Returns onnx_inputs
  | a_tensor data :: rest =>
      let val :=
        onnx.make_tensor_value_info (onnx.t_name data) (onnx.t_data_type data)
          (Some (onnx.t_dims data)) in
      make_kneron_valid_onnx_input_loop rest (onnx_inputs ++ [val])
  | an_attribute _ _ :: _ => NameError "onnx_proto"
  | another data :: rest =>
      make_kneron_valid_onnx_input_loop rest (onnx_inputs ++ [data])
  end.

Definition make_kneron_valid_onnx_input_of (input_init : list input_init_item)
  : returned :=
  make_kneron_valid_onnx_input_loop input_init [].

End utils_onnx.

(* ================================================================== *)
(** * tflite2onnx.py: the pipeline driver *)
(* ================================================================== *)

Module tflite2onnx.

(** [set_end_node]: the value info, and the end node with its output
    renamed. *)
Definition set_end_node (onnx_end_node : onnx.NodeProto)
    (tflite_out_info : TensorDetails)
  : onnx.ValueInfoProto * onnx.NodeProto :=
  let out_value_info_name := ("out_" ++ onnx.name onnx_end_node)%string in
  let out_value_info :=
    onnx.make_tensor_value_info out_value_info_name onnx.FLOAT
      (utils.tflite2onnx_shape_map (shape tflite_out_info)) in
  (out_value_info, onnx.set_output onnx_end_node [out_value_info_name]).

(** [build_button_transpose_node_for_channel_first_2_channel_last]: the
    value info, the transpose node if any, and the end node (renamed
    when there is no transpose). *)
Definition build_button_transpose_node_for_channel_first_2_channel_last
    (onnx_end_node : onnx.NodeProto) (tflite_out_info : TensorDetails)
  : onnx.ValueInfoProto * option onnx.NodeProto * onnx.NodeProto :=
  let out_value_info_name := ("out_" ++ onnx.name onnx_end_node)%string in
  let out_value_info :=
    onnx.make_tensor_value_info out_value_info_name onnx.FLOAT
      (Some (shape tflite_out_info)) in
  let transpose_node_name :=
    ("transpose_node_output_" ++ onnx.name onnx_end_node)%string in
  if (List.length (shape tflite_out_info) =? 4)%nat then
    (out_value_info,
     Some (aact_layers.make_node "Transpose" transpose_node_name
             [onnx.name onnx_end_node] [out_value_info_name]
             [("perm"%string, onnx.ints [0; 2; 3; 1])]),
     onnx_end_node)
  else if (List.length (shape tflite_out_info) =? 3)%nat then
    (out_value_info,
     Some (aact_layers.make_node "Transpose" transpose_node_name
             [onnx.name onnx_end_node] [out_value_info_name]
             [("perm"%string, onnx.ints [0; 2; 1])]),
     onnx_end_node)
  else
    (out_value_info, None,
     onnx.set_output onnx_end_node [out_value_info_name]).

(** [build_head_transpose_node_for_channel_last_2_channel_first] *)
Definition build_head_transpose_node_for_channel_last_2_channel_first
    (input_name : string) : onnx.NodeProto :=
  let transpose_node_name := ("transpose_node_input_" ++ input_name)%string in
  aact_layers.make_node "Transpose" transpose_node_name
    [input_name] [transpose_node_name]
    [("perm"%string, onnx.ints [0; 3; 1; 2])].

(** The lists and the table that [main] fills. *)
Record State : Type := {
  op_name__sub_op_name__table : Table;
  onnx_weight_node_list : list onnx.TensorProto;
  output_tensor_value_info : list onnx.ValueInfoProto;
  onnx_node_list : list onnx.NodeProto;
  inner_node_shape_value_info : list onnx.ValueInfoProto
}.

Definition is_constant (n : onnx.NodeProto) : bool :=
  String.eqb (onnx.op_type n) "Constant".

(** A write to the last element of [l] that satisfies [p]: the end node
    is an object of the node list, and renaming its output shows there. *)
Fixpoint update_last {A} (p : A -> bool) (f : A -> A) (l : list A) : list A :=
  match l with
  | [] => []
  | a :: l' =>
      if p a && negb (existsb p l') then f a :: l'
      else a :: update_last p f l'
  end.

(** [op_type in [ADD, MUL, CONCATENATION]] *)
Definition takes_table (op_type : BuiltinOperator.t) : bool :=
  match op_type with
  | BuiltinOperator.ADD | BuiltinOperator.MUL
  | BuiltinOperator.CONCATENATION => true
  | _ => false
  end.

(** The name handed to the lowering routine: lines 147 to 150. *)
Definition prev_node_name (table : Table) (model_input_name : string)
    (layer : Layer) : result string :=
  let prev_node_name :=
    match input_nodes_name layer with
    | first :: _ => first
    | [] => model_input_name
    end in
  match dict_get String.eqb table prev_node_name with
  | Some sub_names => last_item sub_names
  | None => Ok prev_node_name
  end.

(** What one turn of the loop [for key in tree_dict] works with: [key]
    and [tree_dict[key]], the name [prev_node_name] and the table that are
    handed to the lowering routine, and the three lists [nodes], [val]
    and [weight] that the routine returned. *)
Record Turn : Type := {
  turn_key : string;
  turn_layer : Layer;
  turn_prev_node_name : string;
  turn_table : option Table;
  turn_nodes : list onnx.NodeProto;
  turn_val : list onnx.ValueInfoProto;
  turn_weight : list onnx.TensorProto
}.

Section Driver.
Context {ext : ExternalLayers}.

(** The body of the loop [for key in tree_dict]. *)
Definition lower_node (interpreter : Interpreter)
    (add_transpose_for_channel_last_first_issue : bool)
    (model_input_name : string) (st : State) (entry : string * Layer)
  : M State :=
  let node_name := fst entry in
  let layer := snd entry in
  prev <~ lift (prev_node_name (op_name__sub_op_name__table st)
                  model_input_name layer) ;;
  let table :=
    if takes_table (op_type layer)
    then Some (op_name__sub_op_name__table st) else None in
  _ <~ emit (Lower layer [prev] table) ;;
  r <~ lift (generate interpreter layer [prev] table) ;;
  let nodes := fst (fst r) in
  let val := snd (fst r) in
  let weight := snd r in
  let sub_op_node_list := filter (fun n => negb (is_constant n)) nodes in
  (* update tables *)
  let table' :=
    dict_set String.eqb (op_name__sub_op_name__table st) node_name
      (map onnx.name sub_op_node_list) in
  let st' (nodes' : list onnx.NodeProto)
          (outs : list onnx.ValueInfoProto) : State :=
    {| op_name__sub_op_name__table := table';
       onnx_weight_node_list := onnx_weight_node_list st ++ weight;
       output_tensor_value_info := output_tensor_value_info st ++ outs;
       onnx_node_list := onnx_node_list st ++ nodes';
       inner_node_shape_value_info := inner_node_shape_value_info st ++ val |} in
  (* check if it is output node use original node name *)
  match utils_onnx.get_output_node_info_by_name_if_exist node_name interpreter with
  | None => ret (st' nodes [])
  | Some output_node_info =>
      end_node <~ lift (last_item sub_op_node_list) ;;
      if add_transpose_for_channel_last_first_issue then
        let r := build_button_transpose_node_for_channel_first_2_channel_last
                   end_node output_node_info in
        let out_value_info := fst (fst r) in
        let transpose_node := snd (fst r) in
        let nodes' :=
          update_last (fun n => negb (is_constant n)) (fun _ => snd r) nodes in
        ret (st' (nodes' ++ match transpose_node with
                            | Some t => [t]
                            | None => []
                            end)
                 [out_value_info])
      else
        let r := set_end_node end_node output_node_info in
        ret (st' (update_last (fun n => negb (is_constant n))
                              (fun _ => snd r) nodes)
                 [fst r])
  end.

(** [main], up to the model that is handed to [polish_model] and
    [onnx.save]. *)
Definition main (model : Model)
    (add_transpose_for_channel_last_first_issue : bool) : M unit :=
  let interpreter := interpreter model in
  (* get model input info (assume there is only one input) *)
  input_detail <~ lift (Py.index (get_input_details interpreter) 0) ;;
  let model_input_name := tflite.name input_detail in
  let model_input_shape := shape input_detail in
  let start :=
    if add_transpose_for_channel_last_first_issue then
      let input_tensor_value_info :=
        onnx.make_tensor_value_info model_input_name onnx.FLOAT
          (Some model_input_shape) in
      let transpose_node :=
        build_head_transpose_node_for_channel_last_2_channel_first
          (onnx.vi_name input_tensor_value_info) in
      (input_tensor_value_info, [transpose_node],
       [model_input_name; onnx.name transpose_node])
    else
      let input_tensor_value_info :=
        onnx.make_tensor_value_info model_input_name onnx.FLOAT
          (utils.tflite2onnx_shape_map model_input_shape) in
      (input_tensor_value_info, [],
       [model_input_name; onnx.vi_name input_tensor_value_info]) in
  let input_tensor_value_info := fst (fst start) in
  let st0 :=
    {| op_name__sub_op_name__table :=
         dict_set String.eqb [] model_input_name (snd start);
       onnx_weight_node_list := [];
       output_tensor_value_info := [];
       onnx_node_list := snd (fst start);
       inner_node_shape_value_info := [] |} in
  (* generate tree *)
  tree_dict <~ Tree.init model false ;;
  (* build model node by node *)
  st <~ for_each (lower_node interpreter
                    add_transpose_for_channel_last_first_issue
                    model_input_name)
          tree_dict st0 ;;
  let onnx_inputs :=
    utils_onnx.make_kneron_valid_onnx_input input_tensor_value_info
      (onnx_weight_node_list st) in
  let graph_cnn :=
    {| onnx.node := onnx_node_list st;
       onnx.graph_name := "cnn_test";
       onnx.graph_input := onnx_inputs;
       onnx.graph_output := output_tensor_value_info st;
       onnx.initializer := onnx_weight_node_list st;
       onnx.value_info := inner_node_shape_value_info st |} in
  emit (Save graph_cnn).
End Driver.

End tflite2onnx.

(* ================================================================== *)
(** * tflite2onnx.py run as a script *)
(* ================================================================== *)

Module script.

(** The arguments as [parse_args] leaves them: [None] for an option that
    was not given. *)
Record Namespace : Type := {
  tflite : option string;
  save_path : option string;
  release_mode : option string
}.

(** What the script writes and does, in order: a printed line, the
    printed text of a caught exception, or an effect of [main]. *)
Inductive output : Type :=
| print (line : string)
| print_exception (e : exn)
| effect (ev : event).

(** How the script ends: at its last line, or with an exception that
    nothing catches. *)
Inductive exit : Type :=
| finished
| UserWarning (message : string)
| uncaught (e : exn).

(** [s[-n:]]: the last [n] characters, the whole string when it is
    shorter. *)
Definition last_chars (n : nat) (s : string) : string :=
  substring (String.length s - n) n s.

Definition newline : string := String (Ascii.ascii_of_nat 10) EmptyString.

(** [str(b)] for a boolean. *)
Definition str_bool (b : bool) : string := if b then "True" else "False".

Definition effects (out : list output) : list event :=
  flat_map (fun o => match o with effect ev => [ev] | _ => [] end) out.

Section Run.
Context {ext : ExternalLayers}.

(** The file system: [os.path.abspath], and the model that is read from a
    path, an exception when the file cannot be read. *)
Variable abspath : string -> string.
Variable read : string -> result Model.

(** The block under [if __name__ == '__main__']. *)
Definition run (args : Namespace) : exit * list output :=
  match tflite args with
  | None => (uncaught TypeError, [])
  | Some args_tflite =>
      if negb (String.eqb (last_chars 7 args_tflite) ".tflite") then
        (UserWarning (newline ++ args_tflite ++ " should be .tflite"), [])
      else
        match save_path args with
        | None => (uncaught TypeError, [])
        | Some args_save_path =>
            if negb (String.eqb (last_chars 5 args_save_path) ".onnx") then
              (UserWarning (newline ++ args_save_path ++ " should be .onnx"),
               [])
            else
              let model_path := abspath args_tflite in
              let model_save_path := abspath args_save_path in
              let is_release_mode :=
                match release_mode args with
                | Some given => String.eqb given "True"
                | None => false
                end in
              let information :=
                [print "-----------   information    ----------------";
                 print ("is_release_mode: " ++ str_bool is_release_mode);
                 print ("model_path: " ++ model_path);
                 print ("model_save_path: " ++ model_save_path);
                 print "-----------    start to generate  -----------";
                 print "generating..."] in
              let caught (e : exn) :=
                [print "Error: Something Wrong"; print_exception e] in
              let generated :=
                match read model_path with
                | Raise e => caught e
                | Ok model =>
                    let r := tflite2onnx.main model (negb is_release_mode) in
                    map effect (trace r)
                    ++ match outcome r with
                       | Ok _ => []
                       | Raise e => caught e
                       end
                end in
              (finished,
               information ++ generated
               ++ [print "------------   end   ------------------------"])
        end
  end.
End Run.

End script.

(* ================================================================== *)
(** * Small models to run the embedding on *)
(* ================================================================== *)

Module Samples.

Definition operator (inputs : list Z) (out : Z)
    (act : ActivationFunctionType.t) : Operator :=
  {| Inputs := inputs; Outputs := [out]; FusedActivationFunction := act |}.

Definition tensor (nm : string) (i : Z) (sh : list Z) : TensorDetails :=
  {| tflite.name := nm; index := i; shape := sh |}.

(** An interpreter over a tensor table. *)
Definition catalog (tensors : list TensorDetails) (i : Z)
  : result TensorDetails :=
  match find (fun d => index d =? i) tensors with
  | Some d => Ok d
  | None => Raise (ValueError "Could not get tensor details")
  end.

Definition interpreter_of (tensors inputs outputs : list TensorDetails)
  : Interpreter :=
  {| get_tensor_details := catalog tensors;
     get_input_details := inputs;
     get_output_details := outputs |}.

(** Convolution, fully-connected, add and mul layers hand the code of
    their option block to the generator; no lowering of a layer outside
    [aact_layers.py] is available. *)
Definition layers : ExternalLayers := {|
  fused_activation_function := fun l =>
    match cls l with
    | Convolution | DepthwiseConvolution | Dense | Add | Mul =>
        option_map FusedActivationFunction (op l)
    | _ => None
    end;
  generate_ext := fun _ _ _ _ => Raise TypeError
|}.

Definition feature : list Z := [1; 7; 7; 3].

(** A convolution with a fused ReLU6, followed by a ReLU. *)
Definition conv_relu : Model :=
  {| operators :=
       [(operator [0; 1; 2] 3 ActivationFunctionType.RELU6,
         BuiltinOperator.CONV_2D);
        (operator [3] 4 ActivationFunctionType.NONE, BuiltinOperator.RELU)];
     interpreter :=
       interpreter_of
         [tensor "input" 0 feature; tensor "kernel" 1 [3; 3; 3; 3];
          tensor "bias" 2 [3]; tensor "conv" 3 feature;
          tensor "relu" 4 feature]
         [tensor "input" 0 feature] [tensor "relu" 4 feature] |}.

(** A ReLU whose result is multiplied by itself. *)
Definition relu_squared : Model :=
  {| operators :=
       [(operator [0] 1 ActivationFunctionType.NONE, BuiltinOperator.RELU);
        (operator [1; 1] 2 ActivationFunctionType.NONE, BuiltinOperator.MUL)];
     interpreter :=
       interpreter_of
         [tensor "input" 0 feature; tensor "relu" 1 feature;
          tensor "square" 2 feature]
         [tensor "input" 0 feature] [tensor "square" 2 feature] |}.

(** A ReLU followed by a ReLU6. *)
Definition relu_relu6 : Model :=
  {| operators :=
       [(operator [0] 1 ActivationFunctionType.NONE, BuiltinOperator.RELU);
        (operator [1] 2 ActivationFunctionType.NONE, BuiltinOperator.RELU6)];
     interpreter :=
       interpreter_of
         [tensor "input" 0 feature; tensor "relu" 1 feature;
          tensor "relu6" 2 feature]
         [tensor "input" 0 feature] [tensor "relu6" 2 feature] |}.

(** A ReLU followed by a PReLU whose slope, the constant tensor 2, bears
    the name of the ReLU's result. *)
Definition relu_prelu : Model :=
  {| operators :=
       [(operator [0] 1 ActivationFunctionType.NONE, BuiltinOperator.RELU);
        (operator [1; 2] 3 ActivationFunctionType.NONE, BuiltinOperator.PRELU)];
     interpreter :=
       interpreter_of
         [tensor "input" 0 feature; tensor "relu" 1 feature;
          tensor "relu" 2 [3]; tensor "prelu" 3 feature]
         [tensor "input" 0 feature] [tensor "prelu" 3 feature] |}.

(** A ReLU followed by an operator of a kind that the graph builder does
    not name. *)
Definition relu_unknown : Model :=
  {| operators :=
       [(operator [0] 1 ActivationFunctionType.NONE, BuiltinOperator.RELU);
        (operator [1] 2 ActivationFunctionType.NONE,
         BuiltinOperator.UNLISTED 39)];
     interpreter :=
       interpreter_of
         [tensor "input" 0 feature; tensor "relu" 1 feature;
          tensor "other" 2 feature]
         [tensor "input" 0 feature] [tensor "other" 2 feature] |}.


(** The two layers of [relu_relu6] as the graph holds them, and the lists
    and the table of the driver before its first turn with the boundary
    conversion on. *)
Definition relu_layer : Layer :=
  {| cls := Relu;
     op := Some (operator [0] 1 ActivationFunctionType.NONE);
     op_type := BuiltinOperator.RELU; node_idx := 1; node_name := "relu";
     input_nodes_idx := []; input_nodes_name := [];
     output_nodes_idx := [2]; output_nodes_name := ["relu6"%string] |}.

Definition relu6_layer : Layer :=
  {| cls := Relu6;
     op := Some (operator [1] 2 ActivationFunctionType.NONE);
     op_type := BuiltinOperator.RELU6; node_idx := 2; node_name := "relu6";
     input_nodes_idx := [1]; input_nodes_name := ["relu"%string];
     output_nodes_idx := []; output_nodes_name := [] |}.

Definition first_turn : tflite2onnx.State :=
  {| tflite2onnx.op_name__sub_op_name__table :=
       [("input"%string, ["input"%string; "transpose_node_input_input"%string])];
     tflite2onnx.onnx_weight_node_list := [];
     tflite2onnx.output_tensor_value_info := [];
     tflite2onnx.onnx_node_list :=
       [tflite2onnx.build_head_transpose_node_for_channel_last_2_channel_first
          "input"];
     tflite2onnx.inner_node_shape_value_info := [] |}.

End Samples.

(* ================================================================== *)
(** * What the specification expects, in its own words *)
(* ================================================================== *)

Module Spec.

(** The padding needed on one spatial dimension in SAME mode. *)
Definition need (size kernel stride : Z) : Z :=
  if size mod stride =? 0 then Z.max (kernel - stride) 0
  else Z.max (kernel - size mod stride) 0.

(** The activations the system can emit standalone. *)
Definition fusable (t : ActivationFunctionType.t) : bool :=
  match t with
  | ActivationFunctionType.RELU | ActivationFunctionType.RELU6 => true
  | _ => false
  end.

(** The warning recorded for an activation that is not split: none for
    NONE, one for each unsupported kind. *)
Definition warning (t : ActivationFunctionType.t) : list event :=
  match t with
  | ActivationFunctionType.NONE => []
  | ActivationFunctionType.RELU => []
  | ActivationFunctionType.RELU6 => []
  | ActivationFunctionType.RELU_N1_TO_1 =>
      [Warn "Not Support RELU_N1_TO_1 Fused Activation Currently."]
  | ActivationFunctionType.TANH =>
      [Warn "Not Support TANH Fused Activation Currently."]
  | ActivationFunctionType.SIGN_BIT =>
      [Warn "Not Support SIGN_BIT Fused Activation Currently."]
  | ActivationFunctionType.UNSPECIFIED code =>
      [Warn ("Fused Activation Type " ++ str_int code
             ++ " Not in Specification.")]
  end.

(** The fused activation a node carries, if its class carries one. *)
Definition embedded_activation {ext : ExternalLayers} (l : Layer)
  : option ActivationFunctionType.t :=
  if keeps_Layer_method (cls l) then None else fused_activation_function l.

Definition warning_of (a : option ActivationFunctionType.t) : list event :=
  match a with
  | Some t => warning t
  | None => []
  end.

(** A synthesized activation node. *)
Definition synthesized (l : Layer) : bool :=
  match cls l with
  | ReluDefused | Relu6Defused => true
  | _ => false
  end.

End Spec.

(* ================================================================== *)
(** * Well-formed graphs *)
(* ================================================================== *)

Module Graph.

(** A layer without its output edges. *)
Definition clear_outputs (l : Layer) : Layer :=
  set_output_nodes_name (set_output_nodes_idx l []) [].

(** A graph without its output edges: the passes after the side-input
    elimination and before the de-fusion write nothing else. *)
Definition skeleton (nodes : Nodes) : Nodes :=
  map (fun kv => (fst kv, clear_outputs (snd kv))) nodes.

(** A layer without its edges by name: what the de-fusion leaves as it
    is. *)
Definition clear_names (l : Layer) : Layer :=
  set_input_nodes_name (set_output_nodes_name l []) [].

Definition clear_input_names (l : Layer) : Layer :=
  set_input_nodes_name l [].

Definition indices (nodes : Nodes) : list Z :=
  map (fun kv => node_idx (snd kv)) nodes.

(** Every object is stored under its own name. *)
Definition named_by_key (nodes : Nodes) : Prop :=
  Forall (fun kv => node_name (snd kv) = fst kv) nodes.

(** Every input name is the key of a node, every input index the index
    of a node. *)
Definition input_names_known (nodes : Nodes) : Prop :=
  Forall (fun kv => Forall (fun n => In n (dict_keys nodes))
                      (input_nodes_name (snd kv))) nodes.

Definition input_indices_known (nodes : Nodes) : Prop :=
  Forall (fun kv => Forall (fun i => In i (indices nodes))
                      (input_nodes_idx (snd kv))) nodes.

Definition pruned (nodes : Nodes) : Prop :=
  named_by_key nodes /\ input_names_known nodes /\ input_indices_known nodes.

(** The interpreter answers with the index it was asked for. *)
Definition echoes_index (interp : Interpreter) : Prop :=
  forall i d, get_tensor_details interp i = Ok d -> index d = i.

(** No output edge yet. *)
Definition without_outputs (nodes : Nodes) : Prop :=
  Forall (fun kv => output_nodes_idx (snd kv) = []
                    /\ output_nodes_name (snd kv) = []) nodes.

(** The input names of the node stored under a name. *)
Definition inputs_of (nodes : Nodes) (key : string) : list string :=
  match dict_get String.eqb nodes key with
  | Some l => input_nodes_name l
  | None => []
  end.

(** The inverse of the input edges by name: the nodes that list [key]
    among their inputs, each once, in the order of the graph. *)
Definition name_edges (nodes : Nodes) (key : string) : list string :=
  filter (fun consumer => mem_str key (inputs_of nodes consumer))
         (dict_keys nodes).

(** The output edges by index: the index of a node once for each time the
    node lists [idx] among its inputs, in the order of the graph. *)
Definition index_edges (nodes : Nodes) (idx : Z) : list Z :=
  flat_map (fun kv => map (fun _ => node_idx (snd kv))
                          (filter (Z.eqb idx) (input_nodes_idx (snd kv))))
           nodes.

(** The graph in the course of the loop over the names: the nodes [done]
    have had their turn, and the node [cur] has gone through the inputs
    [idone]. *)
Definition names_after (nodes : Nodes) (done : list string) (cur : string)
    (idone : list string) : Nodes :=
  map (fun kv =>
         (fst kv,
          set_output_nodes_name (snd kv)
            (filter (fun consumer => mem_str (fst kv) (inputs_of nodes consumer))
                    done
             ++ (if mem_str (fst kv) idone then [cur] else []))))
      nodes.

(** The same for the loop over the indices: the nodes [done] have had
    their turn, and the node of index [cur] has gone through the inputs
    [idone]. *)
Definition indices_after (nodes done : Nodes) (cur : Z) (idone : list Z)
  : Nodes :=
  map (fun kv =>
         (fst kv,
          set_output_nodes_idx (snd kv)
            (index_edges done (node_idx (snd kv))
             ++ map (fun _ => cur)
                    (filter (Z.eqb (node_idx (snd kv))) idone))))
      nodes.

(** The graph with its output edges. *)
Definition with_outputs (nodes : Nodes) : Nodes :=
  map (fun kv =>
         (fst kv,
          set_output_nodes_name
            (set_output_nodes_idx (snd kv) (index_edges nodes (node_idx (snd kv))))
            (name_edges nodes (fst kv))))
      nodes.

End Graph.

(* ================================================================== *)
(** * The monads *)
(* ================================================================== *)

Unset Implicit Arguments.

Lemma bindM_Ok {A B} (a : A) (t : list event) (k : A -> M B) :
  bindM (Ok a, t) k = (outcome (k a), t ++ trace (k a)).
Proof. unfold bindM, outcome, trace. destruct (k a); reflexivity. Qed.

Lemma bindM_Ok_nil {A B} (a : A) (k : A -> M B) : bindM (Ok a, []) k = k a.
Proof. rewrite bindM_Ok. destruct (k a); reflexivity. Qed.

Lemma bindM_Raise {A B} (e : exn) (t : list event) (k : A -> M B) :
  bindM (Raise e, t) k = (Raise e, t).
Proof. reflexivity. Qed.

Lemma bindM_ret {A B} (a : A) (k : A -> M B) : bindM (ret a) k = k a.
Proof. unfold ret. rewrite bindM_Ok. destruct (k a); reflexivity. Qed.

Lemma bindM_lift_Ok {A B} (a : A) (k : A -> M B) : bindM (lift (Ok a)) k = k a.
Proof. apply bindM_ret. Qed.

Lemma bindM_lift_Raise {A B} (e : exn) (k : A -> M B) :
  bindM (lift (Raise e)) k = raise e.
Proof. reflexivity. Qed.

Lemma bindM_outcome_Raise {A B} (c : M A) (k : A -> M B) e :
  outcome c = Raise e -> bindM c k = (Raise e, trace c).
Proof. destruct c as [[a|e'] t]; simpl; intros H; [discriminate|]. congruence. Qed.

Lemma bindM_outcome_Ok {A B} (c : M A) (k : A -> M B) a :
  outcome c = Ok a ->
  bindM c k = (outcome (k a), trace c ++ trace (k a)).
Proof.
  destruct c as [[a'|e'] t]; simpl; intros H; [|discriminate].
  injection H as ->. apply bindM_Ok.
Qed.

Lemma M_eta {A} (c : M A) : c = (outcome c, trace c).
Proof. destruct c; reflexivity. Qed.

#[local] Arguments bindM : simpl never.

(* ================================================================== *)
(** * The padding calculator and the layout mapper *)
(* ================================================================== *)

(** SAME mode follows the formula of the specification on every feature
    map with a height and a width, every kernel and every non-zero
    stride. *)
Lemma getPadding_SAME n h w rest kh kw krest sh sw srest :
  sh <> 0 -> sw <> 0 ->
  utils.getPadding (n :: h :: w :: rest) (kh :: kw :: krest)
    (sh :: sw :: srest) "SAME"
  = Ok (Some [Spec.need h kh sh / 2; Spec.need w kw sw / 2;
              Spec.need h kh sh - Spec.need h kh sh / 2;
              Spec.need w kw sw - Spec.need w kw sw / 2]).
Proof.
  intros Hh Hw. unfold utils.getPadding, Spec.need, mod_. simpl.
  apply Z.eqb_neq in Hh, Hw. rewrite Hh, Hw. simpl.
  destruct (h mod sh =? 0); simpl; rewrite ?Hh, ?Hw; simpl;
    destruct (w mod sw =? 0); simpl; rewrite ?Hh, ?Hw; reflexivity.
Qed.

Lemma getPadding_VALID f k s : utils.getPadding f k s "VALID" = Ok (Some [0; 0; 0; 0]).
Proof. reflexivity. Qed.

(** C5, as stated: the result on a 7x7 feature map with a 3x3 kernel and
    stride 2 is not (0,1,0,1). *)
Lemma getPadding_7x7_is_not_0101 :
  utils.getPadding [1; 7; 7; 3] [3; 3] [2; 2] "SAME" <> Ok (Some [0; 1; 0; 1]).
Proof. vm_compute. discriminate. Qed.

(** C5, amended: on a [1,7,7,c] feature map with a 3x3 kernel and stride
    2 in SAME mode, [getPadding] returns [1,1,1,1]: the need is 2 on each
    dimension, split as [need // 2] and [need - need // 2]. *)
Theorem getPadding_7x7_kernel3_stride2 (c : Z) :
  utils.getPadding [1; 7; 7; c] [3; 3] [2; 2] "SAME" = Ok (Some [1; 1; 1; 1])
  /\ Spec.need 7 3 2 = 2
  /\ [1; 1; 1; 1] = [Spec.need 7 3 2 / 2; Spec.need 7 3 2 / 2;
                     Spec.need 7 3 2 - Spec.need 7 3 2 / 2;
                     Spec.need 7 3 2 - Spec.need 7 3 2 / 2].
Proof. repeat split. Qed.

(** C6, as stated: a shape of rank 3 is not passed through. *)
Lemma shape_map_rank3_not_passed_through :
  utils.tflite2onnx_shape_map [1; 2; 3] <> Some [1; 2; 3].
Proof. discriminate. Qed.

(** C6, amended: the mapping sends every rank-4 shape [n,h,w,c] to
    [n,c,h,w], and every shape of another rank to [None]. *)
Theorem tflite2onnx_shape_map_rank (shape_list : list Z) :
  (forall n h w c, shape_list = [n; h; w; c] ->
     utils.tflite2onnx_shape_map shape_list = Some [n; c; h; w])
  /\ (List.length shape_list <> 4%nat ->
      utils.tflite2onnx_shape_map shape_list = None).
Proof.
  split.
  - intros n h w c ->. reflexivity.
  - intros H. destruct shape_list as [|a [|b [|c [|d [|e l]]]]]; try reflexivity.
    simpl in H. congruence.
Qed.

Lemma tflite2onnx_shape_map_rank_witness :
  utils.tflite2onnx_shape_map [1; 7; 7; 3] = Some [1; 3; 7; 7]
  /\ utils.tflite2onnx_shape_map [1; 2; 3] = None.
Proof.
  split.
  - apply (proj1 (tflite2onnx_shape_map_rank [1; 7; 7; 3]) 1 7 7 3).
    reflexivity.
  - apply (proj2 (tflite2onnx_shape_map_rank [1; 2; 3])). discriminate.
Defined.

(* ================================================================== *)
(** * Activations that are not split *)
(* ================================================================== *)

Section NotSplit.
Context {ext : ExternalLayers}.
Variable tflite_interpreter : Interpreter.

(** The generator answers [None] for NONE and for every unsupported
    kind, with the warning of that kind. *)
Lemma generator_not_fusable t o ty :
  Spec.fusable t = false ->
  aact_layers.defused_activation_node_generator t o ty tflite_interpreter
  = (Ok None, Spec.warning t).
Proof. destruct t; simpl; intros H; try discriminate; reflexivity. Qed.

Lemma defuse_activation_function_embedded (self : Layer) :
  defuse_activation_function tflite_interpreter self
  = match Spec.embedded_activation self with
    | None => ret None
    | Some t =>
        aact_layers.defused_activation_node_generator t (op self)
          (op_type self) tflite_interpreter
    end.
Proof.
  unfold defuse_activation_function, Spec.embedded_activation,
    override_defuse_activation_function, Layer_defuse_activation_function.
  destruct (keeps_Layer_method (cls self)); [reflexivity|].
  destruct (fused_activation_function self); reflexivity.
Qed.

Lemma defuse_activation_function_not_fusable (self : Layer) :
  (forall t, Spec.embedded_activation self = Some t -> Spec.fusable t = false) ->
  defuse_activation_function tflite_interpreter self
  = (Ok None, Spec.warning_of (Spec.embedded_activation self)).
Proof.
  intros H. rewrite defuse_activation_function_embedded.
  destruct (Spec.embedded_activation self) as [t|]; [|reflexivity].
  apply generator_not_fusable. auto.
Qed.

Lemma defuse_node_not_fusable st key node :
  nodes_get (fst st) key = Ok node ->
  (forall t, Spec.embedded_activation node = Some t -> Spec.fusable t = false) ->
  Tree.defuse_node tflite_interpreter st key
  = (Ok st, Spec.warning_of (Spec.embedded_activation node)).
Proof.
  intros Hget H. unfold Tree.defuse_node. rewrite Hget, bindM_lift_Ok.
  rewrite (defuse_activation_function_not_fusable _ H), bindM_Ok.
  simpl. rewrite app_nil_r. reflexivity.
Qed.

(** C8: for a node whose embedded activation is NONE or an unsupported
    kind (tanh, sign-bit, ReLU-[-1,1], an unrecognized code), the
    de-fusion of that node synthesizes nothing and leaves the graph and
    the list of new nodes as they are, records the warning of the kind
    (none for NONE), and a second application leaves them unchanged
    again. *)
Theorem defuse_unsupported_is_noop
    (st : Nodes * list Layer) (key : string) (node : Layer)
    (t : ActivationFunctionType.t) :
  nodes_get (fst st) key = Ok node ->
  Spec.embedded_activation node = Some t ->
  Spec.fusable t = false ->
  defuse_activation_function tflite_interpreter node = (Ok None, Spec.warning t)
  /\ Tree.defuse_node tflite_interpreter st key = (Ok st, Spec.warning t)
  /\ (st' <~ Tree.defuse_node tflite_interpreter st key ;;
      Tree.defuse_node tflite_interpreter st' key)
     = (Ok st, Spec.warning t ++ Spec.warning t).
Proof.
  intros Hget Hemb Hfus.
  assert (H : forall t', Spec.embedded_activation node = Some t' ->
                         Spec.fusable t' = false) by congruence.
  pose proof (defuse_node_not_fusable st key node Hget H) as Hstep.
  rewrite Hemb in Hstep. simpl in Hstep.
  repeat split.
  - rewrite (defuse_activation_function_not_fusable _ H), Hemb. reflexivity.
  - exact Hstep.
  - rewrite Hstep, bindM_Ok, Hstep. reflexivity.
Qed.

(** The whole pass on a graph without a fusable activation: the graph
    comes back as it was, with the warnings of its nodes in order. *)
Lemma for_each_defuse_node_noop (keys : list string) (st : Nodes * list Layer) :
  Forall (fun key => exists node,
            nodes_get (fst st) key = Ok node /\
            forall t, Spec.embedded_activation node = Some t ->
                      Spec.fusable t = false) keys ->
  outcome (for_each (Tree.defuse_node tflite_interpreter) keys st) = Ok st.
Proof.
  induction 1 as [|key keys (node & Hget & Hnf) _ IH]; [reflexivity|].
  simpl. rewrite (defuse_node_not_fusable st key node Hget Hnf), bindM_Ok.
  exact IH.
Qed.

Lemma nodes_get_In (nodes : Nodes) key :
  In key (dict_keys nodes) ->
  exists node, nodes_get nodes key = Ok node /\ In node (map snd nodes).
Proof.
  unfold nodes_get, dict_keys.
  induction nodes as [|[k v] nodes IH]; simpl; [tauto|].
  intros H. destruct (String.eqb_spec k key) as [->|Hne].
  - exists v; auto.
  - destruct H as [H|H]; [contradiction|].
    destruct (IH H) as (node & Hg & Hin). exists node; auto.
Qed.

Lemma defused_noop (nodes : Nodes) :
  Forall (fun node => forall t, Spec.embedded_activation node = Some t ->
                                Spec.fusable t = false) (map snd nodes) ->
  outcome (Tree.defused tflite_interpreter nodes true) = Ok nodes.
Proof.
  intros H. unfold Tree.defused. simpl.
  assert (Hall : Forall (fun key => exists node,
            nodes_get (fst (nodes, @nil Layer)) key = Ok node /\
            forall t, Spec.embedded_activation node = Some t ->
                      Spec.fusable t = false) (dict_keys nodes)).
  { apply Forall_forall. intros key Hin.
    destruct (nodes_get_In nodes key Hin) as (node & Hg & Hn).
    exists node. split; [exact Hg|].
    rewrite Forall_forall in H. apply H, Hn. }
  pose proof (for_each_defuse_node_noop _ (nodes, []) Hall) as Hok.
  rewrite (bindM_outcome_Ok _ _ _ Hok). reflexivity.
Qed.
End NotSplit.

Lemma defuse_unsupported_is_noop_witness :
  let node :=
    {| cls := Convolution;
       op := Some (Samples.operator [0; 1; 2] 3 ActivationFunctionType.TANH);
       op_type := BuiltinOperator.CONV_2D; node_idx := 3; node_name := "conv";
       input_nodes_idx := []; input_nodes_name := [];
       output_nodes_idx := []; output_nodes_name := [] |} in
  let st := ([("conv"%string, node)], @nil Layer) in
  Tree.defuse_node (ext := Samples.layers) (interpreter Samples.conv_relu)
    st "conv"
  = (Ok st, [Warn "Not Support TANH Fused Activation Currently."]).
Proof.
  intros node st.
  apply (proj1 (proj2
    (@defuse_unsupported_is_noop Samples.layers (interpreter Samples.conv_relu)
       st "conv" node ActivationFunctionType.TANH
       eq_refl eq_refl eq_refl))).
Defined.

(* ================================================================== *)
(** * Unknown operator kinds *)
(* ================================================================== *)

Lemma parse_graph_unknown_kind interp ops :
  (exists o code, In (o, BuiltinOperator.UNLISTED code) ops) ->
  forall nodes,
  exists e,
    for_each_result
      (fun nodes o =>
         node <- Tree.node_generator (fst o) (snd o) interp ;;
         Ok (dict_set String.eqb nodes (node_name node) node))
      ops nodes = Raise e.
Proof.
  intros (o & code & Hin). induction ops as [|[o' ty] ops IH]; [destruct Hin|].
  intros nodes. simpl.
  destruct Hin as [Heq|Hin].
  - injection Heq as -> ->. simpl. eauto.
  - destruct (Tree.node_generator o' ty interp) as [node|e]; simpl; eauto.
Qed.

Section UnknownKind.
Context {ext : ExternalLayers}.

Lemma Tree_init_unknown_kind model defused_flag :
  (exists o code, In (o, BuiltinOperator.UNLISTED code) (operators model)) ->
  exists e, Tree.init model defused_flag = (Raise e, []).
Proof.
  intros H. unfold Tree.init, Tree.parse_graph.
  destruct (parse_graph_unknown_kind (interpreter model) _ H []) as (e & ->).
  exists e. reflexivity.
Qed.

(** C4: a model with an operator of an unknown kind makes the graph
    construction raise, and with it the conversion: no lowering routine
    has been called and no model has been saved. *)
Theorem unknown_operator_kind_is_fatal (model : Model)
    (add_transpose_for_channel_last_first_issue : bool) :
  (exists o code, In (o, BuiltinOperator.UNLISTED code) (operators model)) ->
  (exists e, outcome (Tree.init model false) = Raise e)
  /\ (exists e, outcome (tflite2onnx.main model
                           add_transpose_for_channel_last_first_issue)
                = Raise e)
  /\ trace (tflite2onnx.main model
              add_transpose_for_channel_last_first_issue) = [].
Proof.
  intros H. destruct (Tree_init_unknown_kind model false H) as (e & He).
  split; [exists e; rewrite He; reflexivity|].
  unfold tflite2onnx.main.
  destruct (Py.index (get_input_details (interpreter model)) 0) as [d|e'].
  - rewrite bindM_lift_Ok, He. simpl. eauto.
  - simpl. eauto.
Qed.
End UnknownKind.

Lemma unknown_operator_kind_is_fatal_witness :
  (exists e, outcome (Tree.init (ext := Samples.layers)
                        Samples.relu_unknown false) = Raise e)
  /\ (exists e, outcome (tflite2onnx.main (ext := Samples.layers)
                           Samples.relu_unknown true) = Raise e)
  /\ trace (tflite2onnx.main (ext := Samples.layers)
              Samples.relu_unknown true) = [].
Proof.
  apply (@unknown_operator_kind_is_fatal Samples.layers Samples.relu_unknown true).
  exists (Samples.operator [1] 2 ActivationFunctionType.NONE), 39.
  simpl. right. left. reflexivity.
Defined.


(* ================================================================== *)
(** * Dictionaries *)
(* ================================================================== *)

Section DictFacts.
Variables K V : Type.
Variable eqb : K -> K -> bool.
Hypothesis eqb_eq : forall x y, eqb x y = true <-> x = y.

Lemma dict_get_set (d : dict K V) k v k' :
  dict_get eqb (dict_set eqb d k v) k'
  = if eqb k k' then Some v else dict_get eqb d k'.
Proof.
  induction d as [|[k0 v0] d IH]; simpl.
  - reflexivity.
  - destruct (eqb k0 k) eqn:E0; simpl.
    + apply eqb_eq in E0. subst k0.
      destruct (eqb k k'); reflexivity.
    + destruct (eqb k0 k') eqn:E1; [|exact IH].
      apply eqb_eq in E1. subst k0.
      destruct (eqb k k') eqn:E2; [|reflexivity].
      apply eqb_eq in E2. subst k'.
      assert (eqb k k = true) by (apply eqb_eq; reflexivity). congruence.
Qed.

Lemma dict_keys_set (d : dict K V) k v k' :
  In k' (dict_keys (dict_set eqb d k v)) <-> k' = k \/ In k' (dict_keys d).
Proof.
  unfold dict_keys. induction d as [|[k0 v0] d IH]; simpl.
  - intuition.
  - destruct (eqb k0 k) eqn:E0; simpl.
    + apply eqb_eq in E0. subst k0. intuition.
    + rewrite IH. intuition.
Qed.

Lemma In_dict_set (d : dict K V) k v kv :
  In kv (dict_set eqb d k v) -> kv = (k, v) \/ In kv d.
Proof.
  induction d as [|[k0 v0] d IH]; simpl.
  - intuition.
  - destruct (eqb k0 k) eqn:E0; simpl.
    + apply eqb_eq in E0. subst k0. intuition.
    + intuition.
Qed.

Lemma dict_get_In_keys (d : dict K V) k :
  In k (dict_keys d) <-> exists v, dict_get eqb d k = Some v.
Proof.
  unfold dict_keys. induction d as [|[k0 v0] d IH]; simpl.
  - split; [tauto|intros (v & H); discriminate].
  - destruct (eqb k0 k) eqn:E0.
    + apply eqb_eq in E0. split; eauto.
    + rewrite <- IH. split; [|tauto].
      intros [H|H]; [|exact H]. apply eqb_eq in H. congruence.
Qed.

Lemma dict_get_In (d : dict K V) k v :
  dict_get eqb d k = Some v -> In (k, v) d.
Proof.
  induction d as [|[k0 v0] d IH]; simpl; [discriminate|].
  destruct (eqb k0 k) eqn:E0.
  - apply eqb_eq in E0. intros H. left. congruence.
  - auto.
Qed.
End DictFacts.

Lemma string_eqb_eq x y : String.eqb x y = true <-> x = y.
Proof. apply String.eqb_eq. Qed.

Lemma mem_str_In x l : mem_str x l = true <-> In x l.
Proof.
  unfold mem_str. rewrite existsb_exists. split.
  - intros (y & Hin & Heq). apply String.eqb_eq in Heq. congruence.
  - intros H. exists x. split; [exact H|apply String.eqb_refl].
Qed.

Lemma mem_int_In x l : mem_int x l = true <-> In x l.
Proof.
  unfold mem_int. rewrite existsb_exists. split.
  - intros (y & Hin & Heq). apply Z.eqb_eq in Heq. congruence.
  - intros H. exists x. split; [exact H|apply Z.eqb_refl].
Qed.

(** Loops that keep an invariant and do not raise. *)
Lemma for_each_result_total {A S} (I : S -> Prop) (body : S -> A -> result S)
    (l : list A) :
  (forall st a, In a l -> I st -> exists st', body st a = Ok st' /\ I st') ->
  forall st, I st -> exists st', for_each_result body l st = Ok st' /\ I st'.
Proof.
  induction l as [|a l IH]; intros Hbody st Hst; simpl.
  - eauto.
  - destruct (Hbody st a (or_introl eq_refl) Hst) as (st1 & -> & H1). simpl.
    apply IH; [|exact H1]. intros st2 b Hb. apply Hbody. right. exact Hb.
Qed.

Lemma for_each_result_keeps {A S} (I : S -> Prop) (body : S -> A -> result S)
    (l : list A) :
  (forall st a st', In a l -> I st -> body st a = Ok st' -> I st') ->
  forall st st', I st -> for_each_result body l st = Ok st' -> I st'.
Proof.
  induction l as [|a l IH]; intros Hbody st st' Hst; simpl.
  - intros H. injection H as <-. exact Hst.
  - destruct (body st a) as [st1|e] eqn:E; simpl; [|discriminate].
    apply IH.
    + intros st2 b st3 Hb. apply Hbody. right. exact Hb.
    + apply (Hbody st a st1 (or_introl eq_refl) Hst E).
Qed.

(* ================================================================== *)
(** * Writes to a node of the graph *)
(* ================================================================== *)


Lemma dict_get_nodes_update nodes key f k :
  dict_get String.eqb (nodes_update nodes key f) k
  = option_map (fun l => if String.eqb k key then f l else l)
      (dict_get String.eqb nodes k).
Proof.
  induction nodes as [|[k0 v0] nodes IH]; simpl; [reflexivity|].
  destruct (String.eqb_spec k0 key) as [->|Hne]; simpl.
  - destruct (String.eqb_spec key k) as [->|Hne']; [|exact IH].
    simpl. rewrite String.eqb_refl. reflexivity.
  - destruct (String.eqb_spec k0 k) as [->|Hne']; [|exact IH].
    simpl. destruct (String.eqb_spec k key); [contradiction|reflexivity].
Qed.

Lemma skeleton_nodes_update nodes key f :
  (forall l, Graph.clear_outputs (f l) = Graph.clear_outputs l) ->
  Graph.skeleton (nodes_update nodes key f) = Graph.skeleton nodes.
Proof.
  intros Hf. unfold Graph.skeleton, nodes_update. rewrite map_map.
  apply map_ext. intros [k v]. simpl.
  destruct (String.eqb k key); simpl; [rewrite Hf|]; reflexivity.
Qed.

Lemma skeleton_keys n n' :
  Graph.skeleton n = Graph.skeleton n' -> dict_keys n = dict_keys n'.
Proof.
  intros H. apply (f_equal (map fst)) in H. unfold Graph.skeleton in H.
  rewrite !map_map in H. exact H.
Qed.

Lemma skeleton_indices n n' :
  Graph.skeleton n = Graph.skeleton n' -> Graph.indices n = Graph.indices n'.
Proof.
  intros H. apply (f_equal Graph.indices) in H.
  unfold Graph.skeleton, Graph.indices in H. rewrite !map_map in H. exact H.
Qed.

Lemma map_eq_In {A B} (f : A -> B) (l l' : list A) (x : A) :
  map f l = map f l' -> In x l -> exists x', In x' l' /\ f x' = f x.
Proof.
  revert l'. induction l as [|a l IH]; intros [|a' l'] H Hin;
    try discriminate H; [destruct Hin|].
  destruct Hin as [Heq|Hin].
  - subst a. exists a'. split; [left; reflexivity|].
    exact (eq_sym (f_equal (hd (f x)) H)).
  - destruct (IH l' (f_equal (@tl B) H) Hin) as (x' & Hx' & Hf).
    exists x'. split; [right; exact Hx'|exact Hf].
Qed.

Lemma skeleton_In n n' k l :
  Graph.skeleton n = Graph.skeleton n' -> In (k, l) n ->
  exists l', In (k, l') n' /\ Graph.clear_outputs l' = Graph.clear_outputs l.
Proof.
  intros H Hin.
  destruct (map_eq_In _ n n' (k, l) H Hin) as ([k' l'] & Hin' & Heq).
  exists l'. split.
  - apply (f_equal fst) in Heq. simpl in Heq. subst k'. exact Hin'.
  - exact (f_equal snd Heq).
Qed.

Lemma clear_outputs_fields l l' :
  Graph.clear_outputs l' = Graph.clear_outputs l ->
  cls l' = cls l /\ op l' = op l /\ op_type l' = op_type l
  /\ node_idx l' = node_idx l /\ node_name l' = node_name l
  /\ input_nodes_idx l' = input_nodes_idx l
  /\ input_nodes_name l' = input_nodes_name l.
Proof.
  intros H. unfold Graph.clear_outputs in H.
  repeat split;
    [apply (f_equal cls) in H | apply (f_equal op) in H
     | apply (f_equal op_type) in H | apply (f_equal node_idx) in H
     | apply (f_equal node_name) in H | apply (f_equal input_nodes_idx) in H
     | apply (f_equal input_nodes_name) in H]; exact H.
Qed.

Lemma pruned_skeleton n n' :
  Graph.skeleton n = Graph.skeleton n' -> Graph.pruned n -> Graph.pruned n'.
Proof.
  intros H (Hn & Hnames & Hidx).
  pose proof (skeleton_keys _ _ H) as Hk.
  pose proof (skeleton_indices _ _ H) as Hi.
  assert (Hback : forall k l', In (k, l') n' ->
            exists l, In (k, l) n /\ Graph.clear_outputs l = Graph.clear_outputs l').
  { intros k l' Hin. apply (skeleton_In n' n); auto. }
  unfold Graph.pruned, Graph.named_by_key, Graph.input_names_known,
    Graph.input_indices_known in *.
  rewrite Forall_forall in Hn, Hnames, Hidx.
  repeat split; apply Forall_forall; intros [k l'] Hin; simpl;
    destruct (Hback k l' Hin) as (l & Hl & Hc);
    apply clear_outputs_fields in Hc;
    destruct Hc as (_ & _ & _ & _ & Hc5 & Hc6 & Hc7).
  - rewrite <- Hc5. apply (Hn (k, l) Hl).
  - rewrite <- Hc7, <- Hk. apply (Hnames (k, l) Hl).
  - rewrite <- Hc6, <- Hi. apply (Hidx (k, l) Hl).
Qed.

(* ================================================================== *)
(** * The graph builder *)
(* ================================================================== *)

Lemma Layer_init_fields c o ty interp l :
  Layer_init c o ty interp = Ok l ->
  cls l = c /\ op l = o /\ op_type l = ty
  /\ output_nodes_idx l = [] /\ output_nodes_name l = []
  /\ (forall o', o = Some o' ->
        input_nodes_idx l = Inputs o'
        /\ exists d, get_tensor_details interp (Outputs_0 o') = Ok d
                     /\ node_idx l = index d /\ node_name l = tflite.name d).
Proof.
  unfold Layer_init. destruct o as [o'|]; simpl.
  - destruct (get_tensor_details interp (Outputs_0 o')) as [d|e] eqn:E; simpl;
      [|discriminate].
    destruct (map_result _ (Inputs o')) as [names|e]; simpl; [|discriminate].
    intros H. injection H as <-. simpl.
    do 5 (split; [reflexivity|]).
    intros o'' Ho. injection Ho as <-. split; [reflexivity|].
    exists d. auto.
  - intros H. injection H as <-. simpl.
    do 5 (split; [reflexivity|]). discriminate.
Qed.

Lemma node_generator_fields o ty interp l :
  Tree.node_generator o ty interp = Ok l ->
  Spec.synthesized l = false /\ op l = Some o /\ op_type l = ty.
Proof.
  unfold Tree.node_generator.
  destruct ty; try discriminate; intros H;
    apply Layer_init_fields in H;
    destruct H as (Hc & Ho & Ht & _);
    unfold Spec.synthesized; rewrite Hc; auto.
Qed.

Lemma parse_graph_named ops interp nodes :
  Tree.parse_graph ops interp = Ok nodes ->
  Graph.named_by_key nodes
  /\ Forall (fun kv => Spec.synthesized (snd kv) = false
                       /\ op (snd kv) <> None) nodes.
Proof.
  unfold Tree.parse_graph.
  apply (for_each_result_keeps
           (fun nodes => Graph.named_by_key nodes
              /\ Forall (fun kv => Spec.synthesized (snd kv) = false
                                   /\ op (snd kv) <> None) nodes)).
  - intros st [o ty] st' _ (Hn & Ho). simpl.
    destruct (Tree.node_generator o ty interp) as [node|e] eqn:E; simpl;
      [|discriminate].
    intros H. injection H as <-.
    apply node_generator_fields in E. destruct E as (Hs & Hop & _).
    unfold Graph.named_by_key in *. rewrite Forall_forall in Hn, Ho.
    split; apply Forall_forall; intros kv Hin;
      apply (In_dict_set _ _ String.eqb string_eqb_eq) in Hin;
      destruct Hin as [->|Hin]; simpl; auto.
    split; [exact Hs|congruence].
  - split; constructor.
Qed.

Lemma eliminate_side_input_In nodes k l' :
  In (k, l') (Tree.eliminate_side_input nodes) <->
  exists l, In (k, l) nodes
    /\ l' = set_input_nodes_name
              (set_input_nodes_idx l
                 (filter (fun i => mem_int i (Graph.indices nodes))
                         (input_nodes_idx l)))
              (filter (fun s => mem_str s (dict_keys nodes))
                      (input_nodes_name l)).
Proof.
  unfold Tree.eliminate_side_input, dict_keys, Graph.indices.
  rewrite !map_map. simpl. rewrite in_map_iff. split.
  - intros ([k0 l] & Heq & Hin). simpl in Heq. injection Heq as <- <-.
    exists l. split; [exact Hin|reflexivity].
  - intros (l & Hin & ->). exists (k, l). split; [reflexivity|exact Hin].
Qed.

Lemma eliminate_side_input_keys nodes :
  dict_keys (Tree.eliminate_side_input nodes) = dict_keys nodes.
Proof.
  unfold Tree.eliminate_side_input, dict_keys. rewrite !map_map. reflexivity.
Qed.

Lemma eliminate_side_input_indices nodes :
  Graph.indices (Tree.eliminate_side_input nodes) = Graph.indices nodes.
Proof.
  unfold Tree.eliminate_side_input, Graph.indices. rewrite !map_map.
  reflexivity.
Qed.

Lemma eliminate_side_input_pruned nodes :
  Graph.named_by_key nodes -> Graph.pruned (Tree.eliminate_side_input nodes).
Proof.
  intros Hn. unfold Graph.pruned, Graph.named_by_key, Graph.input_names_known,
    Graph.input_indices_known in *.
  rewrite Forall_forall in Hn.
  repeat split; apply Forall_forall; intros [k l'] Hin;
    apply eliminate_side_input_In in Hin; destruct Hin as (l & Hin & ->); simpl.
  - apply (Hn (k, l) Hin).
  - apply Forall_forall. intros s Hs. apply filter_In in Hs.
    rewrite eliminate_side_input_keys. apply mem_str_In. apply Hs.
  - apply Forall_forall. intros i Hi. apply filter_In in Hi.
    rewrite eliminate_side_input_indices. apply mem_int_In. apply Hi.
Qed.

(** [nodes_idx_dict]: its keys are the node indices, its values are keys of
    the graph. *)
Lemma nodes_idx_dict_fold (l : Nodes) (acc : dict Z string) :
  let d := fold_left
             (fun d kv => dict_set Z.eqb d (node_idx (snd kv)) (fst kv)) l acc in
  (forall idx, In idx (dict_keys d) <->
               In idx (dict_keys acc) \/ In idx (Graph.indices l))
  /\ (forall idx key, dict_get Z.eqb d idx = Some key ->
        dict_get Z.eqb acc idx = Some key \/ In key (dict_keys l)).
Proof.
  revert acc. induction l as [|[k v] l IH]; intros acc; simpl.
  - split; intros; tauto.
  - destruct (IH (dict_set Z.eqb acc (node_idx v) k)) as (IH1 & IH2).
    split.
    + intros idx. rewrite IH1, (dict_keys_set _ _ Z.eqb Z.eqb_eq).
      unfold Graph.indices. simpl. intuition auto.
    + intros idx key H. apply IH2 in H. unfold dict_keys. simpl.
      destruct H as [H|H]; [|tauto].
      rewrite (dict_get_set _ _ Z.eqb Z.eqb_eq) in H.
      destruct (node_idx v =? idx); [|tauto].
      injection H as ->. tauto.
Qed.

Lemma nodes_idx_dict_keys nodes idx :
  In idx (dict_keys (Tree.nodes_idx_dict nodes)) <-> In idx (Graph.indices nodes).
Proof.
  unfold Tree.nodes_idx_dict.
  rewrite (proj1 (nodes_idx_dict_fold nodes [])). simpl. tauto.
Qed.

Lemma nodes_idx_dict_values nodes idx key :
  dict_get Z.eqb (Tree.nodes_idx_dict nodes) idx = Some key ->
  In key (dict_keys nodes).
Proof.
  intros H. apply (proj2 (nodes_idx_dict_fold nodes [])) in H.
  destruct H as [H|H]; [discriminate|exact H].
Qed.

Lemma idx_dict_get_known nodes idx :
  In idx (Graph.indices nodes) ->
  exists key, Tree.idx_dict_get (Tree.nodes_idx_dict nodes) idx = Ok key
              /\ In key (dict_keys nodes).
Proof.
  intros H. apply nodes_idx_dict_keys in H.
  apply (dict_get_In_keys _ _ Z.eqb Z.eqb_eq) in H. destruct H as (key & H).
  exists key. unfold Tree.idx_dict_get. rewrite H.
  split; [reflexivity|]. apply (nodes_idx_dict_values _ _ _ H).
Qed.

Lemma nodes_get_known nodes key :
  In key (dict_keys nodes) ->
  exists l, nodes_get nodes key = Ok l /\ In (key, l) nodes.
Proof.
  intros H. apply (dict_get_In_keys _ _ String.eqb string_eqb_eq) in H.
  destruct H as (l & H). exists l. unfold nodes_get. rewrite H.
  split; [reflexivity|]. apply (dict_get_In _ _ String.eqb string_eqb_eq _ _ _ H).
Qed.

Lemma clear_outputs_set_idx t v :
  Graph.clear_outputs (set_output_nodes_idx t v) = Graph.clear_outputs t.
Proof. reflexivity. Qed.

Lemma clear_outputs_set_name t v :
  Graph.clear_outputs (set_output_nodes_name t v) = Graph.clear_outputs t.
Proof. reflexivity. Qed.

(** A node of a graph with the skeleton of [base] is a node of [base], up
    to its output edges. *)
Lemma skeleton_node base nodes key :
  Graph.skeleton nodes = Graph.skeleton base ->
  In key (dict_keys base) ->
  exists node l0,
    nodes_get nodes key = Ok node /\ In (key, l0) base
    /\ Graph.clear_outputs l0 = Graph.clear_outputs node.
Proof.
  intros Hs Hk. rewrite <- (skeleton_keys _ _ Hs) in Hk.
  destruct (nodes_get_known nodes key Hk) as (node & Hget & Hin).
  destruct (skeleton_In _ _ _ _ Hs Hin) as (l0 & Hl0 & Hc).
  exists node, l0. auto.
Qed.

Section OutputInference.
Variable base : Nodes.
Hypothesis Hpruned : Graph.pruned base.

Let same_skeleton (nodes : Nodes) : Prop :=
  Graph.skeleton nodes = Graph.skeleton base.

Lemma init_output_nodes_idx_total nodes :
  same_skeleton nodes ->
  exists nodes',
    Tree.init_output_nodes_idx (Tree.nodes_idx_dict base) nodes = Ok nodes'
    /\ same_skeleton nodes'.
Proof.
  destruct Hpruned as (_ & _ & Hidx).
  unfold Tree.init_output_nodes_idx.
  apply for_each_result_total. intros st idx Hin Hst.
  apply nodes_idx_dict_keys in Hin.
  destruct (idx_dict_get_known base idx Hin) as (key & -> & Hkey). simpl.
  destruct (skeleton_node base st key Hst Hkey) as (node & l0 & -> & Hl0 & Hc).
  simpl. apply clear_outputs_fields in Hc.
  destruct Hc as (_ & _ & _ & _ & _ & Hc6 & _).
  unfold Graph.input_indices_known in Hidx. rewrite Forall_forall in Hidx.
  specialize (Hidx (key, l0) Hl0). simpl in Hidx. rewrite Hc6 in Hidx.
  rewrite Forall_forall in Hidx.
  apply for_each_result_total; [|exact Hst].
  intros st' i Hi Hst'.
  destruct (idx_dict_get_known base i (Hidx i Hi)) as (target & -> & _).
  simpl. eexists. split; [reflexivity|].
  unfold same_skeleton. rewrite skeleton_nodes_update; [exact Hst'|].
  intros l. apply clear_outputs_set_idx.
Qed.

Lemma store_output_nodes_idx_total nodes :
  same_skeleton nodes ->
  exists nodes',
    Tree.store_output_nodes_idx (Tree.nodes_idx_dict base) nodes = Ok nodes'
    /\ same_skeleton nodes'.
Proof.
  destruct Hpruned as (Hnamed & _ & _).
  unfold Tree.store_output_nodes_idx.
  apply for_each_result_total. intros st idx Hin Hst.
  apply nodes_idx_dict_keys in Hin.
  destruct (idx_dict_get_known base idx Hin) as (key & -> & Hkey). simpl.
  destruct (skeleton_node base st key Hst Hkey) as (node & l0 & Hget & Hl0 & Hc).
  rewrite Hget. simpl. apply clear_outputs_fields in Hc.
  destruct Hc as (_ & _ & _ & _ & Hc5 & _ & _).
  unfold Graph.named_by_key in Hnamed. rewrite Forall_forall in Hnamed.
  specialize (Hnamed (key, l0) Hl0). simpl in Hnamed.
  rewrite Hnamed in Hc5. rewrite <- Hc5, Hget. simpl.
  eexists. split; [reflexivity|].
  unfold same_skeleton. rewrite skeleton_nodes_update; [exact Hst|].
  intros l. apply clear_outputs_set_idx.
Qed.

Lemma init_output_nodes_name_total nodes :
  same_skeleton nodes ->
  exists nodes',
    Tree.init_output_nodes_name nodes = Ok nodes' /\ same_skeleton nodes'.
Proof.
  intros Hs. destruct Hpruned as (_ & Hnames & _).
  unfold Tree.init_output_nodes_name.
  apply for_each_result_total; [|exact Hs]. intros st key Hin Hst.
  rewrite (skeleton_keys _ _ Hs) in Hin.
  destruct (skeleton_node base st key Hst Hin) as (node & l0 & -> & Hl0 & Hc).
  simpl. apply clear_outputs_fields in Hc.
  destruct Hc as (_ & _ & _ & _ & _ & _ & Hc7).
  unfold Graph.input_names_known in Hnames. rewrite Forall_forall in Hnames.
  specialize (Hnames (key, l0) Hl0). simpl in Hnames. rewrite Hc7 in Hnames.
  rewrite Forall_forall in Hnames.
  apply for_each_result_total; [|exact Hst].
  intros st' name Hname Hst'.
  destruct (skeleton_node base st' name Hst' (Hnames name Hname))
    as (target & _ & -> & _ & _).
  simpl. destruct (negb (mem_str key (output_nodes_name target))).
  - eexists. split; [reflexivity|].
    unfold same_skeleton. rewrite skeleton_nodes_update; [exact Hst'|].
    intros l. apply clear_outputs_set_name.
  - eauto.
Qed.

(** The output-edge inference does not raise on a pruned graph, and
    writes output edges only. *)
Lemma init_outputs_node_info_total :
  exists nodes',
    Tree.init_outputs_node_info base = Ok nodes' /\ same_skeleton nodes'.
Proof.
  unfold Tree.init_outputs_node_info.
  destruct (init_output_nodes_idx_total base eq_refl) as (n1 & -> & H1).
  simpl.
  destruct (store_output_nodes_idx_total n1 H1) as (n2 & -> & H2). simpl.
  apply init_output_nodes_name_total, H2.
Qed.
End OutputInference.

Section Build.
Context {ext : ExternalLayers}.

(** Once the operators are parsed, the construction of the graph without
    de-fusion goes through: it returns the pruned graph with its output
    edges, and performs no effect. *)
Lemma Tree_init_parsed model nodes :
  Tree.parse_graph (operators model) (interpreter model) = Ok nodes ->
  exists graph,
    Tree.init model false = (Ok graph, [])
    /\ Graph.skeleton graph
       = Graph.skeleton (Tree.eliminate_side_input nodes).
Proof.
  intros Hparse. unfold Tree.init. rewrite Hparse, bindM_lift_Ok.
  destruct (parse_graph_named _ _ _ Hparse) as (Hnamed & _).
  destruct (init_outputs_node_info_total _
              (eliminate_side_input_pruned nodes Hnamed))
    as (graph & -> & Hs).
  rewrite bindM_lift_Ok. exists graph. split; [reflexivity|exact Hs].
Qed.

Lemma Tree_init_not_parsed model e defused_flag :
  Tree.parse_graph (operators model) (interpreter model) = Raise e ->
  Tree.init model defused_flag = (Raise e, []).
Proof. intros H. unfold Tree.init. rewrite H. reflexivity. Qed.
End Build.

(* ================================================================== *)
(** * Output-edge inference: what the loops compute *)
(* ================================================================== *)

Lemma dict_get_map_values (F : string * Layer -> Layer) (d : Nodes) k :
  dict_get String.eqb (map (fun kv => (fst kv, F kv)) d) k
  = option_map (fun l => F (k, l)) (dict_get String.eqb d k).
Proof.
  induction d as [|[k0 v0] d IH]; simpl; [reflexivity|].
  destruct (String.eqb_spec k0 k) as [->|_]; [reflexivity|exact IH].
Qed.

Lemma nodes_update_map (F : string * Layer -> Layer) (d : Nodes) key f :
  nodes_update (map (fun kv => (fst kv, F kv)) d) key f
  = map (fun kv => (fst kv, if String.eqb (fst kv) key then f (F kv) else F kv)) d.
Proof.
  unfold nodes_update. rewrite map_map. apply map_ext. intros [k v]. simpl.
  destruct (String.eqb k key); reflexivity.
Qed.

Lemma NoDup_keys_get (d : Nodes) k l :
  NoDup (dict_keys d) -> In (k, l) d -> dict_get String.eqb d k = Some l.
Proof.
  unfold dict_keys. induction d as [|[k0 v0] d IH]; simpl; [tauto|].
  intros Hnd Hin. inversion Hnd as [|? ? Hnotin Hnd']; subst.
  destruct Hin as [Heq|Hin].
  - injection Heq as -> ->. rewrite String.eqb_refl. reflexivity.
  - destruct (String.eqb_spec k0 k) as [->|_]; [|auto].
    exfalso. apply Hnotin. apply in_map_iff. exists (k, l). auto.
Qed.

Lemma mem_str_app x l1 l2 : mem_str x (l1 ++ l2) = mem_str x l1 || mem_str x l2.
Proof. unfold mem_str. apply existsb_app. Qed.

Lemma mem_str_single x y : mem_str x [y] = String.eqb x y.
Proof. unfold mem_str. simpl. apply orb_false_r. Qed.

Lemma set_output_nodes_name_same l :
  set_output_nodes_name l (output_nodes_name l) = l.
Proof. destruct l; reflexivity. Qed.

Lemma set_output_nodes_idx_same l :
  set_output_nodes_idx l (output_nodes_idx l) = l.
Proof. destruct l; reflexivity. Qed.

Section NameEdges.
(** The third loop on a graph [n] without output names. *)
Variable n : Nodes.
Hypothesis Hkeys : NoDup (dict_keys n).
Hypothesis Hknown : Graph.input_names_known n.

Lemma names_after_get done cur idone a :
  dict_get String.eqb (Graph.names_after n done cur idone) a
  = option_map
      (fun l =>
         set_output_nodes_name l
           (filter (fun consumer => mem_str a (Graph.inputs_of n consumer)) done
            ++ (if mem_str a idone then [cur] else [])))
      (dict_get String.eqb n a).
Proof. unfold Graph.names_after. apply dict_get_map_values. Qed.

Lemma names_after_listed done cur idone a :
  mem_str a idone = true ->
  Graph.names_after n done cur (idone ++ [a]) = Graph.names_after n done cur idone.
Proof.
  intros Ha. unfold Graph.names_after. apply map_ext. intros [k v].
  cbn [fst snd]. rewrite mem_str_app, mem_str_single.
  destruct (String.eqb_spec k a) as [->|_];
    [rewrite Ha|rewrite orb_false_r]; reflexivity.
Qed.

Lemma names_after_append done cur idone a :
  mem_str a idone = false ->
  nodes_update (Graph.names_after n done cur idone) a
    (fun t => set_output_nodes_name t (output_nodes_name t ++ [cur]))
  = Graph.names_after n done cur (idone ++ [a]).
Proof.
  intros Ha. unfold Graph.names_after. rewrite nodes_update_map.
  apply map_ext. intros [k v]. cbn [fst snd].
  rewrite mem_str_app, mem_str_single.
  destruct (String.eqb_spec k a) as [->|_].
  - rewrite Ha. cbn [orb output_nodes_name set_output_nodes_name].
    rewrite app_nil_r. reflexivity.
  - rewrite orb_false_r. reflexivity.
Qed.

Lemma names_after_turn done cur cur' lb :
  dict_get String.eqb n cur = Some lb ->
  Graph.names_after n done cur (input_nodes_name lb)
  = Graph.names_after n (done ++ [cur]) cur' [].
Proof.
  intros Hlb. unfold Graph.names_after. apply map_ext. intros [k v].
  cbn [fst snd]. rewrite filter_app. cbn [filter].
  assert (Hi : Graph.inputs_of n cur = input_nodes_name lb)
    by (unfold Graph.inputs_of; rewrite Hlb; reflexivity).
  rewrite Hi. change (mem_str k []) with false. cbn iota.
  rewrite app_nil_r. reflexivity.
Qed.

Lemma name_inner_loop cur done (irest : list string) :
  ~ In cur done ->
  forall idone,
    (forall a, In a irest -> In a (dict_keys n)) ->
    for_each_result
      (fun nodes input_node_name =>
         target <- nodes_get nodes input_node_name ;;
         if negb (mem_str cur (output_nodes_name target)) then
           Ok (nodes_update nodes input_node_name
                 (fun t => set_output_nodes_name t
                             (output_nodes_name t ++ [cur])))
         else Ok nodes)
      irest (Graph.names_after n done cur idone)
    = Ok (Graph.names_after n done cur (idone ++ irest)).
Proof.
  intros Hcur. induction irest as [|a irest IH]; intros idone Hin.
  - rewrite app_nil_r. reflexivity.
  - cbn [for_each_result].
    destruct (proj1 (dict_get_In_keys _ _ String.eqb string_eqb_eq n a)
                (Hin a (or_introl eq_refl))) as (la & Hla).
    unfold nodes_get at 1.
    rewrite names_after_get, Hla. cbn [option_map Py.bind].
    cbn [output_nodes_name set_output_nodes_name].
    rewrite mem_str_app.
    assert (Hnot : mem_str cur
                     (filter (fun consumer =>
                                mem_str a (Graph.inputs_of n consumer)) done)
                   = false).
    { destruct (mem_str cur (filter _ done)) eqn:E; [|reflexivity].
      apply mem_str_In, filter_In in E. tauto. }
    rewrite Hnot. cbn [orb].
    replace (idone ++ a :: irest) with ((idone ++ [a]) ++ irest)
      by (rewrite <- app_assoc; reflexivity).
    destruct (mem_str a idone) eqn:Ea.
    + rewrite mem_str_single, String.eqb_refl. cbn [negb Py.bind].
      rewrite <- (names_after_listed done cur idone a Ea).
      apply IH. intros b Hb. apply Hin. right. exact Hb.
    + cbn [mem_str existsb negb Py.bind].
      rewrite (names_after_append done cur idone a Ea).
      apply IH. intros b Hb. apply Hin. right. exact Hb.
Qed.

Lemma name_outer_loop (rest : list string) :
  forall done cur,
    NoDup (done ++ rest) ->
    (forall b, In b rest -> In b (dict_keys n)) ->
    for_each_result
      (fun nodes node_name =>
         node <- nodes_get nodes node_name ;;
         for_each_result
           (fun nodes input_node_name =>
              target <- nodes_get nodes input_node_name ;;
              if negb (mem_str node_name (output_nodes_name target)) then
                Ok (nodes_update nodes input_node_name
                      (fun t => set_output_nodes_name t
                                  (output_nodes_name t ++ [node_name])))
              else Ok nodes)
           (input_nodes_name node) nodes)
      rest (Graph.names_after n done cur [])
    = Ok (Graph.names_after n (done ++ rest) cur []).
Proof.
  induction rest as [|b rest IH]; intros done cur Hnd Hin.
  - rewrite app_nil_r. reflexivity.
  - cbn [for_each_result].
    destruct (proj1 (dict_get_In_keys _ _ String.eqb string_eqb_eq n b)
                (Hin b (or_introl eq_refl))) as (lb & Hlb).
    unfold nodes_get at 1.
    rewrite names_after_get, Hlb. cbn [option_map Py.bind].
    cbn [input_nodes_name set_output_nodes_name].
    change (Graph.names_after n done cur [])
      with (Graph.names_after n done b []).
    rewrite name_inner_loop.
    + cbn [Py.bind app].
      rewrite (names_after_turn done b cur lb Hlb).
      replace (done ++ b :: rest) with ((done ++ [b]) ++ rest)
        by (rewrite <- app_assoc; reflexivity).
      apply IH.
      * rewrite <- app_assoc. exact Hnd.
      * intros c Hc. apply Hin. right. exact Hc.
    + apply NoDup_remove_2 in Hnd. intros H. apply Hnd.
      apply in_or_app. left. exact H.
    + intros a Ha.
      unfold Graph.input_names_known in Hknown.
      rewrite Forall_forall in Hknown.
      pose proof (Hknown (b, lb)
                    (dict_get_In _ _ String.eqb string_eqb_eq _ _ _ Hlb)) as H.
      rewrite Forall_forall in H. apply H, Ha.
Qed.

(** On a graph without output names the loop gives every node the inverse
    of the input edges by name. *)
Lemma init_output_nodes_name_exact :
  Forall (fun kv => output_nodes_name (snd kv) = []) n ->
  Tree.init_output_nodes_name n
  = Ok (map (fun kv =>
               (fst kv,
                set_output_nodes_name (snd kv) (Graph.name_edges n (fst kv))))
            n).
Proof.
  intros Hfresh. unfold Tree.init_output_nodes_name.
  assert (H0 : n = Graph.names_after n [] ""%string []).
  { unfold Graph.names_after. cbn [filter app]. rewrite <- (map_id n) at 1.
    apply map_ext_in. intros [k v] Hin. cbn [fst snd mem_str existsb app].
    rewrite Forall_forall in Hfresh. specialize (Hfresh (k, v) Hin).
    cbn in Hfresh. f_equal.
    rewrite <- (set_output_nodes_name_same v) at 1. f_equal. exact Hfresh. }
  rewrite H0 at 2. rewrite name_outer_loop.
  - f_equal. unfold Graph.names_after. apply map_ext. intros [k v].
    cbn [fst snd app]. rewrite app_nil_r. reflexivity.
  - exact Hkeys.
  - auto.
Qed.
End NameEdges.

Lemma NoDup_map_inj {A B} (f : A -> B) (l : list A) x y :
  NoDup (map f l) -> In x l -> In y l -> f x = f y -> x = y.
Proof.
  induction l as [|a l IH]; simpl; [tauto|].
  intros Hnd Hx Hy Hf. inversion Hnd as [|? ? Hnotin Hnd']; subst.
  destruct Hx as [->|Hx], Hy as [->|Hy]; auto.
  - exfalso. apply Hnotin. rewrite Hf. apply in_map, Hy.
  - exfalso. apply Hnotin. rewrite <- Hf. apply in_map, Hx.
Qed.

Lemma dict_set_fresh {K V} (eqb : K -> K -> bool)
    (eqb_eq : forall x y, eqb x y = true <-> x = y) (d : dict K V) k v :
  ~ In k (dict_keys d) -> dict_set eqb d k v = d ++ [(k, v)].
Proof.
  unfold dict_keys. induction d as [|[k0 v0] d IH]; simpl; [reflexivity|].
  intros H. destruct (eqb k0 k) eqn:E.
  - apply eqb_eq in E. tauto.
  - rewrite IH by tauto. reflexivity.
Qed.

Section IndexEdges.
(** The first two loops on a graph [n] whose nodes have distinct names and
    distinct indices. *)
Variable n : Nodes.
Hypothesis Hkeys : NoDup (dict_keys n).
Hypothesis Hindices : NoDup (Graph.indices n).
Hypothesis Hknown : Graph.input_indices_known n.

Lemma nodes_idx_dict_fresh (l : Nodes) (acc : dict Z string) :
  NoDup (dict_keys acc ++ Graph.indices l) ->
  fold_left (fun d kv => dict_set Z.eqb d (node_idx (snd kv)) (fst kv)) l acc
  = acc ++ map (fun kv => (node_idx (snd kv), fst kv)) l.
Proof.
  revert acc. induction l as [|[k v] l IH]; intros acc Hnd; simpl.
  - rewrite app_nil_r. reflexivity.
  - simpl in Hnd. rewrite (dict_set_fresh Z.eqb Z.eqb_eq).
    + rewrite IH.
      * rewrite <- app_assoc. reflexivity.
      * unfold dict_keys. rewrite map_app. simpl. rewrite <- app_assoc.
        exact Hnd.
    + apply NoDup_remove_2 in Hnd. intros H. apply Hnd.
      apply in_or_app. left. exact H.
Qed.

Lemma nodes_idx_dict_exact :
  Tree.nodes_idx_dict n = map (fun kv => (node_idx (snd kv), fst kv)) n.
Proof. unfold Tree.nodes_idx_dict. apply nodes_idx_dict_fresh, Hindices. Qed.

Lemma nodes_idx_dict_get k l :
  In (k, l) n ->
  Tree.idx_dict_get (Tree.nodes_idx_dict n) (node_idx l) = Ok k.
Proof.
  intros Hin. unfold Tree.idx_dict_get.
  destruct (dict_get Z.eqb (Tree.nodes_idx_dict n) (node_idx l)) as [k'|] eqn:E.
  - apply (dict_get_In _ _ Z.eqb Z.eqb_eq) in E.
    rewrite nodes_idx_dict_exact in E. apply in_map_iff in E.
    destruct E as ([k0 l0] & Heq & Hin0). simpl in Heq.
    injection Heq as Hidx <-.
    assert (H : (k0, l0) = (k, l))
      by (apply (NoDup_map_inj (fun kv => node_idx (snd kv)) n); auto).
    injection H as -> _. reflexivity.
  - exfalso.
    assert (H : In (node_idx l) (dict_keys (Tree.nodes_idx_dict n))).
    { apply nodes_idx_dict_keys. unfold Graph.indices.
      apply (in_map (fun kv => node_idx (snd kv)) n (k, l)), Hin. }
    apply (dict_get_In_keys _ _ Z.eqb Z.eqb_eq) in H. destruct H as (k' & H).
    congruence.
Qed.

Lemma indices_after_get done cur idone key :
  dict_get String.eqb (Graph.indices_after n done cur idone) key
  = option_map
      (fun l =>
         set_output_nodes_idx l
           (Graph.index_edges done (node_idx l)
            ++ map (fun _ => cur) (filter (Z.eqb (node_idx l)) idone)))
      (dict_get String.eqb n key).
Proof. unfold Graph.indices_after. apply dict_get_map_values. Qed.

Lemma indices_after_append done cur idone k l :
  In (k, l) n ->
  nodes_update (Graph.indices_after n done cur idone) k
    (fun t => set_output_nodes_idx t (output_nodes_idx t ++ [cur]))
  = Graph.indices_after n done cur (idone ++ [node_idx l]).
Proof.
  intros Hin. unfold Graph.indices_after. rewrite nodes_update_map.
  apply map_ext_in. intros [k0 l0] Hin0. cbn [fst snd].
  rewrite filter_app, map_app. cbn [filter].
  destruct (String.eqb_spec k0 k) as [->|Hne].
  - assert (H : l0 = l).
    { pose proof (NoDup_keys_get n k l0 Hkeys Hin0) as H0.
      pose proof (NoDup_keys_get n k l Hkeys Hin) as H1. congruence. }
    subst l0. rewrite Z.eqb_refl.
    cbn [output_nodes_idx set_output_nodes_idx map].
    rewrite <- app_assoc. reflexivity.
  - destruct (Z.eqb_spec (node_idx l0) (node_idx l)) as [Heq|_].
    + exfalso. apply Hne.
      assert (H : (k0, l0) = (k, l))
        by (apply (NoDup_map_inj (fun kv => node_idx (snd kv)) n); auto).
      congruence.
    + cbn [map]. rewrite app_nil_r. reflexivity.
Qed.

Lemma indices_after_turn done cur' k l :
  Graph.indices_after n done (node_idx l) (input_nodes_idx l)
  = Graph.indices_after n (done ++ [(k, l)]) cur' [].
Proof.
  unfold Graph.indices_after. apply map_ext. intros [k0 l0]. cbn [fst snd].
  unfold Graph.index_edges. rewrite flat_map_app. cbn [flat_map filter map snd].
  rewrite !app_nil_r. reflexivity.
Qed.

Lemma index_inner_loop done cur (irest : list Z) :
  forall idone,
    (forall i, In i irest -> In i (Graph.indices n)) ->
    for_each_result
      (fun nodes input_node_idx =>
         target <- Tree.idx_dict_get (Tree.nodes_idx_dict n) input_node_idx ;;
         Ok (nodes_update nodes target
               (fun t => set_output_nodes_idx t (output_nodes_idx t ++ [cur]))))
      irest (Graph.indices_after n done cur idone)
    = Ok (Graph.indices_after n done cur (idone ++ irest)).
Proof.
  induction irest as [|i irest IH]; intros idone Hin.
  - rewrite app_nil_r. reflexivity.
  - cbn [for_each_result].
    pose proof (Hin i (or_introl eq_refl)) as Hi.
    unfold Graph.indices in Hi. apply in_map_iff in Hi.
    destruct Hi as ([k l] & Hidx & Hkl). simpl in Hidx. subst i.
    rewrite (nodes_idx_dict_get k l Hkl). cbn [Py.bind].
    rewrite (indices_after_append done cur idone k l Hkl).
    replace (idone ++ node_idx l :: irest)
      with ((idone ++ [node_idx l]) ++ irest)
      by (rewrite <- app_assoc; reflexivity).
    apply IH. intros j Hj. apply Hin. right. exact Hj.
Qed.

Lemma index_outer_loop (rest : Nodes) :
  forall done cur,
    (forall b, In b rest -> In b n) ->
    for_each_result
      (fun nodes idx =>
         key <- Tree.idx_dict_get (Tree.nodes_idx_dict n) idx ;;
         node <- nodes_get nodes key ;;
         for_each_result
           (fun nodes input_node_idx =>
              target <- Tree.idx_dict_get (Tree.nodes_idx_dict n)
                          input_node_idx ;;
              Ok (nodes_update nodes target
                    (fun t => set_output_nodes_idx t
                                (output_nodes_idx t ++ [idx]))))
           (input_nodes_idx node) nodes)
      (Graph.indices rest) (Graph.indices_after n done cur [])
    = Ok (Graph.indices_after n (done ++ rest) cur []).
Proof.
  induction rest as [|[k l] rest IH]; intros done cur Hin.
  - rewrite app_nil_r. reflexivity.
  - cbn [Graph.indices map for_each_result snd].
    pose proof (Hin (k, l) (or_introl eq_refl)) as Hkl.
    rewrite (nodes_idx_dict_get k l Hkl). cbn [Py.bind].
    unfold nodes_get at 1.
    rewrite indices_after_get, (NoDup_keys_get n k l Hkeys Hkl).
    cbn [option_map Py.bind input_nodes_idx set_output_nodes_idx].
    change (Graph.indices_after n done cur [])
      with (Graph.indices_after n done (node_idx l) []).
    rewrite index_inner_loop.
    + cbn [Py.bind app].
      rewrite (indices_after_turn done cur k l).
      replace (done ++ (k, l) :: rest) with ((done ++ [(k, l)]) ++ rest)
        by (rewrite <- app_assoc; reflexivity).
      apply IH. intros b Hb. apply Hin. right. exact Hb.
    + intros i Hi. unfold Graph.input_indices_known in Hknown.
      rewrite Forall_forall in Hknown. specialize (Hknown (k, l) Hkl).
      rewrite Forall_forall in Hknown. apply Hknown, Hi.
Qed.

(** The graph after the first loop. *)
Let indexed : Nodes := Graph.indices_after n n 0 [].

Lemma init_output_nodes_idx_exact :
  Forall (fun kv => output_nodes_idx (snd kv) = []) n ->
  Tree.init_output_nodes_idx (Tree.nodes_idx_dict n) n = Ok indexed.
Proof.
  intros Hfresh. unfold Tree.init_output_nodes_idx.
  assert (H0 : n = Graph.indices_after n [] 0 []).
  { unfold Graph.indices_after. rewrite <- (map_id n) at 1.
    apply map_ext_in. intros [k v] Hin.
    cbn [fst snd Graph.index_edges flat_map filter map app].
    rewrite Forall_forall in Hfresh. specialize (Hfresh (k, v) Hin).
    cbn in Hfresh. f_equal.
    rewrite <- (set_output_nodes_idx_same v) at 1. f_equal. exact Hfresh. }
  pose proof (index_outer_loop n [] 0 (fun b Hb => Hb)) as Hloop.
  rewrite <- H0 in Hloop. cbn [app] in Hloop.
  rewrite nodes_idx_dict_exact at 1.
  unfold dict_keys. rewrite map_map. cbn [fst]. exact Hloop.
Qed.

(** The second loop stores every list where it already is. *)
Lemma store_output_nodes_idx_exact :
  Graph.named_by_key n ->
  Tree.store_output_nodes_idx (Tree.nodes_idx_dict n) indexed = Ok indexed.
Proof.
  intros Hnamed. unfold Tree.store_output_nodes_idx.
  rewrite nodes_idx_dict_exact at 1. unfold dict_keys. rewrite map_map.
  cbn [fst].
  assert (Hall : forall rest, (forall b, In b rest -> In b n) ->
            for_each_result
              (fun nodes idx =>
                 key <- Tree.idx_dict_get (Tree.nodes_idx_dict n) idx ;;
                 node <- nodes_get nodes key ;;
                 _ <- nodes_get nodes (node_name node) ;;
                 Ok (nodes_update nodes (node_name node)
                       (fun t => set_output_nodes_idx t (output_nodes_idx node))))
              (map (fun kv => node_idx (snd kv)) rest) indexed = Ok indexed).
  { induction rest as [|[k l] rest IH]; intros Hin; [reflexivity|].
    cbn [map for_each_result snd].
    pose proof (Hin (k, l) (or_introl eq_refl)) as Hkl.
    rewrite (nodes_idx_dict_get k l Hkl). cbn [Py.bind].
    unfold nodes_get at 1. unfold indexed at 1.
    rewrite indices_after_get, (NoDup_keys_get n k l Hkeys Hkl).
    cbn [option_map Py.bind node_name set_output_nodes_idx output_nodes_idx].
    unfold Graph.named_by_key in Hnamed. rewrite Forall_forall in Hnamed.
    pose proof (Hnamed (k, l) Hkl) as Hname. cbn in Hname. rewrite Hname.
    unfold nodes_get at 1. unfold indexed at 1.
    rewrite indices_after_get, (NoDup_keys_get n k l Hkeys Hkl).
    cbn [option_map Py.bind].
    replace (nodes_update indexed k _) with indexed.
    - apply IH. intros b Hb. apply Hin. right. exact Hb.
    - unfold indexed, Graph.indices_after. rewrite nodes_update_map.
      apply map_ext_in. intros [k0 l0] Hin0. cbn [fst snd].
      destruct (String.eqb_spec k0 k) as [->|_]; [|reflexivity].
      assert (H : l0 = l).
      { pose proof (NoDup_keys_get n k l0 Hkeys Hin0) as H0.
        pose proof (NoDup_keys_get n k l Hkeys Hkl) as H1. congruence. }
      subst l0. reflexivity. }
  apply Hall. auto.
Qed.
End IndexEdges.

Lemma inputs_of_map (F : string * Layer -> Layer) (n : Nodes) key :
  (forall kv, input_nodes_name (F kv) = input_nodes_name (snd kv)) ->
  Graph.inputs_of (map (fun kv => (fst kv, F kv)) n) key = Graph.inputs_of n key.
Proof.
  intros HF. unfold Graph.inputs_of. rewrite dict_get_map_values.
  destruct (dict_get String.eqb n key) as [l|]; [|reflexivity].
  simpl. apply (HF (key, l)).
Qed.

(** The output-edge inference on a pruned graph without output edges,
    whose nodes have distinct names and distinct indices: an output name
    for each consumer, an output index for each time a consumer lists the
    node. *)
Theorem init_outputs_node_info_exact (n : Nodes) :
  NoDup (dict_keys n) -> NoDup (Graph.indices n) ->
  Graph.pruned n -> Graph.without_outputs n ->
  Tree.init_outputs_node_info n = Ok (Graph.with_outputs n).
Proof.
  intros Hkeys Hindices (Hnamed & Hnames & Hidx) Hfresh.
  unfold Graph.without_outputs in Hfresh. rewrite Forall_forall in Hfresh.
  unfold Tree.init_outputs_node_info.
  rewrite (init_output_nodes_idx_exact n Hkeys Hindices Hidx)
    by (apply Forall_forall; intros kv Hin; apply (Hfresh kv Hin)).
  cbn [Py.bind].
  rewrite (store_output_nodes_idx_exact n Hkeys Hindices Hnamed).
  cbn [Py.bind].
  assert (Hk : dict_keys (Graph.indices_after n n 0 []) = dict_keys n).
  { unfold Graph.indices_after, dict_keys. rewrite map_map. reflexivity. }
  rewrite init_output_nodes_name_exact.
  - apply f_equal. unfold Graph.with_outputs.
    unfold Graph.indices_after at 2. rewrite map_map.
    apply map_ext. intros [k v]. cbn [fst snd filter map].
    rewrite app_nil_r. apply f_equal. apply f_equal.
    unfold Graph.name_edges. rewrite Hk. apply filter_ext. intros b.
    apply f_equal. unfold Graph.indices_after. apply inputs_of_map.
    reflexivity.
  - rewrite Hk. exact Hkeys.
  - unfold Graph.input_names_known in *. rewrite Hk.
    unfold Graph.indices_after. rewrite Forall_map. cbn [snd].
    exact Hnames.
  - unfold Graph.indices_after. rewrite Forall_map. cbn [snd].
    apply Forall_forall. intros kv Hin. apply (Hfresh kv Hin).
Qed.

(** By name the output edges are the exact inverse of the input edges, and
    none is recorded twice. *)
Lemma output_names_inverse (n : Nodes) a b la lb :
  NoDup (dict_keys n) ->
  nodes_get (Graph.with_outputs n) a = Ok la ->
  nodes_get (Graph.with_outputs n) b = Ok lb ->
  (In b (output_nodes_name la) <-> In a (input_nodes_name lb))
  /\ NoDup (output_nodes_name la).
Proof.
  intros Hkeys Ha Hb. unfold nodes_get, Graph.with_outputs in Ha, Hb.
  rewrite dict_get_map_values in Ha, Hb.
  destruct (dict_get String.eqb n a) as [la0|] eqn:Ea; [|discriminate].
  destruct (dict_get String.eqb n b) as [lb0|] eqn:Eb; [|discriminate].
  cbn in Ha, Hb. injection Ha as <-. injection Hb as <-. cbn.
  unfold Graph.name_edges. split.
  - rewrite filter_In, mem_str_In. unfold Graph.inputs_of. rewrite Eb.
    split; [tauto|]. intros H. split; [|exact H].
    apply (dict_get_In_keys _ _ String.eqb string_eqb_eq). eauto.
  - apply NoDup_filter, Hkeys.
Qed.

Lemma index_edges_In (n : Nodes) i x :
  In x (Graph.index_edges n i) -> In x (Graph.indices n).
Proof.
  unfold Graph.index_edges, Graph.indices. rewrite in_flat_map.
  intros ([k l] & Hin & Hx). apply in_map_iff in Hx.
  destruct Hx as (_ & <- & _). apply (in_map (fun kv => node_idx (snd kv)) n (k, l)), Hin.
Qed.

Lemma count_occ_constant (c x : Z) (l : list Z) :
  count_occ Z.eq_dec (map (fun _ => c) l) x
  = if Z.eq_dec c x then List.length l else 0%nat.
Proof.
  induction l as [|a l IH]; simpl.
  - destruct (Z.eq_dec c x); reflexivity.
  - rewrite IH. destruct (Z.eq_dec c x); reflexivity.
Qed.

Lemma length_filter_eqb (i : Z) (l : list Z) :
  List.length (filter (Z.eqb i) l) = count_occ Z.eq_dec l i.
Proof.
  induction l as [|a l IH]; simpl; [reflexivity|].
  destruct (Z.eq_dec a i) as [Heq|Hne'];
    destruct (Z.eqb_spec i a) as [Heq'|Hne]; simpl; congruence.
Qed.

(** By index an edge is recorded once for each time the consumer lists the
    node: as many times as the node's index stands in the consumer's
    input-index list. *)
Lemma output_indices_count (n : Nodes) i k l :
  NoDup (Graph.indices n) -> In (k, l) n ->
  count_occ Z.eq_dec (Graph.index_edges n i) (node_idx l)
  = count_occ Z.eq_dec (input_nodes_idx l) i.
Proof.
  induction n as [|[k0 l0] n IH]; intros Hnd Hin; [destruct Hin|].
  cbn [Graph.indices map snd] in Hnd.
  inversion Hnd as [|? ? Hnotin Hnd']; subst.
  unfold Graph.index_edges. cbn [flat_map snd].
  rewrite count_occ_app, count_occ_constant, length_filter_eqb.
  fold (Graph.index_edges n i).
  destruct Hin as [Heq|Hin].
  - injection Heq as -> ->.
    destruct (Z.eq_dec (node_idx l) (node_idx l)) as [_|]; [|contradiction].
    replace (count_occ Z.eq_dec (Graph.index_edges n i) (node_idx l)) with 0%nat;
      [lia|].
    symmetry. apply count_occ_not_In. intros H. apply Hnotin.
    apply (index_edges_In _ _ _ H).
  - destruct (Z.eq_dec (node_idx l0) (node_idx l)) as [Heq|_].
    + exfalso. apply Hnotin. rewrite Heq.
      apply (in_map (fun kv => node_idx (snd kv)) n (k, l)), Hin.
    + rewrite (IH Hnd' Hin). reflexivity.
Qed.

(* ================================================================== *)
(** * The graph of a model *)
(* ================================================================== *)

Lemma dict_set_NoDup {K V} (eqb : K -> K -> bool)
    (eqb_eq : forall x y, eqb x y = true <-> x = y) (d : dict K V) k v :
  NoDup (dict_keys d) -> NoDup (dict_keys (dict_set eqb d k v)).
Proof.
  unfold dict_keys. induction d as [|[k0 v0] d IH]; simpl; intros Hnd.
  - constructor; [tauto|constructor].
  - inversion Hnd as [|? ? Hnotin Hnd']; subst.
    destruct (eqb k0 k) eqn:E; simpl; [exact Hnd|].
    constructor; [|apply IH, Hnd'].
    intros H. apply (dict_keys_set _ _ eqb eqb_eq) in H.
    destruct H as [->|H]; [|contradiction].
    assert (eqb k k = true) by (apply eqb_eq; reflexivity). congruence.
Qed.

Lemma NoDup_map_transfer {A B C} (f : A -> B) (g : A -> C) (l : list A) :
  NoDup (map f l) ->
  (forall x y, In x l -> In y l -> g x = g y -> f x = f y) ->
  NoDup (map g l).
Proof.
  induction l as [|a l IH]; simpl; intros Hnd Hfg; [constructor|].
  inversion Hnd as [|? ? Hnotin Hnd']; subst. constructor.
  - intros H. apply in_map_iff in H. destruct H as (y & Hy & Hin).
    apply Hnotin. rewrite (Hfg a y (or_introl eq_refl) (or_intror Hin) (eq_sym Hy)).
    apply in_map, Hin.
  - apply IH; [exact Hnd'|]. intros x y Hx Hy. apply Hfg; right; assumption.
Qed.

(** What the parse of the operators leaves: distinct names, no output
    edge, and every node named after the tensor of its index. *)
Lemma parse_graph_fresh ops interp nodes :
  Tree.parse_graph ops interp = Ok nodes ->
  NoDup (dict_keys nodes)
  /\ Graph.without_outputs nodes
  /\ (Graph.echoes_index interp ->
      Forall (fun kv => exists d,
                get_tensor_details interp (node_idx (snd kv)) = Ok d
                /\ fst kv = tflite.name d) nodes).
Proof.
  unfold Tree.parse_graph.
  apply (for_each_result_keeps
           (fun nodes =>
              NoDup (dict_keys nodes)
              /\ Graph.without_outputs nodes
              /\ (Graph.echoes_index interp ->
                  Forall (fun kv => exists d,
                            get_tensor_details interp (node_idx (snd kv)) = Ok d
                            /\ fst kv = tflite.name d) nodes))).
  - intros st [o ty] st' _ (Hnd & Hfresh & Hecho). cbn [fst snd].
    destruct (Tree.node_generator o ty interp) as [node|e] eqn:E;
      cbn [Py.bind]; [|discriminate].
    intros H. injection H as <-.
    assert (Hinit : exists c, Layer_init c (Some o) ty interp = Ok node).
    { unfold Tree.node_generator in E. destruct ty; try discriminate; eauto. }
    destruct Hinit as (c & Hinit).
    destruct (Layer_init_fields _ _ _ _ _ Hinit)
      as (_ & _ & _ & Hoi & Hon & Hop).
    destruct (Hop o eq_refl) as (_ & d & Hd & Hidx & Hname).
    split; [apply (dict_set_NoDup _ string_eqb_eq), Hnd|]. split.
    + unfold Graph.without_outputs in *. rewrite Forall_forall in Hfresh.
      apply Forall_forall. intros kv Hin.
      apply (In_dict_set _ _ String.eqb string_eqb_eq) in Hin.
      destruct Hin as [->|Hin]; [cbn; auto|apply (Hfresh kv Hin)].
    + intros He. specialize (Hecho He). rewrite Forall_forall in Hecho.
      apply Forall_forall. intros kv Hin.
      apply (In_dict_set _ _ String.eqb string_eqb_eq) in Hin.
      destruct Hin as [->|Hin]; [|apply (Hecho kv Hin)].
      cbn [fst snd]. exists d. rewrite Hidx, (He _ _ Hd). auto.
  - split; [constructor|]. split; [constructor|]. intros _. constructor.
Qed.

Lemma eliminate_side_input_fresh nodes :
  Graph.without_outputs nodes ->
  Graph.without_outputs (Tree.eliminate_side_input nodes).
Proof.
  unfold Graph.without_outputs. rewrite !Forall_forall.
  intros H [k l'] Hin. apply eliminate_side_input_In in Hin.
  destruct Hin as (l & Hl & ->). apply (H (k, l) Hl).
Qed.

Lemma parse_graph_indices ops interp nodes :
  Graph.echoes_index interp ->
  Tree.parse_graph ops interp = Ok nodes ->
  NoDup (Graph.indices nodes).
Proof.
  intros Hecho Hparse.
  destruct (parse_graph_fresh _ _ _ Hparse) as (Hnd & _ & Hd).
  specialize (Hd Hecho). rewrite Forall_forall in Hd.
  unfold Graph.indices. apply (NoDup_map_transfer fst); [exact Hnd|].
  intros x y Hx Hy Hxy.
  destruct (Hd x Hx) as (dx & Hdx & ->).
  destruct (Hd y Hy) as (dy & Hdy & ->). congruence.
Qed.

Section GraphOfModel.
Context {ext : ExternalLayers}.

(** The graph that [main] walks, for a model whose operators parse: the
    pruned nodes with the inverse of their input edges. *)
Theorem Tree_init_exact (model : Model) (nodes : Nodes) :
  Graph.echoes_index (interpreter model) ->
  Tree.parse_graph (operators model) (interpreter model) = Ok nodes ->
  Tree.init model false
  = (Ok (Graph.with_outputs (Tree.eliminate_side_input nodes)), []).
Proof.
  intros Hecho Hparse. unfold Tree.init. rewrite Hparse, bindM_lift_Ok.
  destruct (parse_graph_named _ _ _ Hparse) as (Hnamed & _).
  destruct (parse_graph_fresh _ _ _ Hparse) as (Hnd & Hfresh & _).
  rewrite init_outputs_node_info_exact.
  - rewrite bindM_lift_Ok. reflexivity.
  - rewrite eliminate_side_input_keys. exact Hnd.
  - rewrite eliminate_side_input_indices.
    apply (parse_graph_indices _ _ _ Hecho Hparse).
  - apply eliminate_side_input_pruned, Hnamed.
  - apply eliminate_side_input_fresh, Hfresh.
Qed.

(** X10. In the graph of a model, by name the output edges are the exact
    inverse of the input edges and none is listed twice; by index an
    output edge is listed as many times as the consumer lists the node
    among its inputs. *)
Lemma built_graph_output_edges (model : Model) (graph : Nodes) a b la lb :
  Graph.echoes_index (interpreter model) ->
  outcome (Tree.init model false) = Ok graph ->
  nodes_get graph a = Ok la ->
  nodes_get graph b = Ok lb ->
  (In b (output_nodes_name la) <-> In a (input_nodes_name lb))
  /\ NoDup (output_nodes_name la)
  /\ count_occ Z.eq_dec (output_nodes_idx la) (node_idx lb)
     = count_occ Z.eq_dec (input_nodes_idx lb) (node_idx la).
Proof.
  intros Hecho Hinit Ha Hb.
  destruct (Tree.parse_graph (operators model) (interpreter model))
    as [nodes|e] eqn:Hparse.
  2:{ rewrite (Tree_init_not_parsed model e false Hparse) in Hinit.
      discriminate. }
  rewrite (Tree_init_exact model nodes Hecho Hparse) in Hinit.
  cbn in Hinit. injection Hinit as <-.
  destruct (parse_graph_fresh _ _ _ Hparse) as (Hnd & _ & _).
  pose proof (parse_graph_indices _ _ _ Hecho Hparse) as Hidx.
  rewrite <- eliminate_side_input_keys in Hnd.
  rewrite <- eliminate_side_input_indices in Hidx.
  set (n := Tree.eliminate_side_input nodes) in *.
  destruct (output_names_inverse n a b la lb Hnd Ha Hb) as (Hiff & Hnodup).
  split; [exact Hiff|]. split; [exact Hnodup|].
  unfold nodes_get, Graph.with_outputs in Ha, Hb.
  rewrite dict_get_map_values in Ha, Hb.
  destruct (dict_get String.eqb n a) as [la0|] eqn:Ea; [|discriminate].
  destruct (dict_get String.eqb n b) as [lb0|] eqn:Eb; [|discriminate].
  cbn in Ha, Hb. injection Ha as <-. injection Hb as <-. cbn.
  apply (output_indices_count n (node_idx la0) b lb0 Hidx).
  apply (dict_get_In _ _ String.eqb string_eqb_eq _ _ _ Eb).
Qed.
End GraphOfModel.

(* ================================================================== *)
(** * Side-input elimination *)
(* ================================================================== *)

(** C2, as stated: the constant tensor 2 of [Samples.relu_prelu] bears the
    name of a node.  The index filter drops it and the name filter keeps
    it, the lists of node "prelu" have lengths 1 and 2, and the graph is
    built all the same, with or without de-fusion. *)
Lemma divergent_lists_do_not_fail :
  exists graph prelu,
    Tree.init (ext := Samples.layers) Samples.relu_prelu false = (Ok graph, [])
    /\ Tree.init (ext := Samples.layers) Samples.relu_prelu true = (Ok graph, [])
    /\ nodes_get graph "prelu" = Ok prelu
    /\ input_nodes_idx prelu = [1]
    /\ input_nodes_name prelu = ["relu"%string; "relu"%string]
    /\ List.length (input_nodes_idx prelu)
       <> List.length (input_nodes_name prelu).
Proof.
  eexists. eexists.
  split; [vm_compute; reflexivity|].
  split; [vm_compute; reflexivity|].
  split; [vm_compute; reflexivity|].
  split; [reflexivity|]. split; [reflexivity|].
  simpl. discriminate.
Qed.

Section SideInputs.
Context {ext : ExternalLayers}.

(** C2, amended: the side-input elimination filters, for every node, the
    input-index list by the indices of the nodes and the input-name list
    by the names of the nodes, each on its own; the two results are not
    compared, and the construction of the graph goes on with them
    without raising, whatever their lengths. *)
Theorem side_inputs_filtered_without_check (model : Model) (nodes : Nodes) :
  Tree.parse_graph (operators model) (interpreter model) = Ok nodes ->
  (forall key l',
     In (key, l') (Tree.eliminate_side_input nodes) <->
     exists l, In (key, l) nodes
       /\ l' = set_input_nodes_name
                 (set_input_nodes_idx l
                    (filter (fun i => mem_int i (Graph.indices nodes))
                            (input_nodes_idx l)))
                 (filter (fun s => mem_str s (dict_keys nodes))
                         (input_nodes_name l)))
  /\ exists graph,
       Tree.init model false = (Ok graph, [])
       /\ Graph.skeleton graph
          = Graph.skeleton (Tree.eliminate_side_input nodes).
Proof.
  intros Hparse. split.
  - intros key l'. apply eliminate_side_input_In.
  - apply Tree_init_parsed, Hparse.
Qed.
End SideInputs.

Lemma side_inputs_filtered_without_check_witness :
  exists nodes graph,
    Tree.parse_graph (operators Samples.relu_prelu)
      (interpreter Samples.relu_prelu) = Ok nodes
    /\ Tree.init (ext := Samples.layers) Samples.relu_prelu false = (Ok graph, [])
    /\ Graph.skeleton graph = Graph.skeleton (Tree.eliminate_side_input nodes).
Proof.
  eexists.
  assert (H : Tree.parse_graph (operators Samples.relu_prelu)
                (interpreter Samples.relu_prelu) = Ok _)
    by (vm_compute; reflexivity).
  destruct (proj2 (@side_inputs_filtered_without_check Samples.layers
                     Samples.relu_prelu _ H)) as (graph & Hinit & Hs).
  exists graph. split; [exact H|]. split; [exact Hinit|exact Hs].
Defined.

(* ================================================================== *)
(** * Output-edge inference: an edge listed twice *)
(* ================================================================== *)

(** C3 on [Samples.relu_squared], where the multiplication lists the ReLU
    twice: the index loop appends without a membership test and records
    the edge twice, the name loop records it once. *)
Theorem output_index_edge_recorded_twice :
  exists graph relu square,
    Tree.init (ext := Samples.layers) Samples.relu_squared false = (Ok graph, [])
    /\ nodes_get graph "relu" = Ok relu
    /\ nodes_get graph "square" = Ok square
    /\ input_nodes_idx square = [node_idx relu; node_idx relu]
    /\ input_nodes_name square = [node_name relu; node_name relu]
    /\ output_nodes_idx relu = [node_idx square; node_idx square]
    /\ output_nodes_name relu = [node_name square].
Proof.
  eexists. eexists. eexists.
  split; [vm_compute; reflexivity|].
  split; [vm_compute; reflexivity|].
  split; [vm_compute; reflexivity|].
  repeat split.
Qed.

(* ================================================================== *)
(** * The pipeline driver *)
(* ================================================================== *)

Lemma for_each_trace {A S} (P : event -> Prop) (body : S -> A -> M S)
    (l : list A) :
  (forall st a, In a l -> Forall P (trace (body st a))) ->
  forall st, Forall P (trace (for_each body l st)).
Proof.
  induction l as [|a l IH]; intros Hbody st; simpl.
  - constructor.
  - pose proof (Hbody st a (or_introl eq_refl)) as Ha.
    destruct (body st a) as [[st1|e] t] eqn:E; simpl in Ha.
    + rewrite bindM_Ok. simpl. apply Forall_app. split; [exact Ha|].
      apply IH. intros st2 b Hb. apply Hbody. right. exact Hb.
    + rewrite bindM_Raise. exact Ha.
Qed.

Lemma for_each_keeps {A S} (I : S -> Prop) (body : S -> A -> M S)
    (l : list A) :
  (forall st a st', In a l -> I st -> outcome (body st a) = Ok st' -> I st') ->
  forall st st', I st -> outcome (for_each body l st) = Ok st' -> I st'.
Proof.
  induction l as [|a l IH]; intros Hbody st st' Hst; simpl.
  - intros H. injection H as <-. exact Hst.
  - destruct (body st a) as [[st1|e] t] eqn:E.
    + rewrite bindM_Ok. simpl. apply IH.
      * intros st2 b st3 Hb. apply Hbody. right. exact Hb.
      * apply (Hbody st a st1 (or_introl eq_refl) Hst). rewrite E. reflexivity.
    + rewrite bindM_Raise. discriminate.
Qed.

Section DriverFacts.
Context {ext : ExternalLayers}.

(** The one effect of a turn of the loop is the call of the lowering
    routine, if the turn gets that far. *)
Lemma lower_node_trace interp flag model_input_name st key layer :
  trace (tflite2onnx.lower_node interp flag model_input_name st (key, layer))
  = match tflite2onnx.prev_node_name
            (tflite2onnx.op_name__sub_op_name__table st) model_input_name layer
    with
    | Ok prev =>
        [Lower layer [prev]
           (if tflite2onnx.takes_table (op_type layer)
            then Some (tflite2onnx.op_name__sub_op_name__table st)
            else None)]
    | Raise _ => []
    end.
Proof.
  unfold tflite2onnx.lower_node. cbn [fst snd].
  destruct (tflite2onnx.prev_node_name _ model_input_name layer)
    as [prev|e]; [|reflexivity].
  rewrite bindM_lift_Ok. unfold emit. rewrite bindM_Ok. cbn [trace snd app].
  f_equal.
  destruct (generate interp layer [prev] _) as [r|e]; [|reflexivity].
  rewrite bindM_lift_Ok.
  destruct (utils_onnx.get_output_node_info_by_name_if_exist key interp);
    [|reflexivity].
  destruct (last_item _) as [end_node|e]; [|reflexivity].
  rewrite bindM_lift_Ok. destruct flag; reflexivity.
Qed.

Lemma Tree_init_false_trace model :
  trace (Tree.init model false) = [].
Proof.
  destruct (Tree.parse_graph (operators model) (interpreter model))
    as [nodes|e] eqn:E.
  - destruct (Tree_init_parsed model nodes E) as (g & -> & _). reflexivity.
  - rewrite (Tree_init_not_parsed model e false E). reflexivity.
Qed.

(** Without de-fusion every node of the graph was built from an operator
    by [Tree.__node_generator]. *)
Lemma Tree_init_false_original model graph :
  outcome (Tree.init model false) = Ok graph ->
  Forall (fun kv => Spec.synthesized (snd kv) = false /\ op (snd kv) <> None)
         graph.
Proof.
  destruct (Tree.parse_graph (operators model) (interpreter model))
    as [nodes|e] eqn:E.
  - destruct (Tree_init_parsed model nodes E) as (g & -> & Hs). simpl.
    intros H. injection H as <-.
    destruct (parse_graph_named _ _ _ E) as (_ & Horig).
    rewrite Forall_forall in Horig. apply Forall_forall.
    intros [k l] Hin. simpl.
    destruct (skeleton_In _ _ _ _ Hs Hin) as (l0 & Hl0 & Hc).
    apply eliminate_side_input_In in Hl0. destruct Hl0 as (l1 & Hl1 & ->).
    apply clear_outputs_fields in Hc. destruct Hc as (Hc1 & Hc2 & _).
    simpl in Hc1, Hc2. specialize (Horig (k, l1) Hl1). simpl in Horig.
    unfold Spec.synthesized in *. rewrite <- Hc1, <- Hc2. exact Horig.
  - rewrite (Tree_init_not_parsed model e false E). discriminate.
Qed.

(** The loop performs lowering calls and nothing else. *)
Lemma loop_only_lowers interp flag model_input_name graph st :
  Forall (fun ev => match ev with Lower _ _ _ => True | _ => False end)
         (trace (for_each (tflite2onnx.lower_node interp flag model_input_name)
                   graph st)).
Proof.
  apply for_each_trace. intros st' [key layer] _. rewrite lower_node_trace.
  destruct (tflite2onnx.prev_node_name _ _ layer); repeat constructor.
Qed.

Lemma trace_bindM {A B} (P : event -> Prop) (c : M A) (k : A -> M B) :
  Forall P (trace c) ->
  (forall a, outcome c = Ok a -> Forall P (trace (k a))) ->
  Forall P (trace (bindM c k)).
Proof.
  destruct c as [[a|e] t]; simpl; intros Hc Hk.
  - rewrite bindM_Ok. simpl. apply Forall_app. auto.
  - exact Hc.
Qed.

(** [main] either raises before the loop, with no effect, or runs the
    loop over the graph built without de-fusion, from the lists and the
    table of its first lines, and saves what the loop has gathered. *)
Lemma main_cases model flag :
  (exists e, tflite2onnx.main model flag = (Raise e, []))
  \/ exists d rest graph st0,
       get_input_details (interpreter model) = d :: rest
       /\ Tree.init model false = (Ok graph, [])
       /\ tflite2onnx.onnx_node_list st0
          = (if flag
             then [tflite2onnx.build_head_transpose_node_for_channel_last_2_channel_first
                     (tflite.name d)]
             else [])
       /\ tflite2onnx.output_tensor_value_info st0 = []
       /\ tflite2onnx.op_name__sub_op_name__table st0
          = [(tflite.name d,
              [tflite.name d;
               if flag then ("transpose_node_input_" ++ tflite.name d)%string
               else tflite.name d])]
       /\ tflite2onnx.main model flag
          = (st <~ for_each
                     (tflite2onnx.lower_node (interpreter model) flag
                        (tflite.name d))
                     graph st0 ;;
             emit (Save
               {| onnx.node := tflite2onnx.onnx_node_list st;
                  onnx.graph_name := "cnn_test";
                  onnx.graph_input :=
                    utils_onnx.make_kneron_valid_onnx_input
                      (onnx.make_tensor_value_info (tflite.name d) onnx.FLOAT
                         (if flag then Some (shape d)
                          else utils.tflite2onnx_shape_map (shape d)))
                      (tflite2onnx.onnx_weight_node_list st);
                  onnx.graph_output := tflite2onnx.output_tensor_value_info st;
                  onnx.initializer := tflite2onnx.onnx_weight_node_list st;
                  onnx.value_info :=
                    tflite2onnx.inner_node_shape_value_info st |})).
Proof.
  unfold tflite2onnx.main. cbv zeta.
  destruct (get_input_details (interpreter model)) as [|d rest] eqn:Ein.
  - left. exists IndexError. reflexivity.
  - unfold Py.index. cbn [nth_error]. rewrite bindM_lift_Ok.
    destruct (Tree.parse_graph (operators model) (interpreter model))
      as [nodes|e] eqn:E.
    + right. destruct (Tree_init_parsed model nodes E) as (graph & Hg & _).
      exists d, rest, graph.
      exists {| tflite2onnx.op_name__sub_op_name__table :=
                  [(tflite.name d,
                    [tflite.name d;
                     if flag
                     then ("transpose_node_input_" ++ tflite.name d)%string
                     else tflite.name d])];
                tflite2onnx.onnx_weight_node_list := [];
                tflite2onnx.output_tensor_value_info := [];
                tflite2onnx.onnx_node_list :=
                  if flag
                  then [tflite2onnx.build_head_transpose_node_for_channel_last_2_channel_first
                          (tflite.name d)]
                  else [];
                tflite2onnx.inner_node_shape_value_info := [] |}.
      split; [reflexivity|]. split; [exact Hg|].
      rewrite Hg, bindM_Ok_nil.
      repeat split; destruct flag; reflexivity.
    + left. exists e. rewrite (Tree_init_not_parsed model e false E).
      reflexivity.
Qed.

(** C9: whatever the model and the boundary flag, [main] builds the
    graph with de-fusion disabled: no warning of the de-fuser is
    recorded, and every layer whose lowering routine is called was built
    from an operator of the model, none is a synthesized [_Fused]
    activation node. *)
Theorem main_never_defuses (model : Model)
    (add_transpose_for_channel_last_first_issue : bool) :
  Forall (fun ev =>
            match ev with
            | Lower layer _ _ =>
                Spec.synthesized layer = false /\ op layer <> None
            | Warn _ => False
            | Save _ => True
            end)
         (trace (tflite2onnx.main model
                   add_transpose_for_channel_last_first_issue)).
Proof.
  destruct (main_cases model add_transpose_for_channel_last_first_issue)
    as [(e & ->)|(d & rest & graph & st0 & _ & Hg & _ & _ & _ & ->)].
  - constructor.
  - apply trace_bindM.
    + apply for_each_trace. intros st [key layer] Hin.
      rewrite lower_node_trace.
      destruct (tflite2onnx.prev_node_name _ _ layer); constructor;
        [|constructor].
      assert (Ho : outcome (Tree.init model false) = Ok graph)
        by (rewrite Hg; reflexivity).
      pose proof (Tree_init_false_original model graph Ho) as Horig.
      rewrite Forall_forall in Horig. apply (Horig (key, layer) Hin).
    + intros st _. repeat constructor.
Qed.
End DriverFacts.

(** With de-fusion enabled the graph of [Samples.conv_relu] does hold a
    synthesized node. *)
Example Tree_init_true_synthesizes :
  exists graph fused,
    Tree.init (ext := Samples.layers) Samples.conv_relu true = (Ok graph, [])
    /\ nodes_get graph "conv_Fused" = Ok fused
    /\ Spec.synthesized fused = true.
Proof.
  eexists. eexists. split; [vm_compute; reflexivity|].
  split; [vm_compute; reflexivity|reflexivity].
Qed.

(* ================================================================== *)
(** * The predecessor name handed to a lowering routine *)
(* ================================================================== *)

Lemma last_item_app {A} (l : list A) (a : A) : last_item (l ++ [a]) = Ok a.
Proof. unfold last_item. rewrite rev_app_distr. reflexivity. Qed.

Lemma last_item_In {A} (l : list A) (a : A) : last_item l = Ok a -> In a l.
Proof.
  unfold last_item. destruct (rev l) as [|b r] eqn:E; [discriminate|].
  intros H. injection H as ->. apply in_rev. rewrite E. left. reflexivity.
Qed.

Section PredecessorName.
Context {ext : ExternalLayers}.
Variables (interp : Interpreter) (flag : bool) (model_input_name : string).

(** An add, a mul or a concatenation gets the same single name, and the
    table. *)
Lemma merging_kinds_get_the_table st key layer prev :
  tflite2onnx.takes_table (op_type layer) = true ->
  tflite2onnx.prev_node_name (tflite2onnx.op_name__sub_op_name__table st)
    model_input_name layer = Ok prev ->
  trace (tflite2onnx.lower_node interp flag model_input_name st (key, layer))
  = [Lower layer [prev] (Some (tflite2onnx.op_name__sub_op_name__table st))].
Proof.
  intros Hkind Hprev. rewrite lower_node_trace, Hprev, Hkind. reflexivity.
Qed.

(** A predecessor that was lowered to no node at all stops the loop
    before the call. *)
Lemma predecessor_without_sub_nodes st key layer :
  dict_get String.eqb (tflite2onnx.op_name__sub_op_name__table st)
    match input_nodes_name layer with
    | first :: _ => first
    | [] => model_input_name
    end = Some [] ->
  tflite2onnx.lower_node interp flag model_input_name st (key, layer)
  = (Raise IndexError, []).
Proof.
  intros H. unfold tflite2onnx.lower_node, tflite2onnx.prev_node_name.
  cbn [fst snd]. rewrite H. reflexivity.
Qed.
End PredecessorName.

(** Over a whole conversion: every lowering call carries one name, and a
    table only for the three merging kinds. *)
Lemma main_lowering_calls {ext : ExternalLayers} model flag :
  Forall (fun ev =>
            match ev with
            | Lower layer prevs table =>
                List.length prevs = 1%nat
                /\ (tflite2onnx.takes_table (op_type layer) = false ->
                    table = None)
            | _ => True
            end)
         (trace (tflite2onnx.main model flag)).
Proof.
  destruct (main_cases model flag)
    as [(e & ->)|(d & rest & graph & st0 & _ & _ & _ & _ & _ & ->)].
  - constructor.
  - apply trace_bindM.
    + apply for_each_trace. intros st [key layer] _. rewrite lower_node_trace.
      destruct (tflite2onnx.prev_node_name _ _ layer); constructor;
        [|constructor].
      split; [reflexivity|]. intros ->. reflexivity.
    + intros st _. repeat constructor.
Qed.

(* ================================================================== *)
(** * The boundaries without layout conversion *)
(* ================================================================== *)

Lemma Forall_update_last {A} (P : A -> Prop) (p : A -> bool) (f : A -> A)
    (l : list A) :
  Forall P l -> (forall a, In a l -> P (f a)) ->
  Forall P (tflite2onnx.update_last p f l).
Proof.
  induction l as [|a l IH]; intros Hl Hf; simpl; [constructor|].
  inversion Hl as [|? ? Ha Hl']; subst.
  destruct (p a && negb (existsb p l)).
  - constructor; [apply Hf; left; reflexivity|exact Hl'].
  - constructor; [exact Ha|]. apply IH; [exact Hl'|].
    intros b Hb. apply Hf. right. exact Hb.
Qed.

(** C7, as stated: with the boundary conversion disabled, the input and the
    output of [Samples.relu_relu6], of source shape [1,7,7,3], are declared
    with the permuted shape [1,3,7,7]. *)
Lemma release_mode_shapes_are_not_channel_last :
  exists g input output,
    tflite2onnx.main (ext := Samples.layers) Samples.relu_relu6 false
    = (Ok tt, [Lower input ["input"%string] None;
               Lower output ["relu"%string] None; Save g])
    /\ map shape (get_input_details (interpreter Samples.relu_relu6))
       = [[1; 7; 7; 3]]
    /\ map shape (get_output_details (interpreter Samples.relu_relu6))
       = [[1; 7; 7; 3]]
    /\ map onnx.vi_shape (onnx.graph_input g) = [Some [1; 3; 7; 7]]
    /\ map onnx.vi_shape (onnx.graph_output g) = [Some [1; 3; 7; 7]]
    /\ map onnx.op_type (onnx.node g) = ["Relu"%string; "Clip"%string].
Proof.
  eexists. eexists. eexists.
  split; [vm_compute; reflexivity|].
  repeat split.
Qed.

Section ReleaseMode.
Context {ext : ExternalLayers}.
Variable model : Model.

Let interp := interpreter model.

(** The shape declared for an output: the remapped shape of one of the
    model's outputs. *)
Let declared_output (vi : onnx.ValueInfoProto) : Prop :=
  exists info,
    In info (get_output_details interp)
    /\ onnx.vi_shape vi = utils.tflite2onnx_shape_map (shape info).

Section NodesFromLowering.
Variable P : onnx.NodeProto -> Prop.
Hypothesis P_output : forall n out, P n -> P (onnx.set_output n out).
Hypothesis P_lowered :
  forall layer prevs table r,
    generate interp layer prevs table = Ok r -> Forall P (fst (fst r)).

Let inv (st : tflite2onnx.State) : Prop :=
  Forall P (tflite2onnx.onnx_node_list st)
  /\ Forall declared_output (tflite2onnx.output_tensor_value_info st).

Lemma lower_node_release_keeps model_input_name st entry st' :
  inv st ->
  outcome (tflite2onnx.lower_node interp false model_input_name st entry)
  = Ok st' ->
  inv st'.
Proof.
  intros (Hn & Ho). unfold tflite2onnx.lower_node. cbn [fst snd].
  destruct (tflite2onnx.prev_node_name _ model_input_name (snd entry))
    as [prev|e]; [|discriminate].
  rewrite bindM_lift_Ok. unfold emit. rewrite bindM_Ok. cbn [outcome fst].
  destruct (generate interp (snd entry) [prev] _) as [r|e] eqn:Egen;
    [|discriminate].
  rewrite bindM_lift_Ok. apply P_lowered in Egen.
  destruct (utils_onnx.get_output_node_info_by_name_if_exist (fst entry) interp)
    as [info|] eqn:Einfo.
  - destruct (last_item _) as [end_node|e] eqn:Elast; [|discriminate].
    rewrite bindM_lift_Ok. cbn [outcome fst ret].
    intros H. injection H as <-. split; cbn.
    + apply Forall_app. split; [exact Hn|].
      apply Forall_update_last; [exact Egen|].
      intros _ _. apply P_output.
      apply last_item_In, filter_In in Elast.
      rewrite Forall_forall in Egen. apply Egen, Elast.
    + apply Forall_app. split; [exact Ho|]. constructor; [|constructor].
      exists info. split; [|reflexivity].
      unfold utils_onnx.get_output_node_info_by_name_if_exist in Einfo.
      apply find_some in Einfo. apply Einfo.
  - cbn [outcome fst ret]. intros H. injection H as <-. split; cbn.
    + apply Forall_app. split; [exact Hn|exact Egen].
    + rewrite app_nil_r. exact Ho.
Qed.
End NodesFromLowering.

End ReleaseMode.

(* ================================================================== *)
(** * De-fusion: the rewiring by name *)
(* ================================================================== *)

Lemma remove_each_of_itself (l : list string) :
  for_each_result (fun l r => list_remove r l) l l = Ok [].
Proof.
  induction l as [|a l IH]; [reflexivity|].
  simpl. unfold list_remove at 1. simpl. rewrite String.eqb_refl. simpl.
  exact IH.
Qed.

Lemma remove_first_length x l rest :
  remove_first x l = Some rest -> List.length l = S (List.length rest).
Proof.
  revert rest. induction l as [|y l IH]; intros rest; simpl; [discriminate|].
  destruct (String.eqb y x).
  - intros H. injection H as ->. reflexivity.
  - destruct (remove_first x l) as [r|]; simpl; [|discriminate].
    intros H. injection H as <-. simpl. rewrite (IH r eq_refl). reflexivity.
Qed.

Lemma clear_names_fields l l' :
  Graph.clear_names l' = Graph.clear_names l ->
  cls l' = cls l /\ op l' = op l /\ op_type l' = op_type l
  /\ node_idx l' = node_idx l /\ node_name l' = node_name l
  /\ input_nodes_idx l' = input_nodes_idx l
  /\ output_nodes_idx l' = output_nodes_idx l.
Proof.
  intros H. unfold Graph.clear_names in H.
  repeat split;
    [apply (f_equal cls) in H | apply (f_equal op) in H
     | apply (f_equal op_type) in H | apply (f_equal node_idx) in H
     | apply (f_equal node_name) in H | apply (f_equal input_nodes_idx) in H
     | apply (f_equal output_nodes_idx) in H]; exact H.
Qed.

Lemma clear_input_names_clear_names l l' :
  Graph.clear_input_names l' = Graph.clear_input_names l ->
  Graph.clear_names l' = Graph.clear_names l.
Proof.
  intros H.
  apply (f_equal (fun x => set_input_nodes_name (set_output_nodes_name x []) []))
    in H.
  exact H.
Qed.

Section Consumers.
(** The loop [# modify output node]: [removed] is the name of the node
    that is split, [added] the name of its new activation node. *)
Variables removed added : string.

Let body (nodes : Nodes) (output_node_name : string) : result Nodes :=
  output_node <- nodes_get nodes output_node_name ;;
  ins <- list_remove removed (input_nodes_name output_node) ;;
  Ok (nodes_update nodes output_node_name
        (fun t => set_input_nodes_name t (ins ++ [added]))).

Lemma consumer_step nodes m nodes1 :
  body nodes m = Ok nodes1 ->
  exists M rest,
    dict_get String.eqb nodes m = Some M
    /\ remove_first removed (input_nodes_name M) = Some rest
    /\ forall k,
         dict_get String.eqb nodes1 k
         = option_map
             (fun l => if String.eqb k m
                       then set_input_nodes_name l (rest ++ [added]) else l)
             (dict_get String.eqb nodes k).
Proof.
  unfold body, nodes_get, list_remove.
  destruct (dict_get String.eqb nodes m) as [M|] eqn:EM; simpl; [|discriminate].
  destruct (remove_first removed (input_nodes_name M)) as [rest|] eqn:ER;
    simpl; [|discriminate].
  intros H. injection H as <-. exists M, rest.
  split; [reflexivity|]. split; [exact ER|].
  intros k. apply dict_get_nodes_update.
Qed.

Lemma consumers_loop (ms : list string) :
  forall nodes nodes',
    for_each_result body ms nodes = Ok nodes' ->
    (forall k, ~ In k ms ->
       dict_get String.eqb nodes' k = dict_get String.eqb nodes k)
    /\ (NoDup ms -> forall m, In m ms ->
          exists M rest,
            dict_get String.eqb nodes m = Some M
            /\ remove_first removed (input_nodes_name M) = Some rest
            /\ dict_get String.eqb nodes' m
               = Some (set_input_nodes_name M (rest ++ [added])))
    /\ (forall k l, dict_get String.eqb nodes k = Some l ->
          exists l', dict_get String.eqb nodes' k = Some l'
                     /\ Graph.clear_input_names l' = Graph.clear_input_names l).
Proof.
  induction ms as [|m ms IH]; intros nodes nodes'; simpl.
  - intros H. injection H as <-. repeat split.
    + intros _ m [].
    + intros k l Hk. exists l. auto.
  - destruct (body nodes m) as [nodes1|e] eqn:Estep; simpl; [|discriminate].
    intros Hloop.
    destruct (consumer_step _ _ _ Estep) as (M & rest & HM & Hrest & Hget).
    destruct (IH _ _ Hloop) as (IHa & IHb & IHc).
    repeat split.
    + intros k Hk. rewrite IHa by tauto. rewrite Hget.
      destruct (String.eqb_spec k m) as [->|Hne]; [tauto|].
      destruct (dict_get String.eqb nodes k); reflexivity.
    + intros Hnd m0 Hm0. inversion Hnd as [|? ? Hnotin Hnd']; subst.
      destruct (String.eqb_spec m0 m) as [->|Hne].
      * exists M, rest. split; [exact HM|]. split; [exact Hrest|].
        rewrite IHa by exact Hnotin. rewrite Hget, HM. simpl.
        rewrite String.eqb_refl. reflexivity.
      * destruct Hm0 as [Heq|Hm0]; [congruence|].
        destruct (IHb Hnd' m0 Hm0) as (M0 & rest0 & HM0 & Hrest0 & Hfin).
        rewrite Hget in HM0.
        destruct (dict_get String.eqb nodes m0) as [M0'|] eqn:E0;
          simpl in HM0; [|discriminate].
        destruct (String.eqb_spec m0 m) as [|_]; [contradiction|].
        injection HM0 as ->. exists M0, rest0. auto.
    + intros k l Hk.
      assert (H1 : exists l1, dict_get String.eqb nodes1 k = Some l1
                              /\ Graph.clear_input_names l1 = Graph.clear_input_names l).
      { rewrite Hget, Hk. simpl. eexists. split; [reflexivity|].
        destruct (String.eqb k m); reflexivity. }
      destruct H1 as (l1 & Hl1 & Hc1).
      destruct (IHc k l1 Hl1) as (l' & Hl' & Hc').
      exists l'. split; [exact Hl'|congruence].
Qed.
End Consumers.

Section Rewire.
Context {ext : ExternalLayers}.

(** What [rewire] returns, read off its three steps. *)
Lemma rewire_steps nodes key node f nodes' fused :
  Tree.rewire nodes key node f = Ok (nodes', fused) ->
  fused = set_output_nodes_name
            (set_input_nodes_name (set_node_idx f (-1)) [node_name node])
            (output_nodes_name node)
  /\ for_each_result
       (fun nodes output_node_name =>
          output_node <- nodes_get nodes output_node_name ;;
          ins <- list_remove (node_name node) (input_nodes_name output_node) ;;
          Ok (nodes_update nodes output_node_name
                (fun t => set_input_nodes_name t (ins ++ [node_name f]))))
       (output_nodes_name node)
       (nodes_update nodes key
          (fun t => set_output_nodes_name t [node_name f]))
     = Ok nodes'.
Proof.
  unfold Tree.rewire. cbv zeta. rewrite remove_each_of_itself.
  cbn [Py.bind app node_name set_node_idx].
  destruct (for_each_result _ (output_nodes_name node) _) as [n|e];
    simpl; [|discriminate].
  intros H. injection H as <- <-. split; reflexivity.
Qed.

Lemma rewire_frame nodes key node f nodes' fused :
  Tree.rewire nodes key node f = Ok (nodes', fused) ->
  forall k l,
    nodes_get nodes k = Ok l ->
    exists l',
      nodes_get nodes' k = Ok l'
      /\ Graph.clear_names l' = Graph.clear_names l
      /\ (k <> key -> ~ In k (output_nodes_name node) -> l' = l).
Proof.
  intros Hr k l Hk. apply rewire_steps in Hr. destruct Hr as (_ & Hloop).
  destruct (consumers_loop _ _ _ _ _ Hloop) as (Ha & _ & Hc).
  unfold nodes_get in *.
  destruct (dict_get String.eqb nodes k) as [l0|] eqn:E0; [|discriminate].
  injection Hk as ->.
  pose proof (dict_get_nodes_update nodes key
                (fun t => set_output_nodes_name t [node_name f]) k) as H1.
  rewrite E0 in H1. simpl in H1.
  destruct (Hc k _ H1) as (l' & Hl' & Hcl).
  exists l'. rewrite Hl'. split; [reflexivity|]. split.
  - rewrite (clear_input_names_clear_names _ _ Hcl).
    destruct (String.eqb k key); reflexivity.
  - intros Hne Hnotin. rewrite (Ha k Hnotin), H1 in Hl'.
    destruct (String.eqb_spec k key); [contradiction|]. congruence.
Qed.

(** The activation node that the generator synthesizes for a node built
    from an operator is named after that operator's output tensor. *)
Lemma defused_node_name interp node f o d :
  outcome (defuse_activation_function interp node) = Ok (Some f) ->
  op node = Some o ->
  get_tensor_details interp (Outputs_0 o) = Ok d ->
  node_name f = (tflite.name d ++ "_Fused")%string
  /\ Spec.synthesized f = true.
Proof.
  intros Hf Ho Hd. rewrite defuse_activation_function_embedded in Hf.
  destruct (Spec.embedded_activation node) as [t|]; [|discriminate].
  unfold aact_layers.defused_activation_node_generator in Hf.
  destruct t; try discriminate;
    unfold aact_layers.ActivationDefused_init in Hf;
    destruct (Layer_init _ (op node) (op_type node) interp) as [l|e] eqn:El;
    try discriminate;
    cbn in Hf; injection Hf as <-;
    destruct (Layer_init_fields _ _ _ _ _ El) as (Hc & _ & _ & _ & _ & Hop);
    destruct (Hop o Ho) as (_ & d' & Hd' & _ & Hname);
    rewrite Hd in Hd'; injection Hd' as <-;
    unfold Spec.synthesized; cbn; rewrite Hname, Hc; auto.
Qed.

Variable interp : Interpreter.

(** C1, amended: when the de-fusion splits a node N into N and a new
    node F (of sentinel index -1, named [<N.name>_Fused] for an N built
    from an operator), the step links F by node name only.  N's
    output-name list becomes [F]; F gets the input-name list [N] and N's
    former output-name list; every node M of that list (named once in
    it) loses the first occurrence of N from its input-name list and
    gets F at the end, so the list keeps its length; and every node of
    the graph keeps its index, its input-index list and its output-index
    list, which go on naming N and not F.  Nodes other than N and its
    consumers are untouched. *)
Theorem defuse_rewires_by_name
    (st st' : Nodes * list Layer) (key : string) (node f : Layer) :
  nodes_get (fst st) key = Ok node ->
  outcome (defuse_activation_function interp node) = Ok (Some f) ->
  outcome (Tree.defuse_node interp st key) = Ok st' ->
  NoDup (output_nodes_name node) ->
  (exists fused,
     snd st' = snd st ++ [fused]
     /\ node_idx fused = -1
     /\ node_name fused = node_name f
     /\ input_nodes_name fused = [node_name node]
     /\ output_nodes_name fused = output_nodes_name node
     /\ forall o d, op node = Some o ->
          get_tensor_details interp (Outputs_0 o) = Ok d ->
          node_name node = tflite.name d ->
          node_name fused = (node_name node ++ "_Fused")%string)
  /\ (exists node',
        nodes_get (fst st') key = Ok node'
        /\ output_nodes_name node' = [node_name f])
  /\ (forall m, In m (output_nodes_name node) ->
        exists M M' rest,
          nodes_get (fst st) m = Ok M
          /\ nodes_get (fst st') m = Ok M'
          /\ remove_first (node_name node) (input_nodes_name M) = Some rest
          /\ input_nodes_name M' = rest ++ [node_name f]
          /\ List.length (input_nodes_name M')
             = List.length (input_nodes_name M))
  /\ (forall k l, nodes_get (fst st) k = Ok l ->
        exists l',
          nodes_get (fst st') k = Ok l'
          /\ node_idx l' = node_idx l
          /\ input_nodes_idx l' = input_nodes_idx l
          /\ output_nodes_idx l' = output_nodes_idx l
          /\ (k <> key -> ~ In k (output_nodes_name node) -> l' = l)).
Proof.
  intros Hget Hf Hstep Hnd.
  unfold Tree.defuse_node in Hstep. rewrite Hget, bindM_lift_Ok in Hstep.
  rewrite (bindM_outcome_Ok _ _ _ Hf) in Hstep. cbn [outcome fst] in Hstep.
  destruct (Tree.rewire (fst st) key node f) as [[nodes' fused]|e] eqn:Er;
    [|discriminate].
  rewrite bindM_lift_Ok in Hstep. cbn in Hstep. injection Hstep as <-.
  cbn [fst snd].
  pose proof (rewire_steps _ _ _ _ _ _ Er) as (Hfused & Hloop).
  pose proof (rewire_frame _ _ _ _ _ _ Er) as Hframe.
  destruct (consumers_loop _ _ _ _ _ Hloop) as (_ & Hb & _).
  split; [|split; [|split]].
  - exists fused. subst fused. cbn.
    do 5 (split; [reflexivity|]).
    intros o d Ho Hd Hname.
    rewrite (proj1 (defused_node_name interp node f o d Hf Ho Hd)), Hname.
    reflexivity.
  - destruct (Hframe key node Hget) as (node' & Hn' & Hc & _).
    exists node'. split; [exact Hn'|].
    assert (H1 : dict_get String.eqb
                   (nodes_update (fst st) key
                      (fun t => set_output_nodes_name t [node_name f])) key
                 = Some (set_output_nodes_name node [node_name f])).
    { rewrite dict_get_nodes_update. unfold nodes_get in Hget.
      destruct (dict_get String.eqb (fst st) key); [|discriminate].
      injection Hget as ->. simpl. rewrite String.eqb_refl. reflexivity. }
    destruct (consumers_loop _ _ _ _ _ Hloop) as (_ & _ & Hc').
    destruct (Hc' key _ H1) as (l' & Hl' & Hcl).
    unfold nodes_get in Hn'. rewrite Hl' in Hn'. injection Hn' as <-.
    apply (f_equal output_nodes_name) in Hcl. exact Hcl.
  - intros m Hm. destruct (Hb Hnd m Hm) as (M1 & rest & HM1 & Hrest & Hfin).
    rewrite dict_get_nodes_update in HM1.
    destruct (dict_get String.eqb (fst st) m) as [M|] eqn:EM;
      simpl in HM1; [|discriminate].
    injection HM1 as <-.
    exists M, (set_input_nodes_name
                 (if String.eqb m key
                  then set_output_nodes_name M [node_name f] else M)
                 (rest ++ [node_name f])), rest.
    unfold nodes_get. rewrite EM, Hfin.
    assert (Hin : input_nodes_name
                    (if String.eqb m key
                     then set_output_nodes_name M [node_name f] else M)
                  = input_nodes_name M)
      by (destruct (String.eqb m key); reflexivity).
    rewrite Hin in Hrest.
    repeat split; try assumption.
    cbn. rewrite length_app, (remove_first_length _ _ _ Hrest). cbn. lia.
  - intros k l Hk. destruct (Hframe k l Hk) as (l' & Hl' & Hc & Hsame).
    exists l'. apply clear_names_fields in Hc.
    destruct Hc as (_ & _ & _ & H4 & _ & H6 & H7). auto.
Qed.
End Rewire.

Lemma remove_first_In x l :
  In x l -> exists rest, remove_first x l = Some rest.
Proof.
  induction l as [|y l IH]; simpl; [tauto|].
  intros H. destruct (String.eqb_spec y x) as [->|Hne]; [eauto|].
  destruct H as [H|H]; [contradiction|].
  destruct (IH H) as (rest & ->). simpl. eauto.
Qed.

(** The rewiring does not raise on a graph whose output names are
    consistent with its input names. *)
Lemma consumers_total removed added (ms : list string) :
  NoDup ms ->
  forall nodes,
    (forall m, In m ms ->
       exists M, dict_get String.eqb nodes m = Some M
                 /\ In removed (input_nodes_name M)) ->
    exists nodes',
      for_each_result
        (fun nodes output_node_name =>
           output_node <- nodes_get nodes output_node_name ;;
           ins <- list_remove removed (input_nodes_name output_node) ;;
           Ok (nodes_update nodes output_node_name
                 (fun t => set_input_nodes_name t (ins ++ [added]))))
        ms nodes = Ok nodes'.
Proof.
  induction 1 as [|m ms Hnotin Hnd IH]; intros nodes Hms; simpl; [eauto|].
  destruct (Hms m (or_introl eq_refl)) as (M & HM & Hin).
  unfold nodes_get at 1. rewrite HM. simpl.
  destruct (remove_first_In _ _ Hin) as (rest & Hrest).
  unfold list_remove at 1. rewrite Hrest. simpl.
  apply IH. intros m' Hm'.
  destruct (Hms m' (or_intror Hm')) as (M' & HM' & Hin').
  exists M'. split; [|exact Hin'].
  rewrite dict_get_nodes_update, HM'. simpl.
  destruct (String.eqb_spec m' m) as [->|_]; [contradiction|reflexivity].
Qed.

Section DefusePass.
Context {ext : ExternalLayers}.
Variable interp : Interpreter.

Lemma rewire_total nodes key node f :
  NoDup (output_nodes_name node) ->
  (forall m, In m (output_nodes_name node) ->
     exists M, nodes_get nodes m = Ok M
               /\ In (node_name node) (input_nodes_name M)) ->
  exists r, Tree.rewire nodes key node f = Ok r.
Proof.
  intros Hnd Hms. unfold Tree.rewire. cbv zeta.
  rewrite remove_each_of_itself. cbn [Py.bind app node_name set_node_idx].
  destruct (consumers_total (node_name node) (node_name f) _ Hnd
              (nodes_update nodes key
                 (fun t => set_output_nodes_name t [node_name f])))
    as (nodes' & ->).
  - intros m Hm. destruct (Hms m Hm) as (M & HM & Hin).
    unfold nodes_get in HM.
    destruct (dict_get String.eqb nodes m) as [M0|] eqn:E0; [|discriminate].
    injection HM as ->. rewrite dict_get_nodes_update, E0. simpl.
    eexists. split; [reflexivity|].
    destruct (String.eqb m key); exact Hin.
  - simpl. eauto.
Qed.




End DefusePass.

(** C1, as stated: after the de-fusion of [Samples.conv_relu] the ReLU
    that consumes the split convolution lists the new node by name but
    still the convolution by index, the convolution's output-index list
    still holds the index of the ReLU, and the lists of the new node have
    lengths 3 and 1. *)
Lemma defusion_leaves_index_lists :
  exists graph conv relu fused,
    Tree.init (ext := Samples.layers) Samples.conv_relu true = (Ok graph, [])
    /\ nodes_get graph "conv" = Ok conv
    /\ nodes_get graph "relu" = Ok relu
    /\ nodes_get graph "conv_Fused" = Ok fused
    /\ node_idx fused = -1
    /\ output_nodes_name conv = [node_name fused]
    /\ output_nodes_idx conv = [node_idx relu]
    /\ input_nodes_name relu = [node_name fused]
    /\ input_nodes_idx relu = [node_idx conv]
    /\ ~ In (node_idx fused) (input_nodes_idx relu)
    /\ List.length (input_nodes_idx fused) = 3%nat
    /\ List.length (input_nodes_name fused) = 1%nat.
Proof.
  do 4 eexists.
  split; [vm_compute; reflexivity|].
  split; [vm_compute; reflexivity|].
  split; [vm_compute; reflexivity|].
  split; [vm_compute; reflexivity|].
  repeat split. vm_compute. intros [H|[]]. discriminate H.
Qed.

Lemma defuse_rewires_by_name_witness :
  exists graph st' conv',
    Tree.init (ext := Samples.layers) Samples.conv_relu false = (Ok graph, [])
    /\ outcome (Tree.defuse_node (ext := Samples.layers)
                  (interpreter Samples.conv_relu) (graph, []) "conv") = Ok st'
    /\ nodes_get (fst st') "conv" = Ok conv'
    /\ output_nodes_name conv' = ["conv_Fused"%string].
Proof.
  assert (Hinit : exists graph,
            Tree.init (ext := Samples.layers) Samples.conv_relu false
            = (Ok graph, [])
            /\ (exists st', outcome (Tree.defuse_node (ext := Samples.layers)
                                       (interpreter Samples.conv_relu)
                                       (graph, []) "conv") = Ok st')
            /\ exists node f,
                 nodes_get graph "conv" = Ok node
                 /\ NoDup (output_nodes_name node)
                 /\ outcome (defuse_activation_function (ext := Samples.layers)
                               (interpreter Samples.conv_relu) node)
                    = Ok (Some f)
                 /\ node_name f = "conv_Fused"%string).
  { eexists. split; [vm_compute; reflexivity|].
    split; [eexists; vm_compute; reflexivity|].
    eexists. eexists. split; [vm_compute; reflexivity|].
    split; [repeat constructor; intros []|].
    split; [vm_compute; reflexivity|reflexivity]. }
  destruct Hinit as (graph & Hinit & (st' & Hstep) & node & f & Hget & Hnd & Hf & Hname).
  destruct (proj1 (proj2
    (@defuse_rewires_by_name Samples.layers (interpreter Samples.conv_relu)
       (graph, []) st' "conv" node f Hget Hf Hstep Hnd)))
    as (conv' & Hc & Ho).
  exists graph, st', conv'. rewrite Hname in Ho. auto.
Defined.

(* ================================================================== *)
(** * The padding calculator on every input *)
(* ================================================================== *)

Lemma div_between (a b q : Z) :
  0 < b -> b * q <= a < b * (q + 1) -> a / b = q.
Proof.
  intros Hb H. symmetry. apply (Z.div_unique a b q (a - b * q)); lia.
Qed.

(** The padded extent divided by the stride: the number of output
    positions is the input extent divided by the stride, rounded up. *)
Lemma need_output_size (size kernel stride : Z) :
  0 < stride -> 1 <= kernel ->
  0 <= Spec.need size kernel stride
  /\ (size + Spec.need size kernel stride - kernel) / stride + 1
     = (size + stride - 1) / stride.
Proof.
  intros Hs Hk. unfold Spec.need.
  pose proof (Z.div_mod size stride ltac:(lia)) as Hdm.
  pose proof (Z.mod_pos_bound size stride Hs) as Hr.
  set (q := size / stride) in *. set (r := size mod stride) in *.
  assert (Hq : stride * (q + 1) = stride * q + stride) by ring.
  assert (Hq' : stride * (q - 1) = stride * q - stride) by ring.
  destruct (r =? 0) eqn:E.
  - apply Z.eqb_eq in E. split; [lia|].
    rewrite (div_between (size + stride - 1) stride q) by lia.
    destruct (Z.max_spec (kernel - stride) 0) as [[Hc ->]|[Hc ->]];
      rewrite (div_between _ stride (q - 1)) by lia; lia.
  - apply Z.eqb_neq in E. split; [lia|].
    rewrite (div_between (size + stride - 1) stride (q + 1)) by lia.
    destruct (Z.max_spec (kernel - r) 0) as [[Hc ->]|[Hc ->]];
      rewrite (div_between _ stride q) by lia; lia.
Qed.

(** X1. SAME mode with positive strides and kernels of at least one cell: the
    four pads are not negative, the bottom and right pads are the top and
    left pads or one more, and the padded feature map yields as many
    output rows and columns as the input extent divided by the stride,
    rounded up. *)
Theorem getPadding_SAME_output_size
    (n h w : Z) (rest : list Z) (kh kw : Z) (krest : list Z)
    (sh sw : Z) (srest : list Z) :
  0 < sh -> 0 < sw -> 1 <= kh -> 1 <= kw ->
  exists top left bottom right,
    utils.getPadding (n :: h :: w :: rest) (kh :: kw :: krest)
      (sh :: sw :: srest) "SAME"
    = Ok (Some [top; left; bottom; right])
    /\ (0 <= top /\ top <= bottom /\ bottom <= top + 1)
    /\ (0 <= left /\ left <= right /\ right <= left + 1)
    /\ (h + top + bottom - kh) / sh + 1 = (h + sh - 1) / sh
    /\ (w + left + right - kw) / sw + 1 = (w + sw - 1) / sw.
Proof.
  intros Hsh Hsw Hkh Hkw.
  rewrite getPadding_SAME by lia.
  destruct (need_output_size h kh sh Hsh Hkh) as (Hh0 & Hh).
  destruct (need_output_size w kw sw Hsw Hkw) as (Hw0 & Hw).
  set (ph := Spec.need h kh sh) in *. set (pw := Spec.need w kw sw) in *.
  pose proof (Z.div_mod ph 2 ltac:(lia)) as Hph.
  pose proof (Z.mod_pos_bound ph 2 ltac:(lia)) as Hph'.
  pose proof (Z.div_mod pw 2 ltac:(lia)) as Hpw.
  pose proof (Z.mod_pos_bound pw 2 ltac:(lia)) as Hpw'.
  exists (ph / 2), (pw / 2), (ph - ph / 2), (pw - pw / 2).
  split; [reflexivity|].
  split; [lia|]. split; [lia|].
  split.
  - replace (h + ph / 2 + (ph - ph / 2) - kh) with (h + ph - kh) by lia.
    exact Hh.
  - replace (w + pw / 2 + (pw - pw / 2) - kw) with (w + pw - kw) by lia.
    exact Hw.
Qed.

Lemma getPadding_SAME_output_size_witness :
  exists top left bottom right,
    utils.getPadding [1; 7; 7; 3] [3; 3] [2; 2] "SAME"
    = Ok (Some [top; left; bottom; right])
    /\ (0 <= top /\ top <= bottom /\ bottom <= top + 1)
    /\ (0 <= left /\ left <= right /\ right <= left + 1)
    /\ (7 + top + bottom - 3) / 2 + 1 = (7 + 2 - 1) / 2
    /\ (7 + left + right - 3) / 2 + 1 = (7 + 2 - 1) / 2.
Proof.
  apply (getPadding_SAME_output_size 1 7 7 [3] 3 3 [] 2 2 []); lia.
Defined.

(** X2. Which calls of the padding calculator return: a mode that is neither
    VALID nor SAME answers [None] and VALID answers four zeros, whatever
    the other arguments are, empty lists included; SAME returns exactly
    when the feature map has three entries or more, the kernel and the
    strides two or more, and neither stride is zero, and raises
    [IndexError] or [ZeroDivisionError] otherwise. *)
Theorem getPadding_returns (feat_map_size kernel_size strides : list Z)
    (mode : string) :
  (mode <> "VALID"%string -> mode <> "SAME"%string ->
   utils.getPadding feat_map_size kernel_size strides mode = Ok None)
  /\ utils.getPadding feat_map_size kernel_size strides "VALID"
     = Ok (Some [0; 0; 0; 0])
  /\ ((exists pads,
         utils.getPadding feat_map_size kernel_size strides "SAME" = Ok pads)
      <-> (exists n h w rest kh kw krest sh sw srest,
             feat_map_size = n :: h :: w :: rest
             /\ kernel_size = kh :: kw :: krest
             /\ strides = sh :: sw :: srest
             /\ sh <> 0 /\ sw <> 0))
  /\ (utils.getPadding feat_map_size kernel_size strides "SAME"
      <> Ok None)
  /\ (forall e,
        utils.getPadding feat_map_size kernel_size strides "SAME" = Raise e ->
        e = IndexError \/ e = ZeroDivisionError).
Proof.
  split; [|split; [reflexivity|]].
  { intros Hv Hs. unfold utils.getPadding.
    apply String.eqb_neq in Hv, Hs. rewrite Hv, Hs. reflexivity. }
  assert (Hcases :
    (exists n h w rest kh kw krest sh sw srest,
       feat_map_size = n :: h :: w :: rest
       /\ kernel_size = kh :: kw :: krest
       /\ strides = sh :: sw :: srest
       /\ sh <> 0 /\ sw <> 0)
    \/ utils.getPadding feat_map_size kernel_size strides "SAME"
       = Raise IndexError
    \/ utils.getPadding feat_map_size kernel_size strides "SAME"
       = Raise ZeroDivisionError).
  { destruct feat_map_size as [|n [|h [|w rest]]];
      destruct strides as [|sh [|sw srest]];
      destruct kernel_size as [|kh [|kw krest]];
      try solve
        [ right; unfold utils.getPadding, mod_; simpl;
          repeat (match goal with
                  | |- context [if ?c then _ else _] => destruct c; simpl
                  end);
          ((left; reflexivity) || (right; reflexivity)) ].
    destruct (Z.eq_dec sh 0) as [->|Hsh]; [right; right; reflexivity|].
    destruct (Z.eq_dec sw 0) as [->|Hsw].
    - right. right. unfold utils.getPadding, mod_. simpl.
      apply Z.eqb_neq in Hsh. rewrite Hsh. simpl.
      destruct (h mod sh =? 0); simpl; rewrite ?Hsh; reflexivity.
    - left. repeat eexists; eauto. }
  split; [|split].
  - split.
    + intros (pads & Hp).
      destruct Hcases as [H|[H|H]]; [exact H| |]; congruence.
    + intros (n & h & w & rest & kh & kw & krest & sh & sw & srest
              & -> & -> & -> & Hsh & Hsw).
      rewrite getPadding_SAME by assumption. eauto.
  - destruct Hcases as [H|[H|H]]; try congruence.
    destruct H as (n & h & w & rest & kh & kw & krest & sh & sw & srest
                   & -> & -> & -> & Hsh & Hsw).
    rewrite getPadding_SAME by assumption. discriminate.
  - intros e He. destruct Hcases as [H|[H|H]]; try (rewrite H in He).
    + destruct H as (n & h & w & rest & kh & kw & krest & sh & sw & srest
                     & -> & -> & -> & Hsh & Hsw).
      rewrite getPadding_SAME in He by assumption. discriminate.
    + injection He as <-. auto.
    + injection He as <-. auto.
Qed.

(* ================================================================== *)
(** * The axis mapper *)
(* ================================================================== *)

Lemma axis_table_in_range (axis : Z) :
  0 <= axis <= 3 ->
  exists axis',
    utils.axis_table axis = Ok axis'
    /\ 0 <= axis' <= 3
    /\ forall n h w c,
         nth (Z.to_nat axis') [n; c; h; w] 0 = nth (Z.to_nat axis) [n; h; w; c] 0.
Proof.
  intros H.
  assert (Hc : axis = 0 \/ axis = 1 \/ axis = 2 \/ axis = 3) by lia.
  destruct Hc as [->|[->|[->| ->]]]; eexists;
    (split; [reflexivity|]); (split; [lia|]); reflexivity.
Qed.

Lemma axis_table_out_of_range (axis : Z) :
  ~ 0 <= axis <= 3 -> utils.axis_table axis = Raise (KeyError (str_int axis)).
Proof.
  intros H. unfold utils.axis_table.
  destruct (axis =? 0) eqn:E0; [apply Z.eqb_eq in E0; lia|].
  destruct (axis =? 3) eqn:E3; [apply Z.eqb_eq in E3; lia|].
  destruct (axis =? 1) eqn:E1; [apply Z.eqb_eq in E1; lia|].
  destruct (axis =? 2) eqn:E2; [apply Z.eqb_eq in E2; lia|].
  reflexivity.
Qed.

(** X3. The axis mapper agrees with the shape mapper: when it returns, every
    axis was one of 0, 1, 2 and 3, the result has one axis for each axis
    given, in the same order, and the mapped axis is the place where the
    shape mapper puts the extent of the axis. *)
Theorem axis_mapping_follows_shape_map
    (axis_list res shape_list mapped : list Z) :
  utils.channel_last_2_channel_first_axis_mapping axis_list = Ok res ->
  utils.tflite2onnx_shape_map shape_list = Some mapped ->
  Forall2 (fun axis axis' =>
             0 <= axis <= 3 /\ 0 <= axis' <= 3
             /\ nth (Z.to_nat axis') mapped 0 = nth (Z.to_nat axis) shape_list 0)
          axis_list res.
Proof.
  intros Hres Hmap.
  destruct shape_list as [|n [|h [|w [|c [|? ?]]]]]; try discriminate.
  injection Hmap as <-.
  revert res Hres. induction axis_list as [|axis rest IH]; intros res Hres.
  - injection Hres as <-. constructor.
  - cbn [utils.channel_last_2_channel_first_axis_mapping] in Hres.
    destruct (Z_le_dec 0 axis) as [Hlo|Hlo];
      [destruct (Z_le_dec axis 3) as [Hhi|Hhi]|].
    + destruct (axis_table_in_range axis (conj Hlo Hhi))
        as (axis' & Ht & Hr & Hnth).
      rewrite Ht in Hres. cbn [Py.bind] in Hres.
      destruct (utils.channel_last_2_channel_first_axis_mapping rest)
        as [res'|e]; [|discriminate].
      cbn in Hres. injection Hres as <-.
      constructor; [|apply IH; reflexivity].
      split; [lia|]. split; [lia|]. apply Hnth.
    + rewrite axis_table_out_of_range in Hres by lia. discriminate.
    + rewrite axis_table_out_of_range in Hres by lia. discriminate.
Qed.

Lemma axis_mapping_follows_shape_map_witness :
  Forall2 (fun axis axis' =>
             0 <= axis <= 3 /\ 0 <= axis' <= 3
             /\ nth (Z.to_nat axis') [1; 3; 7; 5] 0
                = nth (Z.to_nat axis) [1; 7; 5; 3] 0)
          [3; 1; 2] [1; 2; 3].
Proof.
  apply (axis_mapping_follows_shape_map [3; 1; 2] [1; 2; 3]
           [1; 7; 5; 3] [1; 3; 7; 5]); reflexivity.
Defined.

(** X4. The axis mapper returns on the lists of axes from 0 to 3 and on no
    other: an axis outside, a negative axis that counts from the end
    included, raises [KeyError] with the axis as written, and it is the
    first such axis that is reported. *)
Theorem axis_mapping_rejects_other_axes (axis_list : list Z) :
  (Forall (fun axis => 0 <= axis <= 3) axis_list ->
   exists res,
     utils.channel_last_2_channel_first_axis_mapping axis_list = Ok res)
  /\ (forall before axis after,
        axis_list = before ++ axis :: after ->
        Forall (fun axis => 0 <= axis <= 3) before ->
        ~ 0 <= axis <= 3 ->
        utils.channel_last_2_channel_first_axis_mapping axis_list
        = Raise (KeyError (str_int axis)))
  /\ utils.channel_last_2_channel_first_axis_mapping [0; -1]
     = Raise (KeyError "-1").
Proof.
  split; [|split; [|reflexivity]].
  - induction 1 as [|axis rest Hin _ IH].
    + exists []. reflexivity.
    + destruct (axis_table_in_range axis Hin) as (axis' & Ht & _).
      destruct IH as (res & Hres). exists (axis' :: res).
      cbn [utils.channel_last_2_channel_first_axis_mapping].
      rewrite Ht, Hres. reflexivity.
  - intros before axis after -> Hb Hout.
    induction Hb as [|a rest Hin _ IH].
    + cbn [app utils.channel_last_2_channel_first_axis_mapping].
      rewrite axis_table_out_of_range by assumption. reflexivity.
    + destruct (axis_table_in_range a Hin) as (a' & Ht & _).
      cbn [app utils.channel_last_2_channel_first_axis_mapping].
      rewrite Ht. cbn [Py.bind]. rewrite IH. reflexivity.
Qed.

(* ================================================================== *)
(** * The constructor of a layer *)
(* ================================================================== *)

Lemma map_result_Ok {A B} (f : A -> result B) (l : list A) (bs : list B) :
  map_result f l = Ok bs -> Forall2 (fun a b => f a = Ok b) l bs.
Proof.
  revert bs. induction l as [|a l IH]; intros bs H; cbn [map_result] in H.
  - injection H as <-. constructor.
  - destruct (f a) as [b|e] eqn:Ea; [|discriminate]. cbn [Py.bind] in H.
    destruct (map_result f l) as [bs'|e]; [|discriminate].
    cbn in H. injection H as <-. constructor; auto.
Qed.

Lemma map_result_total {A B} (f : A -> result B) (l : list A) :
  Forall (fun a => exists b, f a = Ok b) l -> exists bs, map_result f l = Ok bs.
Proof.
  induction 1 as [|a l (b & Hb) _ (bs & Hbs)].
  - exists []. reflexivity.
  - exists (b :: bs). cbn [map_result]. rewrite Hb, Hbs. reflexivity.
Qed.

Lemma input_names_total interp (inputs : list Z) :
  Forall (fun i => exists d, get_tensor_details interp i = Ok d) inputs <->
  exists names,
    map_result (fun idx => d <- get_tensor_details interp idx ;;
                           Ok (tflite.name d)) inputs = Ok names.
Proof.
  split.
  - intros H. apply map_result_total.
    apply Forall_impl with (2 := H). intros i (d & Hd).
    exists (tflite.name d). rewrite Hd. reflexivity.
  - intros (names & H). apply map_result_Ok in H.
    induction H as [|i nm l l' Hi _ IH]; constructor; [|exact IH].
    destruct (get_tensor_details interp i) as [d|e]; [eauto|discriminate].
Qed.

Lemma Layer_init_defined c o ty interp :
  (exists l, Layer_init c (Some o) ty interp = Ok l)
  <-> (exists d, get_tensor_details interp (Outputs_0 o) = Ok d)
      /\ Forall (fun i => exists d, get_tensor_details interp i = Ok d)
                (Inputs o).
Proof.
  unfold Layer_init. split.
  - intros (l & H).
    destruct (get_tensor_details interp (Outputs_0 o)) as [d|e] eqn:Ed;
      [|discriminate].
    split; [eauto|]. apply input_names_total.
    cbn [Py.bind] in H.
    destruct (map_result _ (Inputs o)) as [names|e]; [eauto|discriminate].
  - intros ((d & Hd) & Hin). apply input_names_total in Hin.
    destruct Hin as (names & Hn). rewrite Hd. cbn [Py.bind].
    rewrite Hn. cbn [Py.bind]. eauto.
Qed.

(** X6. A layer built from an operator reads the tensor table at the first
    output and at every input of the operator, and is built exactly when
    the table has details for all of them.  Its index and name are those
    of the first output tensor, its input-index list is the operator's
    input list, its input-name list has the name of each of those tensors
    at the same place, so that the two lists have one length, and it has
    no output edge yet.  A generated node, without operator, never reads
    the table. *)
Theorem Layer_init_reads_the_tensor_table
    (c : LayerClass) (o : Operator) (ty : BuiltinOperator.t)
    (interp : Interpreter) :
  ((exists l, Layer_init c (Some o) ty interp = Ok l)
   <-> (exists d, get_tensor_details interp (Outputs_0 o) = Ok d)
       /\ Forall (fun i => exists d, get_tensor_details interp i = Ok d)
                 (Inputs o))
  /\ (forall l,
        Layer_init c (Some o) ty interp = Ok l ->
        (exists d, get_tensor_details interp (Outputs_0 o) = Ok d
                   /\ node_idx l = index d /\ node_name l = tflite.name d)
        /\ input_nodes_idx l = Inputs o
        /\ Forall2 (fun i nm => exists d, get_tensor_details interp i = Ok d
                                          /\ nm = tflite.name d)
                   (input_nodes_idx l) (input_nodes_name l)
        /\ List.length (input_nodes_name l) = List.length (input_nodes_idx l)
        /\ output_nodes_idx l = [] /\ output_nodes_name l = [])
  /\ Layer_init c None ty interp
     = Ok {| cls := c; op := None; op_type := ty;
             node_idx := -1; node_name := "fused_node";
             input_nodes_idx := []; input_nodes_name := [];
             output_nodes_idx := []; output_nodes_name := [] |}.
Proof.
  split; [apply Layer_init_defined|split; [|reflexivity]].
  intros l H. unfold Layer_init in H.
  destruct (get_tensor_details interp (Outputs_0 o)) as [d|e] eqn:Ed;
    [|discriminate].
  cbn [Py.bind] in H.
  destruct (map_result _ (Inputs o)) as [names|e] eqn:En; [|discriminate].
  cbn in H. injection H as <-. cbn.
  apply map_result_Ok in En.
  assert (HF : Forall2 (fun i nm => exists d, get_tensor_details interp i = Ok d
                                              /\ nm = tflite.name d)
                       (Inputs o) names).
  { induction En as [|i nm l l' Hi _ IH]; constructor; [|exact IH].
    destruct (get_tensor_details interp i) as [di|e]; [|discriminate].
    cbn in Hi. injection Hi as <-. eauto. }
  split; [eauto|]. split; [reflexivity|]. split; [exact HF|].
  split; [|auto]. symmetry. apply (Forall2_length HF).
Qed.

(* ================================================================== *)
(** * The graph builder: which models give a graph, and which nodes *)
(* ================================================================== *)

Lemma node_generator_defined o ty interp :
  (exists l, Tree.node_generator o ty interp = Ok l)
  <-> (forall code, ty <> BuiltinOperator.UNLISTED code)
      /\ (exists d, get_tensor_details interp (Outputs_0 o) = Ok d)
      /\ Forall (fun i => exists d, get_tensor_details interp i = Ok d)
                (Inputs o).
Proof.
  unfold Tree.node_generator.
  destruct ty;
    try (rewrite Layer_init_defined; split;
         [intros H; split; [discriminate|exact H]|intros (_ & H); exact H]).
  split.
  - intros (l & H). discriminate.
  - intros (H & _). exfalso. apply (H code). reflexivity.
Qed.

Lemma node_generator_name o ty interp l :
  Tree.node_generator o ty interp = Ok l ->
  op l = Some o /\ op_type l = ty
  /\ exists d, get_tensor_details interp (Outputs_0 o) = Ok d
               /\ node_idx l = index d /\ node_name l = tflite.name d.
Proof.
  intros H.
  assert (Hinit : exists c, Layer_init c (Some o) ty interp = Ok l).
  { unfold Tree.node_generator in H. destruct ty; try discriminate; eauto. }
  destruct Hinit as (c & Hinit).
  destruct (Layer_init_fields _ _ _ _ _ Hinit) as (_ & Ho & Ht & _ & _ & Hop).
  destruct (Hop o eq_refl) as (_ & d & Hd & Hidx & Hname).
  split; [exact Ho|]. split; [exact Ht|]. eauto.
Qed.

Lemma parse_loop_defined interp ops :
  forall nodes0,
    (exists nodes,
       for_each_result
         (fun nodes o =>
            node <- Tree.node_generator (fst o) (snd o) interp ;;
            Ok (dict_set String.eqb nodes (node_name node) node))
         ops nodes0 = Ok nodes)
    <-> Forall (fun o => exists l,
                  Tree.node_generator (fst o) (snd o) interp = Ok l) ops.
Proof.
  induction ops as [|o ops IH]; intros nodes0; cbn [for_each_result].
  - split; [constructor|eauto].
  - destruct (Tree.node_generator (fst o) (snd o) interp) as [node|e] eqn:E;
      cbn [Py.bind].
    + rewrite IH. split; [intros H; constructor; eauto|].
      intros H. inversion H; assumption.
    + split; [intros (nodes & H); discriminate|].
      intros H. inversion H as [|? ? (l & Hl) ?]; subst. congruence.
Qed.

(** The node stored under a name after the operators [ops] were added to
    [nodes0]: the one that was there when no operator bears the name, and
    else the layer of the last operator that bears it. *)
Lemma parse_loop_last interp ops :
  forall nodes0 nodes,
    for_each_result
      (fun nodes o =>
         node <- Tree.node_generator (fst o) (snd o) interp ;;
         Ok (dict_set String.eqb nodes (node_name node) node))
      ops nodes0 = Ok nodes ->
    forall k l,
      dict_get String.eqb nodes k = Some l ->
      (dict_get String.eqb nodes0 k = Some l
       /\ Forall (fun o => forall l', Tree.node_generator (fst o) (snd o) interp
                                      = Ok l' -> node_name l' <> k) ops)
      \/ exists before o after,
           ops = before ++ o :: after
           /\ Tree.node_generator (fst o) (snd o) interp = Ok l
           /\ node_name l = k
           /\ Forall (fun o => forall l', Tree.node_generator (fst o) (snd o) interp
                                          = Ok l' -> node_name l' <> k) after.
Proof.
  induction ops as [|o ops IH]; intros nodes0 nodes H k l Hk;
    cbn [for_each_result] in H.
  - injection H as <-. left. split; [exact Hk|constructor].
  - destruct (Tree.node_generator (fst o) (snd o) interp) as [node|e] eqn:E;
      cbn [Py.bind] in H; [|discriminate].
    destruct (IH _ _ H k l Hk) as [(Hget & Hnp)|(before & o' & after & -> & Hg & Hn & Hnp)].
    + rewrite (dict_get_set _ _ String.eqb string_eqb_eq) in Hget.
      destruct (String.eqb (node_name node) k) eqn:Ek.
      * injection Hget as <-. apply String.eqb_eq in Ek.
        right. exists [], o, ops. auto.
      * left. split; [exact Hget|]. constructor; [|exact Hnp].
        intros l' Hl'. rewrite E in Hl'. injection Hl' as <-.
        apply String.eqb_neq, Ek.
    + right. exists (o :: before), o', after. auto.
Qed.


Lemma eliminate_side_input_get nodes k :
  dict_get String.eqb (Tree.eliminate_side_input nodes) k
  = option_map
      (fun l =>
         set_input_nodes_name
           (set_input_nodes_idx l
              (filter (fun i => mem_int i (Graph.indices nodes))
                      (input_nodes_idx l)))
           (filter (fun s => mem_str s (dict_keys nodes))
                   (input_nodes_name l)))
      (dict_get String.eqb nodes k).
Proof.
  unfold Tree.eliminate_side_input. cbv zeta.
  rewrite (dict_get_map_values
             (fun kv => set_input_nodes_name (snd kv)
                (filter (fun s => mem_str s
                           (dict_keys
                              (map (fun kv0 =>
                                      (fst kv0,
                                       set_input_nodes_idx (snd kv0)
                                         (filter (fun i => mem_int i
                                                    (map (fun kv1 => node_idx (snd kv1)) nodes))
                                                 (input_nodes_idx (snd kv0)))))
                                   nodes)))
                        (input_nodes_name (snd kv))))).
  rewrite (dict_get_map_values
             (fun kv => set_input_nodes_idx (snd kv)
                (filter (fun i => mem_int i
                           (map (fun kv1 => node_idx (snd kv1)) nodes))
                        (input_nodes_idx (snd kv))))).
  destruct (dict_get String.eqb nodes k) as [l|]; [|reflexivity].
  cbn [option_map snd]. f_equal. f_equal.
  unfold dict_keys. rewrite map_map. reflexivity.
Qed.


Section BuiltGraph.
Context {ext : ExternalLayers}.

(** X7. The construction of the graph without de-fusion returns exactly on
    the models whose operators are all of a kind the node generator names
    and whose tensor table has details for the first output and for every
    input of every operator: nothing else in it can raise. *)
Theorem graph_is_built_iff (model : Model) :
  (exists graph, outcome (Tree.init model false) = Ok graph)
  <-> Forall (fun o =>
                (forall code, snd o <> BuiltinOperator.UNLISTED code)
                /\ (exists d, get_tensor_details (interpreter model)
                                (Outputs_0 (fst o)) = Ok d)
                /\ Forall (fun i => exists d,
                             get_tensor_details (interpreter model) i = Ok d)
                          (Inputs (fst o)))
            (operators model).
Proof.
  assert (Hparse :
    (exists nodes, Tree.parse_graph (operators model) (interpreter model)
                   = Ok nodes)
    <-> Forall (fun o =>
                  (forall code, snd o <> BuiltinOperator.UNLISTED code)
                  /\ (exists d, get_tensor_details (interpreter model)
                                  (Outputs_0 (fst o)) = Ok d)
                  /\ Forall (fun i => exists d,
                               get_tensor_details (interpreter model) i = Ok d)
                            (Inputs (fst o)))
              (operators model)).
  { unfold Tree.parse_graph. rewrite parse_loop_defined.
    split; intros H; apply Forall_impl with (2 := H); intros o Ho;
      apply node_generator_defined; exact Ho. }
  rewrite <- Hparse. split.
  - intros (graph & H).
    destruct (Tree.parse_graph (operators model) (interpreter model))
      as [nodes|e] eqn:E; [eauto|].
    rewrite (Tree_init_not_parsed _ _ _ E) in H. discriminate.
  - intros (nodes & H).
    destruct (Tree_init_parsed _ _ H) as (graph & -> & _).
    exists graph. reflexivity.
Qed.

End BuiltGraph.


(* ================================================================== *)
(** * Side-input elimination closes the graph *)
(* ================================================================== *)

Lemma eliminate_side_input_map nodes :
  Tree.eliminate_side_input nodes
  = map (fun kv =>
           (fst kv,
            set_input_nodes_name
              (set_input_nodes_idx (snd kv)
                 (filter (fun i => mem_int i (Graph.indices nodes))
                         (input_nodes_idx (snd kv))))
              (filter (fun s => mem_str s (dict_keys nodes))
                      (input_nodes_name (snd kv)))))
        nodes.
Proof.
  unfold Tree.eliminate_side_input, dict_keys, Graph.indices.
  rewrite !map_map. reflexivity.
Qed.

Lemma filter_twice {A} (p : A -> bool) (l : list A) :
  filter p (filter p l) = filter p l.
Proof.
  induction l as [|a l IH]; simpl; [reflexivity|].
  destruct (p a) eqn:E; simpl; rewrite ?E, IH; reflexivity.
Qed.

(** X9. After the side-input elimination every input index that is left is
    the index of a node of the graph and every input name that is left is
    the name a node is stored under; the nodes, their order and their
    indices are as before; and a second elimination would change
    nothing. *)
Theorem eliminate_side_input_closes_the_graph (nodes : Nodes) :
  dict_keys (Tree.eliminate_side_input nodes) = dict_keys nodes
  /\ Graph.indices (Tree.eliminate_side_input nodes) = Graph.indices nodes
  /\ Graph.input_indices_known (Tree.eliminate_side_input nodes)
  /\ Graph.input_names_known (Tree.eliminate_side_input nodes)
  /\ Tree.eliminate_side_input (Tree.eliminate_side_input nodes)
     = Tree.eliminate_side_input nodes.
Proof.
  split; [apply eliminate_side_input_keys|].
  split; [apply eliminate_side_input_indices|].
  split; [|split].
  - unfold Graph.input_indices_known. apply Forall_forall. intros [k l'] Hin.
    apply eliminate_side_input_In in Hin. destruct Hin as (l & Hin & ->).
    cbn. apply Forall_forall. intros i Hi. apply filter_In in Hi.
    rewrite eliminate_side_input_indices. apply mem_int_In. apply Hi.
  - unfold Graph.input_names_known. apply Forall_forall. intros [k l'] Hin.
    apply eliminate_side_input_In in Hin. destruct Hin as (l & Hin & ->).
    cbn. apply Forall_forall. intros s Hs. apply filter_In in Hs.
    rewrite eliminate_side_input_keys. apply mem_str_In. apply Hs.
  - rewrite (eliminate_side_input_map (Tree.eliminate_side_input nodes)).
    rewrite eliminate_side_input_keys, eliminate_side_input_indices.
    rewrite (eliminate_side_input_map nodes) at 1.
    rewrite map_map. rewrite (eliminate_side_input_map nodes).
    apply map_ext. intros [k l]. cbn. rewrite !filter_twice. reflexivity.
Qed.

(* ================================================================== *)
(** * De-fusion of a graph that was built *)
(* ================================================================== *)

Lemma remove_first_keeps x y l rest :
  remove_first x l = Some rest -> y <> x -> In y l -> In y rest.
Proof.
  revert rest. induction l as [|a l IH]; intros rest; simpl; [discriminate|].
  destruct (String.eqb_spec a x) as [->|Hne].
  - intros H. injection H as <-. intros Hy [Heq|Hin]; [congruence|exact Hin].
  - destruct (remove_first x l) as [rest'|]; simpl; [|discriminate].
    intros H. injection H as <-. intros Hy [Heq|Hin].
    + left. exact Heq.
    + right. apply IH; auto.
Qed.

Lemma consumers_keep_inputs removed added (ms : list string) :
  forall nodes nodes',
    for_each_result
      (fun nodes output_node_name =>
         output_node <- nodes_get nodes output_node_name ;;
         ins <- list_remove removed (input_nodes_name output_node) ;;
         Ok (nodes_update nodes output_node_name
               (fun t => set_input_nodes_name t (ins ++ [added]))))
      ms nodes = Ok nodes' ->
    forall k l,
      dict_get String.eqb nodes k = Some l ->
      exists l',
        dict_get String.eqb nodes' k = Some l'
        /\ Graph.clear_input_names l' = Graph.clear_input_names l
        /\ forall y, y <> removed -> In y (input_nodes_name l) ->
                     In y (input_nodes_name l').
Proof.
  induction ms as [|m ms IH]; intros nodes nodes'; cbn [for_each_result].
  - intros H. injection H as <-. intros k l Hk. exists l. auto.
  - destruct (nodes_get nodes m) as [M|e] eqn:EM; cbn [Py.bind];
      [|discriminate].
    destruct (list_remove removed (input_nodes_name M)) as [ins|e] eqn:ER;
      cbn [Py.bind]; [|discriminate].
    intros Hloop k l Hk.
    pose proof (dict_get_nodes_update nodes m
                  (fun t => set_input_nodes_name t (ins ++ [added])) k) as H1.
    rewrite Hk in H1. cbn [option_map] in H1.
    destruct (IH _ _ Hloop k _ H1) as (l' & Hl' & Hc & Hin).
    exists l'. split; [exact Hl'|]. split.
    + rewrite Hc. destruct (String.eqb k m); reflexivity.
    + intros y Hy Hyl. apply Hin; [exact Hy|].
      destruct (String.eqb_spec k m) as [->|Hne]; [|exact Hyl].
      cbn. apply in_or_app. left.
      unfold nodes_get in EM. rewrite Hk in EM. injection EM as <-.
      unfold list_remove in ER.
      destruct (remove_first removed (input_nodes_name l)) as [rest|] eqn:Er;
        [|discriminate].
      injection ER as <-. apply (remove_first_keeps _ _ _ _ Er Hy Hyl).
Qed.

Section DefuseBuilt.
Context {ext : ExternalLayers}.
Variable interp : Interpreter.

(** What a split leaves of the other nodes: their output names, and of
    every node all but its names of edges, and the input names other than
    the one of the node that is split. *)
Lemma rewire_effect nodes key node f nodes' fused :
  Tree.rewire nodes key node f = Ok (nodes', fused) ->
  forall k l,
    nodes_get nodes k = Ok l ->
    exists l',
      nodes_get nodes' k = Ok l'
      /\ (k <> key -> output_nodes_name l' = output_nodes_name l)
      /\ Graph.clear_names l' = Graph.clear_names l
      /\ forall y, y <> node_name node -> In y (input_nodes_name l) ->
                   In y (input_nodes_name l').
Proof.
  intros Hr k l Hk.
  destruct (rewire_frame _ _ _ _ _ _ Hr k l Hk) as (l0' & Hl0' & Hnames & _).
  apply rewire_steps in Hr. destruct Hr as (_ & Hloop).
  unfold nodes_get in *.
  destruct (dict_get String.eqb nodes k) as [l0|] eqn:E0; [|discriminate].
  injection Hk as ->.
  pose proof (dict_get_nodes_update nodes key
                (fun t => set_output_nodes_name t [node_name f]) k) as H1.
  rewrite E0 in H1. cbn [option_map] in H1.
  destruct (consumers_keep_inputs _ _ _ _ _ Hloop k _ H1)
    as (l' & Hl' & Hc & Hin).
  rewrite Hl' in Hl0'. injection Hl0' as <-.
  exists l'. rewrite Hl'. split; [reflexivity|].
  split; [|split; [exact Hnames|]].
  - intros Hne.
    assert (Hout : output_nodes_name l'
                   = output_nodes_name (if String.eqb k key
                                        then set_output_nodes_name l
                                               [node_name f]
                                        else l)).
    { destruct l' as [c' o' t' i' n' ii' in' oi' on'].
      destruct (String.eqb k key); destruct l as [c o t i n ii inn oi on];
        cbn in Hc; injection Hc; intros; subst; auto. }
    rewrite Hout.
    destruct (String.eqb_spec k key); [contradiction|reflexivity].
  - intros y Hy Hyl. apply Hin; [exact Hy|].
    destruct (String.eqb k key); exact Hyl.
Qed.

(** The loop of the de-fusion over the nodes that are left to visit, on a
    graph in which each of them is stored under its name, lists every
    consumer once and is listed by each of its consumers: it returns, or
    it raises what a layer raised when asked for its activation node. *)
Lemma defuse_loop_returns (origin : Nodes) (rest : list string) :
  NoDup rest ->
  forall st,
    (forall k, In k rest ->
       exists l l0,
         nodes_get (fst st) k = Ok l
         /\ nodes_get origin k = Ok l0
         /\ Graph.clear_names l = Graph.clear_names l0
         /\ node_name l = k
         /\ NoDup (output_nodes_name l)
         /\ forall m, In m (output_nodes_name l) ->
              exists M, nodes_get (fst st) m = Ok M
                        /\ In k (input_nodes_name M)) ->
    (exists st', outcome (for_each (Tree.defuse_node interp) rest st) = Ok st')
    \/ exists k l0 l e,
         In k rest
         /\ nodes_get origin k = Ok l0
         /\ Graph.clear_names l = Graph.clear_names l0
         /\ outcome (defuse_activation_function interp l) = Raise e
         /\ outcome (for_each (Tree.defuse_node interp) rest st) = Raise e.
Proof.
  induction 1 as [|key rest Hnotin Hnd IH]; intros st Hinv.
  - left. exists st. reflexivity.
  - destruct (Hinv key (or_introl eq_refl))
      as (node & node0 & Hget & Hget0 & Hsame & Hname & Hout & Hcons).
    cbn [for_each].
    destruct (outcome (defuse_activation_function interp node)) as [r|e] eqn:Hr.
    2:{ right. exists key, node0, node, e.
        split; [left; reflexivity|]. split; [exact Hget0|].
        split; [exact Hsame|]. split; [exact Hr|].
        assert (Hstep : outcome (Tree.defuse_node interp st key) = Raise e).
        { unfold Tree.defuse_node. rewrite Hget, bindM_lift_Ok.
          rewrite (bindM_outcome_Raise _ _ _ Hr). reflexivity. }
        rewrite (bindM_outcome_Raise _ _ _ Hstep). reflexivity. }
    assert (Hstep : exists st1,
               outcome (Tree.defuse_node interp st key) = Ok st1
               /\ forall k, In k rest ->
                    exists l l0,
                      nodes_get (fst st1) k = Ok l
                      /\ nodes_get origin k = Ok l0
                      /\ Graph.clear_names l = Graph.clear_names l0
                      /\ node_name l = k
                      /\ NoDup (output_nodes_name l)
                      /\ forall m, In m (output_nodes_name l) ->
                           exists M, nodes_get (fst st1) m = Ok M
                                     /\ In k (input_nodes_name M)).
    { unfold Tree.defuse_node. rewrite Hget, bindM_lift_Ok.
      rewrite (bindM_outcome_Ok _ _ _ Hr). cbn [outcome fst].
      destruct r as [f|].
      - destruct (rewire_total (fst st) key node f Hout) as ([nodes' fused] & Hrw).
        { intros m Hm. rewrite Hname. apply (Hcons m Hm). }
        rewrite Hrw, bindM_lift_Ok. cbn [ret fst snd].
        eexists. split; [reflexivity|]. cbn [fst].
        intros k Hk.
        destruct (Hinv k (or_intror Hk))
          as (l & l0 & Hl & Hl0 & Hls & Hln & Hlo & Hlcons).
        assert (Hne : k <> key) by (intros ->; contradiction).
        destruct (rewire_effect _ _ _ _ _ _ Hrw k l Hl)
          as (l' & Hl' & Ho' & Hs' & _).
        exists l', l0. split; [exact Hl'|]. split; [exact Hl0|].
        split; [congruence|].
        split; [apply clear_names_fields in Hs'; destruct Hs' as (_ & _ & _ & _ & Hn' & _); congruence|].
        rewrite (Ho' Hne). split; [exact Hlo|].
        intros m Hm. destruct (Hlcons m Hm) as (M & HM & HkM).
        destruct (rewire_effect _ _ _ _ _ _ Hrw m M HM)
          as (M' & HM' & _ & _ & Hkeep).
        exists M'. split; [exact HM'|]. apply Hkeep; [congruence|exact HkM].
      - exists st. split; [reflexivity|].
        intros k Hk. apply (Hinv k (or_intror Hk)). }
    destruct Hstep as (st1 & Hst1 & Hinv1).
    rewrite (bindM_outcome_Ok _ _ _ Hst1). cbn [outcome fst].
    destruct (IH st1 Hinv1)
      as [(st' & Hst')|(k & l0 & l & e & Hk & Hl0 & Hs & He & Hloop)].
    + left. exists st'. exact Hst'.
    + right. exists k, l0, l, e. split; [right; exact Hk|]. auto.
Qed.

(** A layer whose operator has its tensors in the table can be asked for
    its de-fused activation node. *)
Lemma defuse_activation_function_total l o :
  op l = Some o ->
  (exists d, get_tensor_details interp (Outputs_0 o) = Ok d) ->
  Forall (fun i => exists d, get_tensor_details interp i = Ok d) (Inputs o) ->
  exists r, outcome (defuse_activation_function interp l) = Ok r.
Proof.
  intros Hop Hd Hin.
  assert (Hinit : forall c, exists x,
             aact_layers.ActivationDefused_init c (op l) (op_type l) interp
             = Ok x).
  { intros c. unfold aact_layers.ActivationDefused_init. rewrite Hop.
    destruct (proj2 (Layer_init_defined c o (op_type l) interp) (conj Hd Hin))
      as (x & ->).
    cbn [Py.bind]. eauto. }
  unfold defuse_activation_function.
  destruct (keeps_Layer_method (cls l)); [exists None; reflexivity|].
  unfold override_defuse_activation_function.
  destruct (fused_activation_function l) as [t|]; [|exists None; reflexivity].
  destruct t; cbn [aact_layers.defused_activation_node_generator];
    try (exists None; reflexivity).
  - destruct (Hinit ReluDefused) as (x & ->). exists (Some x). reflexivity.
  - destruct (Hinit Relu6Defused) as (x & ->). exists (Some x). reflexivity.
Qed.
End DefuseBuilt.

Lemma with_outputs_get n k :
  dict_get String.eqb (Graph.with_outputs n) k
  = option_map
      (fun l =>
         set_output_nodes_name
           (set_output_nodes_idx l (Graph.index_edges n (node_idx l)))
           (Graph.name_edges n k))
      (dict_get String.eqb n k).
Proof.
  unfold Graph.with_outputs.
  apply (dict_get_map_values
           (fun kv => set_output_nodes_name
                        (set_output_nodes_idx (snd kv)
                           (Graph.index_edges n (node_idx (snd kv))))
                        (Graph.name_edges n (fst kv)))).
Qed.

Section DefuseBuiltGraph.
Context {ext : ExternalLayers}.

(** On a graph that was built, the de-fusion finds every node it looks
    up and every name it removes. *)
Lemma defusion_of_a_built_graph (model : Model) (graph : Nodes) :
  Graph.echoes_index (interpreter model) ->
  outcome (Tree.init model false) = Ok graph ->
  (exists nodes,
     Tree.parse_graph (operators model) (interpreter model) = Ok nodes
     /\ forall k l, nodes_get graph k = Ok l ->
          exists before o after,
            operators model = before ++ o :: after /\ op l = Some (fst o))
  /\ Tree.init model true = Tree.defused (interpreter model) graph true
  /\ ((exists st',
         outcome (for_each (Tree.defuse_node (interpreter model))
                    (dict_keys graph) (graph, [])) = Ok st')
      \/ exists k l0 l e,
           In k (dict_keys graph)
           /\ nodes_get graph k = Ok l0
           /\ Graph.clear_names l = Graph.clear_names l0
           /\ outcome (defuse_activation_function (interpreter model) l)
              = Raise e
           /\ outcome (for_each (Tree.defuse_node (interpreter model))
                         (dict_keys graph) (graph, [])) = Raise e).
Proof.
  intros Hecho Hinit.
  destruct (Tree.parse_graph (operators model) (interpreter model))
    as [nodes|e] eqn:Eparse;
    [|rewrite (Tree_init_not_parsed _ _ _ Eparse) in Hinit; discriminate].
  rewrite (Tree_init_exact model nodes Hecho Eparse) in Hinit.
  cbn in Hinit. injection Hinit as <-.
  pose proof (Tree_init_exact model nodes Hecho Eparse) as Hfalse.
  set (n := Tree.eliminate_side_input nodes) in *.
  destruct (parse_graph_fresh _ _ _ Eparse) as (Hnd & _ & _).
  assert (Hkeys : NoDup (dict_keys n)).
  { unfold n. rewrite eliminate_side_input_keys. exact Hnd. }
  assert (Hwkeys : dict_keys (Graph.with_outputs n) = dict_keys n).
  { unfold Graph.with_outputs, dict_keys. rewrite map_map. reflexivity. }
  assert (Horigin : forall k l0,
            dict_get String.eqb n k = Some l0 ->
            node_name l0 = k
            /\ exists before o after,
                 operators model = before ++ o :: after /\ op l0 = Some (fst o)).
  { intros k l0 Hl0. unfold n in Hl0.
    rewrite eliminate_side_input_get in Hl0.
    destruct (dict_get String.eqb nodes k) as [l2|] eqn:El2; [|discriminate].
    cbn in Hl0. injection Hl0 as <-.
    destruct (parse_loop_last _ _ _ _ Eparse k l2 El2)
      as [(Hget & _)|(before & o & after & Hops & Hgen & Hn2 & _)];
      [discriminate|].
    destruct (node_generator_name _ _ _ _ Hgen) as (Hop2 & _).
    split; [exact Hn2|]. exists before, o, after. auto. }
  split; [|split].
  - exists nodes. split; [reflexivity|].
    intros k l Hk. unfold nodes_get in Hk. rewrite with_outputs_get in Hk.
    destruct (dict_get String.eqb n k) as [l0|] eqn:El0; [|discriminate].
    cbn in Hk. injection Hk as <-. apply (Horigin k l0 El0).
  - unfold Tree.init in Hfalse |- *.
    rewrite Eparse, bindM_lift_Ok in Hfalse |- *. fold n in Hfalse |- *.
    destruct (Tree.init_outputs_node_info n) as [g|e]; [|discriminate].
    rewrite bindM_lift_Ok in Hfalse |- *.
    cbn in Hfalse. injection Hfalse as ->. reflexivity.
  - apply (defuse_loop_returns (interpreter model) (Graph.with_outputs n)).
    { rewrite Hwkeys. exact Hkeys. }
    cbn [fst]. intros k Hk. rewrite Hwkeys in Hk.
    apply (dict_get_In_keys _ _ String.eqb string_eqb_eq) in Hk.
    destruct Hk as (l0 & Hl0).
    destruct (Horigin k l0 Hl0) as (Hname & _).
    eexists. eexists. unfold nodes_get. rewrite with_outputs_get, Hl0.
    cbn [option_map]. split; [reflexivity|]. split; [reflexivity|].
    split; [reflexivity|].
    cbn [node_name output_nodes_name set_output_nodes_name
         set_output_nodes_idx].
    split; [exact Hname|]. split; [apply NoDup_filter, Hkeys|].
    intros m Hm. unfold Graph.name_edges in Hm. apply filter_In in Hm.
    destruct Hm as (Hmk & Hmem).
    apply (dict_get_In_keys _ _ String.eqb string_eqb_eq) in Hmk.
    destruct Hmk as (M0 & HM0).
    rewrite with_outputs_get, HM0. cbn [option_map].
    eexists. split; [reflexivity|]. cbn [input_nodes_name
      set_output_nodes_name set_output_nodes_idx].
    apply mem_str_In. unfold Graph.inputs_of in Hmem. rewrite HM0 in Hmem.
    exact Hmem.
Qed.

(** X11. The de-fusion of a graph that was built from a model can only fail
    in a layer: when the construction without de-fusion returns a graph,
    on an interpreter that answers with the index it is asked for, the
    construction with de-fusion returns one too, or raises the exception
    that the method [defuse_activation_function] of a node of the graph
    raised (the node as it is at its turn, with its class, operator, kind,
    index, name and index lists unchanged).  The pass itself finds every
    node it looks up and every name it removes from a list. *)
Theorem defusion_fails_only_in_a_layer (model : Model) (graph : Nodes) :
  Graph.echoes_index (interpreter model) ->
  outcome (Tree.init model false) = Ok graph ->
  (exists graph', outcome (Tree.init model true) = Ok graph')
  \/ exists k l0 l e,
       nodes_get graph k = Ok l0
       /\ cls l = cls l0 /\ op l = op l0 /\ op_type l = op_type l0
       /\ node_idx l = node_idx l0 /\ node_name l = node_name l0
       /\ input_nodes_idx l = input_nodes_idx l0
       /\ output_nodes_idx l = output_nodes_idx l0
       /\ outcome (defuse_activation_function (interpreter model) l) = Raise e
       /\ outcome (Tree.init model true) = Raise e.
Proof.
  intros Hecho Hinit.
  destruct (defusion_of_a_built_graph model graph Hecho Hinit)
    as (_ & -> & [(st' & Hst')|(k & l0 & l & e & _ & Hl0 & Hs & He & Hloop)]).
  - left. unfold Tree.defused. cbn [negb].
    rewrite (bindM_outcome_Ok _ _ _ Hst'). cbn. eauto.
  - right. exists k, l0, l, e. split; [exact Hl0|].
    apply clear_names_fields in Hs.
    destruct Hs as (H1 & H2 & H3 & H4 & H5 & H6 & H7).
    do 7 (split; [assumption|]). split; [exact He|].
    unfold Tree.defused. cbn [negb].
    rewrite (bindM_outcome_Raise _ _ _ Hloop). reflexivity.
Qed.

(** With the overrides of [defuse_activation_function] as they are
    modelled, no layer of a built graph raises, and the construction with
    de-fusion returns. *)
Lemma defusion_of_a_built_graph_returns (model : Model) (graph : Nodes) :
  Graph.echoes_index (interpreter model) ->
  outcome (Tree.init model false) = Ok graph ->
  exists graph', outcome (Tree.init model true) = Ok graph'.
Proof.
  intros Hecho Hinit.
  destruct (defusion_of_a_built_graph model graph Hecho Hinit)
    as ((nodes & Eparse & Horigin) & -> & Hloop).
  destruct Hloop as [(st' & Hst')|(k & l0 & l & e & _ & Hl0 & Hs & He & _)].
  - unfold Tree.defused. cbn [negb].
    rewrite (bindM_outcome_Ok _ _ _ Hst'). cbn. eauto.
  - exfalso.
    destruct (Horigin k l0 Hl0) as (before & o & after & Hops & Hop0).
    assert (Hall : Forall (fun o => exists l,
                             Tree.node_generator (fst o) (snd o)
                               (interpreter model) = Ok l) (operators model)).
    { apply (parse_loop_defined (interpreter model) (operators model) []).
      eauto. }
    rewrite Hops in Hall. apply Forall_app in Hall.
    destruct Hall as (_ & Hall). apply Forall_inv in Hall.
    apply node_generator_defined in Hall. destruct Hall as (_ & Hd & Hin).
    apply clear_names_fields in Hs. destruct Hs as (_ & Hop & _).
    destruct (defuse_activation_function_total (interpreter model) l (fst o)
                ltac:(congruence) Hd Hin) as (r & Hr).
    congruence.
Qed.
End DefuseBuiltGraph.

Lemma interpreter_of_echoes tensors inputs outputs :
  Graph.echoes_index (Samples.interpreter_of tensors inputs outputs).
Proof.
  intros i d H. cbn in H. unfold Samples.catalog in H.
  destruct (find (fun d0 => index d0 =? i) tensors) as [d0|] eqn:E;
    [|discriminate].
  injection H as <-. apply find_some in E. apply Z.eqb_eq, E.
Qed.

Lemma defusion_fails_only_in_a_layer_witness :
  exists graph',
    outcome (Tree.init (ext := Samples.layers) Samples.conv_relu true)
    = Ok graph'.
Proof.
  assert (H : exists graph,
            outcome (Tree.init (ext := Samples.layers) Samples.conv_relu false)
            = Ok graph) by (eexists; vm_compute; reflexivity).
  destruct H as (graph & H).
  destruct (@defusion_fails_only_in_a_layer Samples.layers Samples.conv_relu
              graph (interpreter_of_echoes _ _ _) H)
    as [Hok|(k & l0 & l & e & Hrest)].
  - exact Hok.
  - destruct Hrest as (_ & _ & _ & _ & _ & _ & _ & _ & _ & Hraise).
    vm_compute in Hraise. discriminate Hraise.
Defined.

Lemma built_graph_output_edges_witness :
  exists graph relu square,
    outcome (Tree.init (ext := Samples.layers) Samples.relu_squared false)
    = Ok graph
    /\ nodes_get graph "relu" = Ok relu
    /\ nodes_get graph "square" = Ok square
    /\ (In "square"%string (output_nodes_name relu)
        <-> In "relu"%string (input_nodes_name square))
    /\ NoDup (output_nodes_name relu)
    /\ count_occ Z.eq_dec (output_nodes_idx relu) (node_idx square)
       = count_occ Z.eq_dec (input_nodes_idx square) (node_idx relu).
Proof.
  assert (H : exists graph relu square,
            outcome (Tree.init (ext := Samples.layers) Samples.relu_squared false)
            = Ok graph
            /\ nodes_get graph "relu" = Ok relu
            /\ nodes_get graph "square" = Ok square).
  { do 3 eexists. split; [vm_compute; reflexivity|].
    split; vm_compute; reflexivity. }
  destruct H as (graph & relu & square & Hg & Hr & Hs).
  exists graph, relu, square.
  split; [exact Hg|]. split; [exact Hr|]. split; [exact Hs|].
  apply (@built_graph_output_edges Samples.layers Samples.relu_squared graph
           "relu" "square" relu square (interpreter_of_echoes _ _ _) Hg Hr Hs).
Defined.

(* ================================================================== *)
(** * The de-fusion pass as a whole *)
(* ================================================================== *)



Section WholePass.
Context {ext : ExternalLayers}.
Variable interp : Interpreter.



End WholePass.


(* ================================================================== *)
(** * The lowering of the activation layers *)
(* ================================================================== *)

Section ActivationLowering.
Context {ext : ExternalLayers}.
Variable interp : Interpreter.

Lemma init_generate_of_operator prevs o d :
  get_tensor_details interp (Outputs_0 o) = Ok d ->
  Inputs o <> [] ->
  Forall (fun i => exists d, get_tensor_details interp i = Ok d) (Inputs o) ->
  exists inp,
    aact_layers.init_generate prevs (Some o) interp
    = Ok {| aact_layers.node_output_detail := d;
            aact_layers.node_input_detail := inp;
            aact_layers.onnx_node_name := tflite.name d;
            aact_layers.previous_onnx_node_names := prevs |}.
Proof.
  intros Hd Hne Hin. unfold aact_layers.init_generate, Inputs_0.
  destruct (Inputs o) as [|i rest]; [contradiction|].
  inversion Hin as [|? ? (inp & Hinp) _]; subst. cbn [hd].
  rewrite Hd, Hinp. exists inp. reflexivity.
Qed.

(** X13. An activation operator becomes one node of the target graph, named
    after the node of the source graph: for a layer that the node
    generator built from a RELU, RELU6, LOGISTIC or SOFTMAX operator with
    an input, the lowering returns a single Relu, Clip (with bounds 0 and
    6), Sigmoid or Softmax node whose name and single output are the name
    of the layer and whose inputs are the previous names it was given, no
    weight, and a shape annotation, with the shape remapped by the shape
    mapper, for Relu and Clip only. *)
Theorem activation_operator_lowers_to_one_node
    (o : Operator) (ty : BuiltinOperator.t) (layer : Layer) :
  Tree.node_generator o ty interp = Ok layer ->
  Inputs o <> [] ->
  exists d,
    get_tensor_details interp (Outputs_0 o) = Ok d
    /\ node_name layer = tflite.name d
    /\ forall prevs,
         (ty = BuiltinOperator.RELU ->
          generate interp layer prevs None
          = Ok ([aact_layers.make_node "Relu" (node_name layer) prevs
                   [node_name layer] []],
                [onnx.make_tensor_value_info (node_name layer) onnx.FLOAT
                   (utils.tflite2onnx_shape_map (shape d))],
                []))
         /\ (ty = BuiltinOperator.RELU6 ->
             generate interp layer prevs None
             = Ok ([aact_layers.make_node "Clip" (node_name layer) prevs
                      [node_name layer] aact_layers.clip_bounds],
                   [onnx.make_tensor_value_info (node_name layer) onnx.FLOAT
                      (utils.tflite2onnx_shape_map (shape d))],
                   []))
         /\ (ty = BuiltinOperator.LOGISTIC ->
             generate interp layer prevs None
             = Ok ([aact_layers.make_node "Sigmoid" (node_name layer) prevs
                      [node_name layer] []],
                   [], []))
         /\ (ty = BuiltinOperator.SOFTMAX ->
             generate interp layer prevs None
             = Ok ([aact_layers.make_node "Softmax" (node_name layer) prevs
                      [node_name layer] []],
                   [], [])).
Proof.
  intros Hgen Hne.
  destruct (node_generator_name _ _ _ _ Hgen) as (Hop & Hty & d & Hd & _ & Hname).
  assert (Hdef : exists l, Tree.node_generator o ty interp = Ok l) by eauto.
  apply node_generator_defined in Hdef. destruct Hdef as (_ & _ & Hin).
  exists d. split; [exact Hd|]. split; [exact Hname|].
  intros prevs.
  destruct (init_generate_of_operator prevs o d Hd Hne Hin) as (inp & Hg).
  repeat split; intros ->; unfold Tree.node_generator in Hgen;
    apply Layer_init_fields in Hgen; destruct Hgen as (Hc & _);
    unfold generate; rewrite Hc, Hop, Hg, Hname; reflexivity.
Qed.

(** X14. The node that the generator synthesizes for a fused RELU or RELU6 is
    lowered without regard to the previous names it is given: it becomes
    one Relu or Clip node, named after the operator's first output tensor
    with [_Fused] appended, that reads that tensor and writes its own
    name, with the shape annotation of that tensor remapped. *)
Theorem synthesized_node_reads_its_origin
    (t : ActivationFunctionType.t) (o : Operator) (ty : BuiltinOperator.t)
    (f : Layer) :
  outcome (aact_layers.defused_activation_node_generator t (Some o) ty interp)
  = Ok (Some f) ->
  Inputs o <> [] ->
  exists d kind attrs,
    get_tensor_details interp (Outputs_0 o) = Ok d
    /\ node_name f = (tflite.name d ++ "_Fused")%string
    /\ ((t = ActivationFunctionType.RELU /\ cls f = ReluDefused
         /\ kind = "Relu"%string /\ attrs = [])
        \/ (t = ActivationFunctionType.RELU6 /\ cls f = Relu6Defused
            /\ kind = "Clip"%string /\ attrs = aact_layers.clip_bounds))
    /\ forall prevs,
         generate interp f prevs None
         = Ok ([aact_layers.make_node kind (node_name f) [tflite.name d]
                  [node_name f] attrs],
               [onnx.make_tensor_value_info (node_name f) onnx.FLOAT
                  (utils.tflite2onnx_shape_map (shape d))],
               []).
Proof.
  intros Hgen Hne.
  assert (Hinit : exists c kind attrs,
            aact_layers.ActivationDefused_init c (Some o) ty interp = Ok f
            /\ ((t = ActivationFunctionType.RELU /\ c = ReluDefused
                 /\ kind = "Relu"%string /\ attrs = [])
                \/ (t = ActivationFunctionType.RELU6 /\ c = Relu6Defused
                    /\ kind = "Clip"%string
                    /\ attrs = aact_layers.clip_bounds))).
  { destruct t; cbn [aact_layers.defused_activation_node_generator] in Hgen;
      try discriminate.
    - destruct (aact_layers.ActivationDefused_init ReluDefused (Some o) ty interp)
        as [x|e] eqn:E; [|discriminate].
      rewrite bindM_lift_Ok in Hgen. cbn in Hgen. injection Hgen as <-.
      exists ReluDefused, "Relu"%string, []. auto 10.
    - destruct (aact_layers.ActivationDefused_init Relu6Defused (Some o) ty interp)
        as [x|e] eqn:E; [|discriminate].
      rewrite bindM_lift_Ok in Hgen. cbn in Hgen. injection Hgen as <-.
      exists Relu6Defused, "Clip"%string, aact_layers.clip_bounds. auto 10. }
  destruct Hinit as (c & kind & attrs & Hinit & Hkind).
  unfold aact_layers.ActivationDefused_init in Hinit.
  destruct (Layer_init c (Some o) ty interp) as [l|e] eqn:El; [|discriminate].
  cbn [Py.bind] in Hinit. injection Hinit as <-.
  destruct (Layer_init_fields _ _ _ _ _ El) as (Hc & Hop & _ & _ & _ & Hfields).
  destruct (Hfields o eq_refl) as (_ & d & Hd & _ & Hname).
  assert (Hdef : exists l, Layer_init c (Some o) ty interp = Ok l) by eauto.
  apply Layer_init_defined in Hdef. destruct Hdef as (_ & Hin).
  exists d, kind, attrs. split; [exact Hd|].
  split; [cbn; rewrite Hname; reflexivity|].
  split.
  { destruct Hkind as [(-> & -> & -> & ->)|(-> & -> & -> & ->)];
      [left|right]; cbn; rewrite Hc; auto. }
  intros prevs.
  destruct (init_generate_of_operator prevs o d Hd Hne Hin) as (inp & Hg).
  unfold generate. cbn [cls op set_node_name node_name].
  rewrite Hc, Hop, Hg.
  destruct Hkind as [(-> & -> & -> & ->)|(-> & -> & -> & ->)]; reflexivity.
Qed.
End ActivationLowering.

Lemma activation_operator_lowers_to_one_node_witness :
  exists layer,
    Tree.node_generator (Samples.operator [1] 2 ActivationFunctionType.NONE)
      BuiltinOperator.RELU6 (interpreter Samples.relu_relu6) = Ok layer
    /\ generate (ext := Samples.layers) (interpreter Samples.relu_relu6) layer
         ["relu"%string] None
       = Ok ([aact_layers.make_node "Clip" (node_name layer) ["relu"%string]
                [node_name layer] aact_layers.clip_bounds],
             [onnx.make_tensor_value_info (node_name layer) onnx.FLOAT
                (Some [1; 3; 7; 7])],
             []).
Proof.
  assert (H : exists layer,
            Tree.node_generator (Samples.operator [1] 2 ActivationFunctionType.NONE)
              BuiltinOperator.RELU6 (interpreter Samples.relu_relu6) = Ok layer)
    by (eexists; vm_compute; reflexivity).
  destruct H as (layer & H). exists layer. split; [exact H|].
  destruct (@activation_operator_lowers_to_one_node Samples.layers
              (interpreter Samples.relu_relu6)
              (Samples.operator [1] 2 ActivationFunctionType.NONE)
              BuiltinOperator.RELU6 layer H ltac:(discriminate))
    as (d & Hd & _ & Hlow).
  vm_compute in Hd. injection Hd as <-.
  apply (proj1 (proj2 (Hlow ["relu"%string])) eq_refl).
Defined.

Lemma synthesized_node_reads_its_origin_witness :
  exists f,
    outcome (aact_layers.defused_activation_node_generator
               ActivationFunctionType.RELU6
               (Some (Samples.operator [0; 1; 2] 3 ActivationFunctionType.RELU6))
               BuiltinOperator.CONV_2D (interpreter Samples.conv_relu))
    = Ok (Some f)
    /\ node_name f = "conv_Fused"%string
    /\ generate (ext := Samples.layers) (interpreter Samples.conv_relu) f
         ["anything"%string] None
       = generate (ext := Samples.layers) (interpreter Samples.conv_relu) f
           [] None.
Proof.
  assert (H : exists f,
            outcome (aact_layers.defused_activation_node_generator
                       ActivationFunctionType.RELU6
                       (Some (Samples.operator [0; 1; 2] 3
                                ActivationFunctionType.RELU6))
                       BuiltinOperator.CONV_2D (interpreter Samples.conv_relu))
            = Ok (Some f))
    by (eexists; vm_compute; reflexivity).
  destruct H as (f & H). exists f. split; [exact H|].
  destruct (@synthesized_node_reads_its_origin Samples.layers
              (interpreter Samples.conv_relu) ActivationFunctionType.RELU6
              (Samples.operator [0; 1; 2] 3 ActivationFunctionType.RELU6)
              BuiltinOperator.CONV_2D f H ltac:(discriminate))
    as (d & kind & attrs & Hd & Hname & _ & Hlow).
  vm_compute in Hd. injection Hd as <-.
  split; [exact Hname|]. rewrite !Hlow. reflexivity.
Defined.

(* ================================================================== *)
(** * The driver: what is saved, and when *)
(* ================================================================== *)

Section Saved.
Context {ext : ExternalLayers}.

Lemma lower_node_Ok_trace interp flag model_input_name st entry st' :
  outcome (tflite2onnx.lower_node interp flag model_input_name st entry)
  = Ok st' ->
  exists prev,
    tflite2onnx.prev_node_name (tflite2onnx.op_name__sub_op_name__table st)
      model_input_name (snd entry) = Ok prev
    /\ trace (tflite2onnx.lower_node interp flag model_input_name st entry)
       = [Lower (snd entry) [prev]
            (if tflite2onnx.takes_table (op_type (snd entry))
             then Some (tflite2onnx.op_name__sub_op_name__table st)
             else None)].
Proof.
  destruct entry as [key layer]. intros H.
  pose proof (lower_node_trace interp flag model_input_name st key layer) as Ht.
  cbn [snd]. unfold tflite2onnx.lower_node in H. cbn [fst snd] in H.
  destruct (tflite2onnx.prev_node_name _ model_input_name layer) as [prev|e];
    [|discriminate].
  exists prev. split; [reflexivity|exact Ht].
Qed.

Lemma lower_loop_calls interp flag model_input_name (graph : Nodes) :
  forall st st',
    outcome (for_each (tflite2onnx.lower_node interp flag model_input_name)
               graph st) = Ok st' ->
    Forall2 (fun ev kv => exists prevs table, ev = Lower (snd kv) prevs table)
            (trace (for_each (tflite2onnx.lower_node interp flag
                                model_input_name) graph st))
            graph.
Proof.
  induction graph as [|kv graph IH]; intros st st' H; cbn [for_each] in *.
  - constructor.
  - destruct (tflite2onnx.lower_node interp flag model_input_name st kv)
      as [[st1|e] t1] eqn:E; rewrite ?bindM_Ok, ?bindM_Raise in *;
      [|discriminate].
    cbn [outcome fst] in H. cbn [trace snd].
    assert (Ho : outcome (tflite2onnx.lower_node interp flag model_input_name
                            st kv) = Ok st1) by (rewrite E; reflexivity).
    destruct (lower_node_Ok_trace _ _ _ _ _ _ Ho) as (prev & _ & Ht).
    rewrite E in Ht. cbn in Ht. rewrite Ht. cbn [app].
    constructor; [eauto|]. apply (IH st1 st'). exact H.
Qed.

(** What [main] has saved, when it has saved something. *)
Lemma main_saved model flag g :
  In (Save g) (trace (tflite2onnx.main model flag)) ->
  exists d rest graph st0 st,
    get_input_details (interpreter model) = d :: rest
    /\ Tree.init model false = (Ok graph, [])
    /\ tflite2onnx.onnx_node_list st0
       = (if flag
          then [tflite2onnx.build_head_transpose_node_for_channel_last_2_channel_first
                  (tflite.name d)]
          else [])
    /\ tflite2onnx.output_tensor_value_info st0 = []
    /\ outcome (for_each (tflite2onnx.lower_node (interpreter model) flag
                            (tflite.name d)) graph st0) = Ok st
    /\ g = {| onnx.node := tflite2onnx.onnx_node_list st;
              onnx.graph_name := "cnn_test";
              onnx.graph_input :=
                utils_onnx.make_kneron_valid_onnx_input
                  (onnx.make_tensor_value_info (tflite.name d) onnx.FLOAT
                     (if flag then Some (shape d)
                      else utils.tflite2onnx_shape_map (shape d)))
                  (tflite2onnx.onnx_weight_node_list st);
              onnx.graph_output := tflite2onnx.output_tensor_value_info st;
              onnx.initializer := tflite2onnx.onnx_weight_node_list st;
              onnx.value_info := tflite2onnx.inner_node_shape_value_info st |}.
Proof.
  intros Hsave.
  destruct (main_cases model flag)
    as [(e & He)|(d & rest & graph & st0 & Hin & Hg & Hn0 & Ho0 & _ & Hmain)].
  { rewrite He in Hsave. destruct Hsave. }
  rewrite Hmain in Hsave.
  pose proof (loop_only_lowers (interpreter model) flag (tflite.name d)
                graph st0) as Hlowers.
  destruct (for_each _ graph st0) as [[st|e] t] eqn:Eloop;
    rewrite ?bindM_Ok, ?bindM_Raise in Hsave; cbn in Hsave, Hlowers;
    rewrite Forall_forall in Hlowers.
  2:{ destruct (Hlowers _ Hsave). }
  apply in_app_or in Hsave.
  destruct Hsave as [Hsave|[Hsave|[]]]; [destruct (Hlowers _ Hsave)|].
  injection Hsave as <-.
  exists d, rest, graph, st0, st.
  split; [exact Hin|]. split; [exact Hg|]. split; [exact Hn0|].
  split; [exact Ho0|]. split; [rewrite Eloop; reflexivity|reflexivity].
Qed.

(** X15. [main] saves a model as the last thing it does, or not at all: when it
    returns, it has called the lowering routine of every node of the
    graph once, in the order of the graph, and then saved one model; when
    it raises, nothing was saved, whatever was lowered before; and a
    model without input details makes it raise [IndexError] before the
    graph is built. *)
Theorem main_saves_last_or_not_at_all (model : Model) (flag : bool) :
  (get_input_details (interpreter model) = [] ->
   tflite2onnx.main model flag = (Raise IndexError, []))
  /\ (forall e,
        outcome (tflite2onnx.main model flag) = Raise e ->
        Forall (fun ev => exists layer prevs table, ev = Lower layer prevs table)
               (trace (tflite2onnx.main model flag)))
  /\ (outcome (tflite2onnx.main model flag) = Ok tt ->
      exists graph calls g,
        outcome (Tree.init model false) = Ok graph
        /\ trace (tflite2onnx.main model flag) = calls ++ [Save g]
        /\ Forall2 (fun ev kv => exists prevs table,
                      ev = Lower (snd kv) prevs table)
                   calls graph).
Proof.
  split; [|split].
  - intros H. unfold tflite2onnx.main. rewrite H. reflexivity.
  - intros e He.
    destruct (main_cases model flag)
      as [(e' & ->)|(d & rest & graph & st0 & _ & _ & _ & _ & _ & Hmain)];
      [constructor|].
    rewrite Hmain in *.
    pose proof (loop_only_lowers (interpreter model) flag (tflite.name d)
                  graph st0) as Hlowers.
    destruct (for_each _ graph st0) as [[st|e'] t] eqn:Eloop;
      rewrite ?bindM_Ok, ?bindM_Raise in *; [discriminate|].
    cbn in Hlowers |- *. apply Forall_impl with (2 := Hlowers).
    intros [m|l p tb|g] Hev; try destruct Hev. eauto.
  - intros Hok.
    destruct (main_cases model flag)
      as [(e' & He')|(d & rest & graph & st0 & _ & Hg & _ & _ & _ & Hmain)].
    { rewrite He' in Hok. discriminate. }
    rewrite Hmain in *.
    pose proof (lower_loop_calls (interpreter model) flag (tflite.name d)
                  graph st0) as Hcalls.
    destruct (for_each _ graph st0) as [[st|e'] t] eqn:Eloop;
      rewrite ?bindM_Ok, ?bindM_Raise in *; [|discriminate].
    exists graph, t. eexists. split; [rewrite Hg; reflexivity|].
    split; [reflexivity|]. apply (Hcalls st). reflexivity.
Qed.

(** X16. The inputs of the saved model: the model's first input, and no other
    input of the model, declared with its source shape when the boundary
    conversion is on and with the remapped shape when it is off, followed
    by one declaration for each initializer, with its name, element type
    and dimensions, in the order of the initializers; the graph is named
    [cnn_test]. *)
Theorem saved_inputs_are_the_input_and_the_initializers
    (model : Model) (flag : bool) (g : onnx.GraphProto) :
  In (Save g) (trace (tflite2onnx.main model flag)) ->
  exists d rest,
    get_input_details (interpreter model) = d :: rest
    /\ onnx.graph_name g = "cnn_test"%string
    /\ onnx.graph_input g
       = onnx.make_tensor_value_info (tflite.name d) onnx.FLOAT
           (if flag then Some (shape d)
            else utils.tflite2onnx_shape_map (shape d))
         :: map (fun t => onnx.make_tensor_value_info (onnx.t_name t)
                            (onnx.t_data_type t) (Some (onnx.t_dims t)))
                (onnx.initializer g).
Proof.
  intros Hsave.
  destruct (main_saved model flag g Hsave)
    as (d & rest & graph & st0 & st & Hin & _ & _ & _ & _ & ->).
  exists d, rest. split; [exact Hin|]. split; reflexivity.
Qed.
End Saved.

Lemma saved_inputs_are_the_input_and_the_initializers_witness :
  exists g,
    In (Save g) (trace (tflite2onnx.main (ext := Samples.layers)
                          Samples.relu_relu6 true))
    /\ onnx.graph_name g = "cnn_test"%string
    /\ onnx.graph_input g
       = [onnx.make_tensor_value_info "input" onnx.FLOAT (Some [1; 7; 7; 3])].
Proof.
  assert (H : exists g,
            In (Save g) (trace (tflite2onnx.main (ext := Samples.layers)
                                  Samples.relu_relu6 true))
            /\ onnx.initializer g = []).
  { eexists. split; [vm_compute; right; right; left; reflexivity|].
    reflexivity. }
  destruct H as (g & Hg & Hi). exists g. split; [exact Hg|].
  destruct (@saved_inputs_are_the_input_and_the_initializers Samples.layers
              Samples.relu_relu6 true g Hg) as (d & rest & Hd & Hname & Hinput).
  split; [exact Hname|]. rewrite Hinput, Hi.
  vm_compute in Hd. injection Hd as <- _. reflexivity.
Defined.

(* ================================================================== *)
(** * The driver: one turn of the loop *)
(* ================================================================== *)

Section Turn.
Context {ext : ExternalLayers}.
Variables (interp : Interpreter) (flag : bool) (model_input_name : string).

(** What a turn of the loop that returns has done to the lists and to the
    table. *)
Lemma lower_node_step st key layer st' :
  outcome (tflite2onnx.lower_node interp flag model_input_name st (key, layer))
  = Ok st' ->
  exists prev nodes val weight,
    tflite2onnx.prev_node_name (tflite2onnx.op_name__sub_op_name__table st)
      model_input_name layer = Ok prev
    /\ generate interp layer [prev]
         (if tflite2onnx.takes_table (op_type layer)
          then Some (tflite2onnx.op_name__sub_op_name__table st) else None)
       = Ok (nodes, val, weight)
    /\ tflite2onnx.op_name__sub_op_name__table st'
       = dict_set String.eqb (tflite2onnx.op_name__sub_op_name__table st) key
           (map onnx.name
                (filter (fun n => negb (tflite2onnx.is_constant n)) nodes))
    /\ tflite2onnx.onnx_weight_node_list st'
       = tflite2onnx.onnx_weight_node_list st ++ weight
    /\ tflite2onnx.inner_node_shape_value_info st'
       = tflite2onnx.inner_node_shape_value_info st ++ val
    /\ match utils_onnx.get_output_node_info_by_name_if_exist key interp with
       | None =>
           tflite2onnx.output_tensor_value_info st'
           = tflite2onnx.output_tensor_value_info st
           /\ tflite2onnx.onnx_node_list st'
              = tflite2onnx.onnx_node_list st ++ nodes
       | Some info =>
           exists end_node,
             last_item (filter (fun n => negb (tflite2onnx.is_constant n)) nodes)
             = Ok end_node
             /\ if flag then
                  let r :=
                    tflite2onnx.build_button_transpose_node_for_channel_first_2_channel_last
                      end_node info in
                  tflite2onnx.output_tensor_value_info st'
                  = tflite2onnx.output_tensor_value_info st ++ [fst (fst r)]
                  /\ tflite2onnx.onnx_node_list st'
                     = tflite2onnx.onnx_node_list st
                       ++ tflite2onnx.update_last
                            (fun n => negb (tflite2onnx.is_constant n))
                            (fun _ => snd r) nodes
                       ++ match snd (fst r) with
                          | Some t => [t]
                          | None => []
                          end
                else
                  let r := tflite2onnx.set_end_node end_node info in
                  tflite2onnx.output_tensor_value_info st'
                  = tflite2onnx.output_tensor_value_info st ++ [fst r]
                  /\ tflite2onnx.onnx_node_list st'
                     = tflite2onnx.onnx_node_list st
                       ++ tflite2onnx.update_last
                            (fun n => negb (tflite2onnx.is_constant n))
                            (fun _ => snd r) nodes
       end.
Proof.
  intros H. unfold tflite2onnx.lower_node in H. cbn [fst snd] in H.
  destruct (tflite2onnx.prev_node_name _ model_input_name layer)
    as [prev|e]; [|discriminate].
  rewrite bindM_lift_Ok in H. unfold emit in H. rewrite bindM_Ok in H.
  cbn [outcome fst] in H.
  destruct (generate interp layer [prev]
              (if tflite2onnx.takes_table (op_type layer)
               then Some (tflite2onnx.op_name__sub_op_name__table st)
               else None))
    as [[[nodes val] weight]|e] eqn:Egen; [|discriminate].
  rewrite bindM_lift_Ok in H. cbn [fst snd] in H.
  exists prev, nodes, val, weight. split; [reflexivity|]. split; [exact Egen|].
  destruct (utils_onnx.get_output_node_info_by_name_if_exist key interp)
    as [info|].
  - destruct (last_item _) as [end_node|e] eqn:Elast; [|discriminate].
    rewrite bindM_lift_Ok in H. destruct flag; cbn [outcome fst ret] in H;
      injection H as <-; cbn;
      (split; [reflexivity|]); (split; [reflexivity|]);
      (split; [reflexivity|]); exists end_node;
      (split; [reflexivity|]); rewrite <- ?app_assoc; split; reflexivity.
  - cbn [outcome fst ret] in H. injection H as <-. cbn.
    rewrite app_nil_r. auto.
Qed.
End Turn.

Lemma for_each_cons_Ok {A S} (body : S -> A -> M S) (a : A) (l : list A)
    (st st' : S) :
  outcome (for_each body (a :: l) st) = Ok st' ->
  exists st1,
    outcome (body st a) = Ok st1 /\ outcome (for_each body l st1) = Ok st'.
Proof.
  cbn [for_each]. destruct (body st a) as [[st1|e] t] eqn:E;
    rewrite ?bindM_Ok, ?bindM_Raise; [|discriminate].
  cbn [outcome fst]. intros H. exists st1. auto.
Qed.

Lemma build_button_value_info end_node info :
  fst (fst (tflite2onnx.build_button_transpose_node_for_channel_first_2_channel_last
              end_node info))
  = onnx.make_tensor_value_info ("out_" ++ onnx.name end_node) onnx.FLOAT
      (Some (shape info)).
Proof.
  unfold tflite2onnx.build_button_transpose_node_for_channel_first_2_channel_last.
  cbv zeta. destruct (_ =? 4)%nat; [reflexivity|].
  destruct (_ =? 3)%nat; reflexivity.
Qed.

(* ================================================================== *)
(** * The driver: the turns of the loop *)
(* ================================================================== *)

(** The last element of [l] that satisfies [p] splits [l], and
    [update_last] writes at that place. *)
Lemma last_of_filter_splits {A} (p : A -> bool) (l : list A) (e : A) :
  last_item (filter p l) = Ok e ->
  exists before after,
    l = before ++ e :: after
    /\ p e = true
    /\ Forall (fun a => p a = false) after
    /\ forall f, tflite2onnx.update_last p f l = before ++ f e :: after.
Proof.
  induction l as [|a l IH]; intros H; [discriminate|].
  cbn [filter] in H. cbn [tflite2onnx.update_last].
  destruct (p a) eqn:Ea; cbn [andb].
  - destruct (existsb p l) eqn:Eex; cbn [negb].
    + assert (Hlast : last_item (a :: filter p l) = last_item (filter p l)).
      { apply existsb_exists in Eex. destruct Eex as (x & Hx & Hpx).
        assert (Hin : In x (filter p l)) by (apply filter_In; auto).
        unfold last_item. cbn [rev].
        destruct (rev (filter p l)) as [|b r] eqn:Er; [|reflexivity].
        apply in_rev in Hin. rewrite Er in Hin. destruct Hin. }
      rewrite Hlast in H.
      destruct (IH H) as (before & after & Hl & He & Hafter & Hupd).
      exists (a :: before), after. rewrite Hl at 1.
      split; [reflexivity|]. split; [exact He|]. split; [exact Hafter|].
      intros f. rewrite Hupd. reflexivity.
    + assert (Hnone : Forall (fun x => p x = false) l).
      { apply Forall_forall. intros x Hx.
        destruct (p x) eqn:Epx; [|reflexivity].
        assert (Hex : existsb p l = true) by (apply existsb_exists; eauto).
        congruence. }
      assert (Hf : filter p l = []).
      { clear - Hnone. induction Hnone as [|x l Hx _ IH']; [reflexivity|].
        cbn. rewrite Hx. exact IH'. }
      rewrite Hf in H. cbn in H. injection H as <-.
      exists [], l. split; [reflexivity|]. split; [exact Ea|].
      split; [exact Hnone|]. reflexivity.
  - destruct (IH H) as (before & after & Hl & He & Hafter & Hupd).
    exists (a :: before), after. rewrite Hl at 1.
    split; [reflexivity|]. split; [exact He|]. split; [exact Hafter|].
    intros f. rewrite Hupd. reflexivity.
Qed.

Section Turns.
Context {ext : ExternalLayers}.
Variables (interp : Interpreter) (flag : bool) (model_input_name : string).

(** A loop that returns, turn by turn: the call of each turn, what it
    returned, the output it declared and the nodes it added. *)
Lemma lower_loop_turns (graph : Nodes) :
  forall st st',
    outcome (for_each (tflite2onnx.lower_node interp flag model_input_name)
               graph st) = Ok st' ->
    exists turns outs segments,
      map (fun t => (tflite2onnx.turn_key t, tflite2onnx.turn_layer t)) turns
      = graph
      /\ trace (for_each (tflite2onnx.lower_node interp flag model_input_name)
                  graph st)
         = map (fun t => Lower (tflite2onnx.turn_layer t)
                           [tflite2onnx.turn_prev_node_name t]
                           (tflite2onnx.turn_table t)) turns
      /\ Forall
           (fun t =>
              generate interp (tflite2onnx.turn_layer t)
                [tflite2onnx.turn_prev_node_name t] (tflite2onnx.turn_table t)
              = Ok (tflite2onnx.turn_nodes t, tflite2onnx.turn_val t,
                    tflite2onnx.turn_weight t))
           turns
      /\ tflite2onnx.output_tensor_value_info st'
         = tflite2onnx.output_tensor_value_info st ++ outs
      /\ Forall2
           (fun vi t =>
              exists info end_node,
                utils_onnx.get_output_node_info_by_name_if_exist
                  (tflite2onnx.turn_key t) interp = Some info
                /\ In info (get_output_details interp)
                /\ tflite.name info = tflite2onnx.turn_key t
                /\ last_item (filter (fun n => negb (tflite2onnx.is_constant n))
                                (tflite2onnx.turn_nodes t))
                   = Ok end_node
                /\ vi = onnx.make_tensor_value_info
                          ("out_" ++ onnx.name end_node) onnx.FLOAT
                          (if flag then Some (shape info)
                           else utils.tflite2onnx_shape_map (shape info)))
           outs
           (filter (fun t =>
                      match utils_onnx.get_output_node_info_by_name_if_exist
                              (tflite2onnx.turn_key t) interp with
                      | Some _ => true
                      | None => false
                      end) turns)
      /\ tflite2onnx.onnx_node_list st'
         = tflite2onnx.onnx_node_list st ++ List.concat segments
      /\ Forall2
           (fun t segment =>
              match utils_onnx.get_output_node_info_by_name_if_exist
                      (tflite2onnx.turn_key t) interp with
              | None => segment = tflite2onnx.turn_nodes t
              | Some info =>
                  exists before end_node after,
                    tflite2onnx.turn_nodes t = before ++ end_node :: after
                    /\ tflite2onnx.is_constant end_node = false
                    /\ Forall (fun n => tflite2onnx.is_constant n = true) after
                    /\ segment
                       = if flag then
                           if (List.length (shape info) =? 4)%nat then
                             tflite2onnx.turn_nodes t
                             ++ [aact_layers.make_node "Transpose"
                                   ("transpose_node_output_" ++ onnx.name end_node)
                                   [onnx.name end_node]
                                   ["out_" ++ onnx.name end_node]%string
                                   [("perm"%string, onnx.ints [0; 2; 3; 1])]]
                           else if (List.length (shape info) =? 3)%nat then
                             tflite2onnx.turn_nodes t
                             ++ [aact_layers.make_node "Transpose"
                                   ("transpose_node_output_" ++ onnx.name end_node)
                                   [onnx.name end_node]
                                   ["out_" ++ onnx.name end_node]%string
                                   [("perm"%string, onnx.ints [0; 2; 1])]]
                           else
                             before
                             ++ onnx.set_output end_node
                                  ["out_" ++ onnx.name end_node]%string
                                :: after
                         else
                           before
                           ++ onnx.set_output end_node
                                ["out_" ++ onnx.name end_node]%string
                              :: after
              end)
           turns segments.
Proof.
  induction graph as [|[key layer] graph IH]; intros st st' H.
  - cbn in H. injection H as <-. exists [], [], []. cbn. rewrite !app_nil_r.
    repeat split; constructor.
  - assert (Htrace :
        trace (for_each (tflite2onnx.lower_node interp flag model_input_name)
                 ((key, layer) :: graph) st)
        = trace (tflite2onnx.lower_node interp flag model_input_name st
                   (key, layer))
          ++ match outcome (tflite2onnx.lower_node interp flag
                              model_input_name st (key, layer)) with
             | Ok st1 =>
                 trace (for_each (tflite2onnx.lower_node interp flag
                                    model_input_name) graph st1)
             | Raise _ => []
             end).
    { cbn [for_each].
      destruct (tflite2onnx.lower_node interp flag model_input_name st
                  (key, layer)) as [[s|e] t];
        rewrite ?bindM_Ok, ?bindM_Raise; cbn; rewrite ?app_nil_r; reflexivity. }
    apply for_each_cons_Ok in H. destruct H as (st1 & Hstep & Hrest).
    rewrite Hstep in Htrace.
    destruct (IH _ _ Hrest)
      as (turns & outs & segments & Hkv & Htr & Hgen & Houts & HFo & Hnodes & HFs).
    destruct (lower_node_Ok_trace _ _ _ _ _ _ Hstep) as (prev' & Hprev' & Hcall).
    cbn [snd] in Hprev', Hcall.
    apply lower_node_step in Hstep.
    destruct Hstep
      as (prev & nodes & val & weight & Hprev & Hg & _ & _ & _ & Hout).
    rewrite Hprev in Hprev'. injection Hprev' as <-.
    rewrite Hcall, Htr in Htrace.
    set (turn := {| tflite2onnx.turn_key := key;
                    tflite2onnx.turn_layer := layer;
                    tflite2onnx.turn_prev_node_name := prev;
                    tflite2onnx.turn_table :=
                      if tflite2onnx.takes_table (op_type layer)
                      then Some (tflite2onnx.op_name__sub_op_name__table st)
                      else None;
                    tflite2onnx.turn_nodes := nodes;
                    tflite2onnx.turn_val := val;
                    tflite2onnx.turn_weight := weight |}).
    destruct (utils_onnx.get_output_node_info_by_name_if_exist key interp)
      as [info|] eqn:Einfo.
    + destruct Hout as (end_node & Hlast & Hout).
      assert (Hinfo : In info (get_output_details interp)
                      /\ tflite.name info = key).
      { unfold utils_onnx.get_output_node_info_by_name_if_exist in Einfo.
        apply find_some in Einfo. destruct Einfo as (Hin & Heq).
        apply String.eqb_eq in Heq. auto. }
      destruct Hinfo as (Hin & Hname).
      destruct (last_of_filter_splits _ _ _ Hlast)
        as (before & after & Hsplit & Hend & Hafter & Hupd).
      apply negb_true_iff in Hend.
      assert (Hafter' : Forall (fun n => tflite2onnx.is_constant n = true) after).
      { apply Forall_impl with (2 := Hafter). intros n Hn.
        apply negb_false_iff in Hn. exact Hn. }
      set (renamed := before
                      ++ onnx.set_output end_node
                           ["out_" ++ onnx.name end_node]%string
                         :: after).
      set (transposed := fun perm =>
             nodes
             ++ [aact_layers.make_node "Transpose"
                   ("transpose_node_output_" ++ onnx.name end_node)
                   [onnx.name end_node] ["out_" ++ onnx.name end_node]%string
                   [("perm"%string, onnx.ints perm)]]).
      exists (turn :: turns),
        (onnx.make_tensor_value_info ("out_" ++ onnx.name end_node) onnx.FLOAT
           (if flag then Some (shape info)
            else utils.tflite2onnx_shape_map (shape info)) :: outs),
        ((if flag then
            if (List.length (shape info) =? 4)%nat then transposed [0; 2; 3; 1]
            else if (List.length (shape info) =? 3)%nat then transposed [0; 2; 1]
            else renamed
          else renamed) :: segments).
      split; [cbn [map]; rewrite Hkv; reflexivity|].
      split; [exact Htrace|].
      split; [constructor; [exact Hg|exact Hgen]|].
      split.
      { rewrite Houts. destruct flag.
        - destruct Hout as (Hout & _). rewrite build_button_value_info in Hout.
          rewrite Hout, <- app_assoc. reflexivity.
        - destruct Hout as (Hout & _). rewrite Hout, <- app_assoc. reflexivity. }
      split.
      { cbn [filter tflite2onnx.turn_key turn]. rewrite Einfo.
        constructor; [|exact HFo].
        exists info, end_node. cbn [tflite2onnx.turn_key tflite2onnx.turn_nodes turn].
        auto 10. }
      split.
      { cbn [List.concat]. rewrite Hnodes, app_assoc. f_equal.
        destruct flag; destruct Hout as (_ & Hout); rewrite Hout, Hupd;
          [|reflexivity].
        unfold tflite2onnx.build_button_transpose_node_for_channel_first_2_channel_last.
        cbv zeta. subst transposed. cbv beta.
        destruct (List.length (shape info) =? 4)%nat;
          [cbn [snd fst]; rewrite <- Hsplit; reflexivity|].
        destruct (List.length (shape info) =? 3)%nat;
          [cbn [snd fst]; rewrite <- Hsplit; reflexivity|].
        cbn [snd fst]. rewrite app_nil_r. reflexivity. }
      constructor; [|exact HFs].
      cbn [tflite2onnx.turn_key tflite2onnx.turn_nodes turn]. rewrite Einfo.
      exists before, end_node, after.
      split; [exact Hsplit|]. split; [exact Hend|]. split; [exact Hafter'|].
      reflexivity.
    + destruct Hout as (Hout & Hlist).
      exists (turn :: turns), outs, (nodes :: segments).
      split; [cbn [map]; rewrite Hkv; reflexivity|].
      split; [exact Htrace|].
      split; [constructor; [exact Hg|exact Hgen]|].
      split; [rewrite Houts, Hout; reflexivity|].
      split; [cbn [filter tflite2onnx.turn_key turn]; rewrite Einfo; exact HFo|].
      split; [cbn [List.concat]; rewrite Hnodes, Hlist, app_assoc; reflexivity|].
      constructor; [|exact HFs].
      cbn [tflite2onnx.turn_key tflite2onnx.turn_nodes turn]. rewrite Einfo.
      reflexivity.
Qed.
End Turns.

Section SavedTurns.
Context {ext : ExternalLayers}.

(** What [main] has saved, turn by turn. *)
Lemma main_saved_turns model flag g :
  In (Save g) (trace (tflite2onnx.main model flag)) ->
  exists d rest turns segments,
    get_input_details (interpreter model) = d :: rest
    /\ hd_error (onnx.graph_input g)
       = Some (onnx.make_tensor_value_info (tflite.name d) onnx.FLOAT
                 (if flag then Some (shape d)
                  else utils.tflite2onnx_shape_map (shape d)))
    /\ outcome (Tree.init model false)
       = Ok (map (fun t => (tflite2onnx.turn_key t, tflite2onnx.turn_layer t))
                 turns)
    /\ trace (tflite2onnx.main model flag)
       = map (fun t => Lower (tflite2onnx.turn_layer t)
                         [tflite2onnx.turn_prev_node_name t]
                         (tflite2onnx.turn_table t)) turns
         ++ [Save g]
    /\ Forall
         (fun t =>
            generate (interpreter model) (tflite2onnx.turn_layer t)
              [tflite2onnx.turn_prev_node_name t] (tflite2onnx.turn_table t)
            = Ok (tflite2onnx.turn_nodes t, tflite2onnx.turn_val t,
                  tflite2onnx.turn_weight t))
         turns
    /\ Forall2
         (fun vi t =>
            exists info end_node,
              utils_onnx.get_output_node_info_by_name_if_exist
                (tflite2onnx.turn_key t) (interpreter model) = Some info
              /\ In info (get_output_details (interpreter model))
              /\ tflite.name info = tflite2onnx.turn_key t
              /\ last_item (filter (fun n => negb (tflite2onnx.is_constant n))
                              (tflite2onnx.turn_nodes t))
                 = Ok end_node
              /\ vi = onnx.make_tensor_value_info
                        ("out_" ++ onnx.name end_node) onnx.FLOAT
                        (if flag then Some (shape info)
                         else utils.tflite2onnx_shape_map (shape info)))
         (onnx.graph_output g)
         (filter (fun t =>
                    match utils_onnx.get_output_node_info_by_name_if_exist
                            (tflite2onnx.turn_key t) (interpreter model) with
                    | Some _ => true
                    | None => false
                    end) turns)
    /\ onnx.node g
       = (if flag
          then [tflite2onnx.build_head_transpose_node_for_channel_last_2_channel_first
                  (tflite.name d)]
          else [])
         ++ List.concat segments
    /\ Forall2
         (fun t segment =>
            match utils_onnx.get_output_node_info_by_name_if_exist
                    (tflite2onnx.turn_key t) (interpreter model) with
            | None => segment = tflite2onnx.turn_nodes t
            | Some info =>
                exists before end_node after,
                  tflite2onnx.turn_nodes t = before ++ end_node :: after
                  /\ tflite2onnx.is_constant end_node = false
                  /\ Forall (fun n => tflite2onnx.is_constant n = true) after
                  /\ segment
                     = if flag then
                         if (List.length (shape info) =? 4)%nat then
                           tflite2onnx.turn_nodes t
                           ++ [aact_layers.make_node "Transpose"
                                 ("transpose_node_output_" ++ onnx.name end_node)
                                 [onnx.name end_node]
                                 ["out_" ++ onnx.name end_node]%string
                                 [("perm"%string, onnx.ints [0; 2; 3; 1])]]
                         else if (List.length (shape info) =? 3)%nat then
                           tflite2onnx.turn_nodes t
                           ++ [aact_layers.make_node "Transpose"
                                 ("transpose_node_output_" ++ onnx.name end_node)
                                 [onnx.name end_node]
                                 ["out_" ++ onnx.name end_node]%string
                                 [("perm"%string, onnx.ints [0; 2; 1])]]
                         else
                           before
                           ++ onnx.set_output end_node
                                ["out_" ++ onnx.name end_node]%string
                              :: after
                       else
                         before
                         ++ onnx.set_output end_node
                              ["out_" ++ onnx.name end_node]%string
                            :: after
            end)
         turns segments.
Proof.
  intros Hsave.
  destruct (main_cases model flag)
    as [(e & He)|(d & rest & graph & st0 & Hin & Hg & Hn0 & Ho0 & _ & Hmain)].
  { rewrite He in Hsave. destruct Hsave. }
  rewrite Hmain in Hsave. rewrite Hmain.
  pose proof (loop_only_lowers (interpreter model) flag (tflite.name d)
                graph st0) as Hlowers.
  pose proof (lower_loop_turns (interpreter model) flag (tflite.name d)
                graph st0) as Hturns.
  destruct (for_each _ graph st0) as [[st|e] t] eqn:Eloop;
    rewrite ?bindM_Ok, ?bindM_Raise in Hsave; cbn in Hsave, Hlowers;
    rewrite Forall_forall in Hlowers.
  2:{ destruct (Hlowers _ Hsave). }
  apply in_app_or in Hsave.
  destruct Hsave as [Hsave|[Hsave|[]]]; [destruct (Hlowers _ Hsave)|].
  injection Hsave as <-.
  destruct (Hturns st eq_refl)
    as (turns & outs & segments & Hkv & Htr & Hgen & Houts & HFo & Hnodes & HFs).
  cbn [trace snd] in Htr. subst t graph.
  exists d, rest, turns, segments.
  split; [exact Hin|]. split; [reflexivity|].
  split; [rewrite Hg; reflexivity|].
  split; [rewrite bindM_Ok; reflexivity|].
  split; [exact Hgen|].
  cbn [onnx.graph_output onnx.node]. rewrite Houts, Ho0, Hnodes, Hn0.
  split; [exact HFo|]. split; [reflexivity|exact HFs].
Qed.
End SavedTurns.

(* ================================================================== *)
(** * The driver: the outputs of the saved model *)
(* ================================================================== *)

Section SavedOutputs.
Context {ext : ExternalLayers}.

(** X17. The outputs of the saved model follow the graph, not the list of the
    model's outputs.  [main] that has saved a model has made one lowering
    call for each node of the graph, in the order of the graph, and each
    call has returned; there is one declared output for each node of the
    graph whose name is the name of an output tensor of the model, in the
    order of the graph; it is named [out_] followed by the name of the
    end node of that graph node, which is the last node that is not a
    Constant among the nodes that the lowering call of that graph node
    returned; its element type is FLOAT, and its shape is the shape of
    the first output tensor of that name, as it is when the boundary
    conversion is on and remapped when it is off.  An output tensor that
    no node is named after is not declared. *)
Theorem saved_outputs_follow_the_graph
    (model : Model) (flag : bool) (g : onnx.GraphProto) :
  In (Save g) (trace (tflite2onnx.main model flag)) ->
  exists turns,
    outcome (Tree.init model false)
    = Ok (map (fun t => (tflite2onnx.turn_key t, tflite2onnx.turn_layer t))
              turns)
    /\ trace (tflite2onnx.main model flag)
       = map (fun t => Lower (tflite2onnx.turn_layer t)
                         [tflite2onnx.turn_prev_node_name t]
                         (tflite2onnx.turn_table t)) turns
         ++ [Save g]
    /\ Forall
         (fun t =>
            generate (interpreter model) (tflite2onnx.turn_layer t)
              [tflite2onnx.turn_prev_node_name t] (tflite2onnx.turn_table t)
            = Ok (tflite2onnx.turn_nodes t, tflite2onnx.turn_val t,
                  tflite2onnx.turn_weight t))
         turns
    /\ Forall2
         (fun vi t =>
            exists info end_node,
              utils_onnx.get_output_node_info_by_name_if_exist
                (tflite2onnx.turn_key t) (interpreter model) = Some info
              /\ In info (get_output_details (interpreter model))
              /\ tflite.name info = tflite2onnx.turn_key t
              /\ last_item (filter (fun n => negb (tflite2onnx.is_constant n))
                              (tflite2onnx.turn_nodes t))
                 = Ok end_node
              /\ vi = onnx.make_tensor_value_info
                        ("out_" ++ onnx.name end_node) onnx.FLOAT
                        (if flag then Some (shape info)
                         else utils.tflite2onnx_shape_map (shape info)))
         (onnx.graph_output g)
         (filter (fun t =>
                    match utils_onnx.get_output_node_info_by_name_if_exist
                            (tflite2onnx.turn_key t) (interpreter model) with
                    | Some _ => true
                    | None => false
                    end) turns).
Proof.
  intros Hsave.
  destruct (main_saved_turns model flag g Hsave)
    as (d & rest & turns & segments & _ & _ & Hg & Htr & Hgen & HFo & _).
  exists turns. auto.
Qed.
End SavedOutputs.

Lemma saved_outputs_follow_the_graph_witness :
  exists g,
    In (Save g) (trace (tflite2onnx.main (ext := Samples.layers)
                          Samples.relu_relu6 true))
    /\ exists end_node,
         onnx.graph_output g
         = [onnx.make_tensor_value_info ("out_" ++ onnx.name end_node)
              onnx.FLOAT (Some [1; 7; 7; 3])].
Proof.
  assert (H : exists g,
            In (Save g) (trace (tflite2onnx.main (ext := Samples.layers)
                                  Samples.relu_relu6 true))).
  { eexists. vm_compute. right; right; left; reflexivity. }
  destruct H as (g & Hg). exists g. split; [exact Hg|].
  destruct (@saved_outputs_follow_the_graph Samples.layers
              Samples.relu_relu6 true g Hg)
    as (turns & Hgraph & _ & _ & HFo).
  vm_compute in Hgraph. injection Hgraph as Hgraph.
  destruct turns as [|t1 [|t2 [|t3 turns]]]; try discriminate Hgraph.
  destruct t1 as [k1 l1 p1 tb1 n1 v1 w1], t2 as [k2 l2 p2 tb2 n2 v2 w2].
  cbn in Hgraph. injection Hgraph as <- _ <- _.
  cbn [filter tflite2onnx.turn_key] in HFo.
  change (utils_onnx.get_output_node_info_by_name_if_exist "relu"
            (interpreter Samples.relu_relu6))
    with (@None TensorDetails) in HFo.
  inversion HFo as [|vi t outs ts Hvi Hrest Ho Ht]; subst.
  inversion Hrest; subst.
  destruct Hvi as (info & end_node & Hinfo & _ & _ & _ & ->).
  vm_compute in Hinfo. injection Hinfo as <-.
  exists end_node. reflexivity.
Defined.

(* ================================================================== *)
(** * The driver: the boundaries with layout conversion *)
(* ================================================================== *)

Section ConversionModeSaved.
Context {ext : ExternalLayers}.

(** X18. With the boundary conversion on, the saved graph starts with a
    transpose of the model's first input to channel-first order, whatever
    the rank of that input is, and the input is declared with its source
    shape.  The other nodes are, turn by turn in the order of the graph,
    the nodes that the lowering call of the graph node returned, changed
    only for a graph node that is named after an output tensor of the
    model: when the first output tensor of that name has four dimensions,
    a transpose to channel-last order (perm [0,2,3,1]) follows the
    returned nodes, when it has three, a transpose that exchanges the
    last two (perm [0,2,1]), and that transpose reads the name of the end
    node of that graph node, the last returned node that is not a
    Constant, and writes [out_] followed by that name; when it has
    another rank, no transpose is added and the output of that end node
    is renamed to [out_] followed by its name. *)
Theorem conversion_mode_adds_boundary_transposes
    (model : Model) (g : onnx.GraphProto) :
  In (Save g) (trace (tflite2onnx.main model true)) ->
  exists d rest turns segments,
    get_input_details (interpreter model) = d :: rest
    /\ hd_error (onnx.graph_input g)
       = Some (onnx.make_tensor_value_info (tflite.name d) onnx.FLOAT
                 (Some (shape d)))
    /\ outcome (Tree.init model false)
       = Ok (map (fun t => (tflite2onnx.turn_key t, tflite2onnx.turn_layer t))
                 turns)
    /\ trace (tflite2onnx.main model true)
       = map (fun t => Lower (tflite2onnx.turn_layer t)
                         [tflite2onnx.turn_prev_node_name t]
                         (tflite2onnx.turn_table t)) turns
         ++ [Save g]
    /\ Forall
         (fun t =>
            generate (interpreter model) (tflite2onnx.turn_layer t)
              [tflite2onnx.turn_prev_node_name t] (tflite2onnx.turn_table t)
            = Ok (tflite2onnx.turn_nodes t, tflite2onnx.turn_val t,
                  tflite2onnx.turn_weight t))
         turns
    /\ onnx.node g
       = aact_layers.make_node "Transpose"
           ("transpose_node_input_" ++ tflite.name d) [tflite.name d]
           ["transpose_node_input_" ++ tflite.name d]%string
           [("perm"%string, onnx.ints [0; 3; 1; 2])]
         :: List.concat segments
    /\ Forall2
         (fun t segment =>
            match utils_onnx.get_output_node_info_by_name_if_exist
                    (tflite2onnx.turn_key t) (interpreter model) with
            | None => segment = tflite2onnx.turn_nodes t
            | Some info =>
                exists before end_node after,
                  tflite2onnx.turn_nodes t = before ++ end_node :: after
                  /\ tflite2onnx.is_constant end_node = false
                  /\ Forall (fun n => tflite2onnx.is_constant n = true) after
                  /\ segment
                     = if (List.length (shape info) =? 4)%nat then
                         tflite2onnx.turn_nodes t
                         ++ [aact_layers.make_node "Transpose"
                               ("transpose_node_output_" ++ onnx.name end_node)
                               [onnx.name end_node]
                               ["out_" ++ onnx.name end_node]%string
                               [("perm"%string, onnx.ints [0; 2; 3; 1])]]
                       else if (List.length (shape info) =? 3)%nat then
                         tflite2onnx.turn_nodes t
                         ++ [aact_layers.make_node "Transpose"
                               ("transpose_node_output_" ++ onnx.name end_node)
                               [onnx.name end_node]
                               ["out_" ++ onnx.name end_node]%string
                               [("perm"%string, onnx.ints [0; 2; 1])]]
                       else
                         before
                         ++ onnx.set_output end_node
                              ["out_" ++ onnx.name end_node]%string
                            :: after
            end)
         turns segments.
Proof.
  intros Hsave.
  destruct (main_saved_turns model true g Hsave)
    as (d & rest & turns & segments
        & Hin & Hinput & Hg & Htr & Hgen & _ & Hnodes & HFs).
  exists d, rest, turns, segments.
  split; [exact Hin|]. split; [exact Hinput|]. split; [exact Hg|].
  split; [exact Htr|]. split; [exact Hgen|]. split; [exact Hnodes|].
  exact HFs.
Qed.
End ConversionModeSaved.

Lemma conversion_mode_adds_boundary_transposes_witness :
  exists g,
    In (Save g) (trace (tflite2onnx.main (ext := Samples.layers)
                          Samples.relu_relu6 true))
    /\ map onnx.op_type (onnx.node g)
       = ["Transpose"; "Relu"; "Clip"; "Transpose"]%string
    /\ hd_error (onnx.graph_input g)
       = Some (onnx.make_tensor_value_info "input" onnx.FLOAT (Some [1; 7; 7; 3])).
Proof.
  assert (H : exists g,
            In (Save g) (trace (tflite2onnx.main (ext := Samples.layers)
                                  Samples.relu_relu6 true))
            /\ map onnx.op_type (onnx.node g)
               = ["Transpose"; "Relu"; "Clip"; "Transpose"]%string).
  { eexists. split; [vm_compute; right; right; left; reflexivity|].
    reflexivity. }
  destruct H as (g & Hg & Hops). exists g.
  split; [exact Hg|]. split; [exact Hops|].
  destruct (@conversion_mode_adds_boundary_transposes Samples.layers
              Samples.relu_relu6 g Hg)
    as (d & rest & turns & segments & Hd & Hinput & _).
  vm_compute in Hd. injection Hd as <- _. exact Hinput.
Defined.

(* ================================================================== *)
(** * The driver: the boundaries without layout conversion *)
(* ================================================================== *)

Section ReleaseModeSaved.
Context {ext : ExternalLayers}.

(** C7, amended: with the boundary conversion disabled, the driver adds no
    transpose of its own: the nodes of the saved graph are, turn by turn
    in the order of the graph, the nodes that the lowering call of the
    graph node returned, and for a graph node that is named after an
    output tensor of the model the output of its end node, the last
    returned node that is not a Constant, is renamed to [out_] followed
    by the name of that end node; so every node of the saved graph comes
    from a lowering routine.  The input is declared with the shape of the
    model's first input remapped by [tflite2onnx_shape_map], and there is
    one declared output for each graph node named after an output tensor,
    named [out_] followed by the name of its end node, with the shape of
    the first output tensor of that name remapped by
    [tflite2onnx_shape_map]: channel-first for rank 4, no shape for
    another rank. *)
Theorem release_mode_declares_remapped_shapes
    (model : Model) (g : onnx.GraphProto) :
  In (Save g) (trace (tflite2onnx.main model false)) ->
  (exists d rest,
     get_input_details (interpreter model) = d :: rest
     /\ hd_error (onnx.graph_input g)
        = Some (onnx.make_tensor_value_info (tflite.name d) onnx.FLOAT
                  (utils.tflite2onnx_shape_map (shape d))))
  /\ (exists turns segments,
        outcome (Tree.init model false)
        = Ok (map (fun t => (tflite2onnx.turn_key t, tflite2onnx.turn_layer t))
                  turns)
        /\ trace (tflite2onnx.main model false)
           = map (fun t => Lower (tflite2onnx.turn_layer t)
                             [tflite2onnx.turn_prev_node_name t]
                             (tflite2onnx.turn_table t)) turns
             ++ [Save g]
        /\ Forall
             (fun t =>
                generate (interpreter model) (tflite2onnx.turn_layer t)
                  [tflite2onnx.turn_prev_node_name t] (tflite2onnx.turn_table t)
                = Ok (tflite2onnx.turn_nodes t, tflite2onnx.turn_val t,
                      tflite2onnx.turn_weight t))
             turns
        /\ Forall2
             (fun vi t =>
                exists info end_node,
                  utils_onnx.get_output_node_info_by_name_if_exist
                    (tflite2onnx.turn_key t) (interpreter model) = Some info
                  /\ In info (get_output_details (interpreter model))
                  /\ tflite.name info = tflite2onnx.turn_key t
                  /\ last_item
                       (filter (fun n => negb (tflite2onnx.is_constant n))
                               (tflite2onnx.turn_nodes t))
                     = Ok end_node
                  /\ vi = onnx.make_tensor_value_info
                            ("out_" ++ onnx.name end_node) onnx.FLOAT
                            (utils.tflite2onnx_shape_map (shape info)))
             (onnx.graph_output g)
             (filter (fun t =>
                        match utils_onnx.get_output_node_info_by_name_if_exist
                                (tflite2onnx.turn_key t) (interpreter model) with
                        | Some _ => true
                        | None => false
                        end) turns)
        /\ onnx.node g = List.concat segments
        /\ Forall2
             (fun t segment =>
                match utils_onnx.get_output_node_info_by_name_if_exist
                        (tflite2onnx.turn_key t) (interpreter model) with
                | None => segment = tflite2onnx.turn_nodes t
                | Some info =>
                    exists before end_node after,
                      tflite2onnx.turn_nodes t = before ++ end_node :: after
                      /\ tflite2onnx.is_constant end_node = false
                      /\ Forall (fun n => tflite2onnx.is_constant n = true) after
                      /\ segment
                         = before
                           ++ onnx.set_output end_node
                                ["out_" ++ onnx.name end_node]%string
                              :: after
                end)
             turns segments)
  /\ (forall P : onnx.NodeProto -> Prop,
        (forall n out, P n -> P (onnx.set_output n out)) ->
        (forall layer prevs table r,
           generate (interpreter model) layer prevs table = Ok r ->
           Forall P (fst (fst r))) ->
        Forall P (onnx.node g))
  /\ (forall n h w c,
        utils.tflite2onnx_shape_map [n; h; w; c] = Some [n; c; h; w])
  /\ (forall shape_list,
        List.length shape_list <> 4%nat ->
        utils.tflite2onnx_shape_map shape_list = None).
Proof.
  intros Hsave.
  destruct (main_saved_turns model false g Hsave)
    as (d & rest & turns & segments
        & Hin & Hinput & Hg & Htr & Hgen & HFo & Hnodes & HFs).
  split; [exists d, rest; split; [exact Hin|exact Hinput]|].
  split; [|split; [|split; [reflexivity|]]].
  - exists turns, segments.
    split; [exact Hg|]. split; [exact Htr|]. split; [exact Hgen|].
    split; [exact HFo|]. split; [exact Hnodes|exact HFs].
  - intros P HP1 HP2.
    destruct (main_saved model false g Hsave)
      as (d' & rest' & graph & st0 & st & _ & _ & Hn0 & Ho0 & Hloop & ->).
    cbn [onnx.node].
    refine (proj1 (for_each_keeps
              (fun st => Forall P (tflite2onnx.onnx_node_list st)
                         /\ Forall
                              (fun vi => exists info,
                                 In info (get_output_details (interpreter model))
                                 /\ onnx.vi_shape vi
                                    = utils.tflite2onnx_shape_map (shape info))
                              (tflite2onnx.output_tensor_value_info st))
              _ graph _ st0 st _ Hloop)).
    + intros st1 a st2 _ Hinv Hstep.
      apply (lower_node_release_keeps model P HP1 HP2 (tflite.name d') st1 a st2
               Hinv Hstep).
    + rewrite Hn0, Ho0. split; constructor.
  - intros [|a [|b [|c [|n [|e shape_list]]]]] Hlen; try reflexivity.
    destruct (Hlen eq_refl).
Qed.
End ReleaseModeSaved.

Lemma release_mode_declares_remapped_shapes_witness :
  exists g,
    In (Save g) (trace (tflite2onnx.main (ext := Samples.layers)
                          Samples.relu_relu6 false))
    /\ hd_error (onnx.graph_input g)
       = Some (onnx.make_tensor_value_info "input" onnx.FLOAT (Some [1; 3; 7; 7])).
Proof.
  eexists.
  assert (H : In (Save _) (trace (tflite2onnx.main (ext := Samples.layers)
                                    Samples.relu_relu6 false)))
    by (vm_compute; right; right; left; reflexivity).
  split; [exact H|].
  destruct (proj1 (@release_mode_declares_remapped_shapes Samples.layers
                     Samples.relu_relu6 _ H)) as (d & rest & Hd & Hg).
  injection Hd as <- _. exact Hg.
Defined.

(* ================================================================== *)
(** * The driver: the one name handed to a lowering routine *)
(* ================================================================== *)

Lemma for_each_cons_trace {A S} (body : S -> A -> M S) (a : A) (l : list A)
    (st : S) :
  trace (for_each body (a :: l) st)
  = trace (body st a)
    ++ match outcome (body st a) with
       | Ok st1 => trace (for_each body l st1)
       | Raise _ => []
       end.
Proof.
  cbn [for_each]. destruct (body st a) as [[s|e] t];
    rewrite ?bindM_Ok, ?bindM_Raise; cbn; rewrite ?app_nil_r; reflexivity.
Qed.

Section InputEntry.
Context {ext : ExternalLayers}.
Variables (interp : Interpreter) (flag : bool) (model_input_name : string).

(** The entry of the model input stays in the table as long as no node
    of the graph has the name of the model input, and a node without
    input names is lowered with the last name of that entry. *)
Lemma input_entry_reaches_the_turn (last : string) (key : string)
    (layer : Layer) (after : Nodes) :
  tflite2onnx.takes_table (op_type layer) = false ->
  input_nodes_name layer = [] ->
  forall (before : Nodes) st ev,
    Forall (fun kv => fst kv <> model_input_name) before ->
    dict_get String.eqb (tflite2onnx.op_name__sub_op_name__table st)
      model_input_name = Some [model_input_name; last] ->
    nth_error
      (trace (for_each (tflite2onnx.lower_node interp flag model_input_name)
                (before ++ (key, layer) :: after) st))
      (List.length before) = Some ev ->
    ev = Lower layer [last] None.
Proof.
  intros Hkind Hnone.
  induction before as [|[k l] before IH]; intros st ev Hkeys Hget Hnth.
  - cbn [app List.length] in Hnth.
    rewrite for_each_cons_trace, lower_node_trace in Hnth.
    unfold tflite2onnx.prev_node_name in Hnth.
    rewrite Hnone, Hget, Hkind in Hnth. cbn in Hnth.
    injection Hnth as <-. reflexivity.
  - cbn [app List.length] in Hnth. rewrite for_each_cons_trace in Hnth.
    pose proof (Forall_inv Hkeys) as Hk. cbn [fst] in Hk.
    pose proof (Forall_inv_tail Hkeys) as Hkeys'.
    destruct (outcome (tflite2onnx.lower_node interp flag model_input_name st
                         (k, l))) as [st1|e] eqn:Eo.
    + destruct (lower_node_Ok_trace _ _ _ _ _ _ Eo) as (prev & _ & Ht).
      rewrite Ht in Hnth. cbn [app nth_error] in Hnth.
      apply (IH st1 ev Hkeys'); [|exact Hnth].
      apply lower_node_step in Eo.
      destruct Eo as (_ & nodes & _ & _ & _ & _ & Htable & _).
      rewrite Htable, (dict_get_set _ _ String.eqb string_eqb_eq).
      destruct (String.eqb_spec k model_input_name) as [E|_];
        [destruct (Hk E)|exact Hget].
    + rewrite lower_node_trace in Hnth.
      destruct (tflite2onnx.prev_node_name _ model_input_name l);
        cbn [app nth_error] in Hnth; rewrite ?nth_error_nil in Hnth;
        discriminate.
Qed.
End InputEntry.

(** C10, as stated: with the boundary conversion on, the first node of
    [Samples.relu_relu6], a relu whose pruned input-name list is empty,
    is lowered with the name of the input transpose, not with the name
    [input] of the model's input tensor. *)
Lemma empty_input_list_is_handed_the_input_transpose :
  exists relu relu6 g,
    outcome (Tree.init (ext := Samples.layers) Samples.relu_relu6 false)
    = Ok [("relu"%string, relu); ("relu6"%string, relu6)]
    /\ op_type relu = BuiltinOperator.RELU
    /\ input_nodes_name relu = []
    /\ map tflite.name (get_input_details (interpreter Samples.relu_relu6))
       = ["input"%string]
    /\ tflite2onnx.main (ext := Samples.layers) Samples.relu_relu6 true
       = (Ok tt, [Lower relu ["transpose_node_input_input"%string] None;
                  Lower relu6 ["relu"%string] None; Save g]).
Proof.
  eexists. eexists. eexists.
  split; [vm_compute; reflexivity|].
  split; [reflexivity|]. split; [reflexivity|]. split; [reflexivity|].
  vm_compute. reflexivity.
Qed.

Section PredecessorNameOfMain.
Context {ext : ExternalLayers}.
Variables (interp : Interpreter) (flag : bool) (model_input_name : string).

(** C10, amended: for a node of a kind other than add, mul and
    concatenation the driver calls the lowering routine with one name
    and no table.  The name is looked up from the first entry of the
    node's input-name list, or from the model's input name when the list
    is empty, the other entries of the list playing no part: a name
    without an entry in the table is handed over as it is; a name with an
    entry is replaced by the last name of the entry; and when the entry
    is empty the turn raises [IndexError] before any call.  The model's
    input name has an entry from the start, which ends with the name of
    the input transpose when the boundary conversion is on and with the
    input name itself when it is off: in [main], a node without input
    names that no node named like the model's input precedes is lowered,
    if its turn is reached, with [transpose_node_input_] followed by the
    input name when the conversion is on, and with the input name when
    it is off. *)
Theorem lowering_gets_one_predecessor_name
    (st : tflite2onnx.State) (key : string) (layer : Layer) :
  tflite2onnx.takes_table (op_type layer) = false ->
  let table := tflite2onnx.op_name__sub_op_name__table st in
  let first :=
    match input_nodes_name layer with
    | first :: _ => first
    | [] => model_input_name
    end in
  (dict_get String.eqb table first = None ->
   trace (tflite2onnx.lower_node interp flag model_input_name st (key, layer))
   = [Lower layer [first] None])
  /\ (forall sub_names last,
        dict_get String.eqb table first = Some (sub_names ++ [last]) ->
        trace (tflite2onnx.lower_node interp flag model_input_name st
                 (key, layer))
        = [Lower layer [last] None])
  /\ (dict_get String.eqb table first = Some [] ->
      tflite2onnx.lower_node interp flag model_input_name st (key, layer)
      = (Raise IndexError, []))
  /\ (forall (model : Model) d rest (before after : Nodes) ev,
        get_input_details (interpreter model) = d :: rest ->
        outcome (Tree.init model false) = Ok (before ++ (key, layer) :: after) ->
        Forall (fun kv => fst kv <> tflite.name d) before ->
        input_nodes_name layer = [] ->
        nth_error (trace (tflite2onnx.main model flag)) (List.length before)
        = Some ev ->
        ev = Lower layer
               [if flag then ("transpose_node_input_" ++ tflite.name d)%string
                else tflite.name d]
               None).
Proof.
  intros Hkind table first. split; [|split; [|split]].
  - intros Hfirst. rewrite lower_node_trace. unfold tflite2onnx.prev_node_name.
    fold first. fold table. rewrite Hfirst, Hkind. reflexivity.
  - intros sub_names last Hfirst. rewrite lower_node_trace.
    unfold tflite2onnx.prev_node_name. fold first. fold table.
    rewrite Hfirst, last_item_app, Hkind. reflexivity.
  - intros Hfirst. unfold tflite2onnx.lower_node, tflite2onnx.prev_node_name.
    cbn [fst snd]. fold first. fold table. rewrite Hfirst. reflexivity.
  - intros model d rest before after ev Hin Hgraph Hkeys Hnone Hnth.
    destruct (main_cases model flag)
      as [(e & He)|(d' & rest' & graph & st0 & Hin' & Hg & _ & _ & Htable & Hmain)].
    { rewrite He in Hnth. cbn [trace snd] in Hnth.
      rewrite nth_error_nil in Hnth. discriminate. }
    rewrite Hin in Hin'. injection Hin' as <- <-.
    rewrite Hg in Hgraph. cbn in Hgraph. injection Hgraph as ->.
    rewrite Hmain in Hnth.
    pose proof (lower_loop_calls (interpreter model) flag (tflite.name d)
                  (before ++ (key, layer) :: after) st0) as Hcalls.
    pose proof (input_entry_reaches_the_turn (interpreter model) flag
                  (tflite.name d)
                  (if flag then ("transpose_node_input_" ++ tflite.name d)%string
                   else tflite.name d)
                  key layer after Hkind Hnone before st0 ev Hkeys) as Hturn.
    rewrite Htable in Hturn. cbn [dict_get] in Hturn.
    rewrite String.eqb_refl in Hturn. specialize (Hturn eq_refl).
    destruct (for_each _ (before ++ (key, layer) :: after) st0)
      as [[st1|e] t] eqn:Eloop;
      rewrite ?bindM_Ok, ?bindM_Raise in Hnth; cbn [trace snd] in Hnth, Hturn.
    + apply Hturn. specialize (Hcalls st1 eq_refl). cbn [trace snd] in Hcalls.
      apply Forall2_length in Hcalls.
      rewrite nth_error_app1 in Hnth; [exact Hnth|].
      rewrite Hcalls, length_app. cbn [List.length]. lia.
    + apply Hturn. exact Hnth.
Qed.
End PredecessorNameOfMain.

Lemma lowering_gets_one_predecessor_name_witness :
  let layer :=
    {| cls := Relu;
       op := Some (Samples.operator [0] 1 ActivationFunctionType.NONE);
       op_type := BuiltinOperator.RELU; node_idx := 1; node_name := "relu";
       input_nodes_idx := []; input_nodes_name := [];
       output_nodes_idx := [2]; output_nodes_name := ["relu6"%string] |} in
  let st :=
    {| tflite2onnx.op_name__sub_op_name__table :=
         [("input"%string, ["input"%string; "transpose_node_input_input"%string])];
       tflite2onnx.onnx_weight_node_list := [];
       tflite2onnx.output_tensor_value_info := [];
       tflite2onnx.onnx_node_list := [];
       tflite2onnx.inner_node_shape_value_info := [] |} in
  trace (tflite2onnx.lower_node (ext := Samples.layers)
           (interpreter Samples.relu_relu6) true "input" st ("relu"%string, layer))
  = [Lower layer ["transpose_node_input_input"%string] None]
  /\ nth_error (trace (tflite2onnx.main (ext := Samples.layers)
                         Samples.relu_relu6 true)) 0
     = Some (Lower layer ["transpose_node_input_input"%string] None).
Proof.
  intros layer st.
  pose proof (@lowering_gets_one_predecessor_name Samples.layers
                (interpreter Samples.relu_relu6) true "input" st "relu" layer
                eq_refl) as (_ & Hentry & _ & Hmain).
  split.
  - apply (Hentry ["input"%string] "transpose_node_input_input"%string eq_refl).
  - assert (Hev : exists ev,
              nth_error (trace (tflite2onnx.main (ext := Samples.layers)
                                  Samples.relu_relu6 true)) 0 = Some ev)
      by (eexists; vm_compute; reflexivity).
    destruct Hev as (ev & Hev). rewrite Hev. f_equal.
    refine (Hmain Samples.relu_relu6 _ _ [] _ ev eq_refl _ (Forall_nil _)
              eq_refl Hev).
    vm_compute. reflexivity.
Defined.

(* ================================================================== *)
(** * The driver: the table of node names *)
(* ================================================================== *)

Section TableOfNames.
Context {ext : ExternalLayers}.
Variables (interp : Interpreter) (flag : bool) (model_input_name : string).

(** X19. The name that a node hands to its consumers: after the turn of a
    node, a layer whose first input name is that node's is lowered with
    the name of the last node that the lowering of the node returned,
    constants apart, and its turn raises [IndexError] when the lowering
    returned no node but constants. *)
Theorem lowered_name_reaches_the_consumer
    (st st' : tflite2onnx.State) (key : string) (layer consumer : Layer)
    (others : list string) :
  outcome (tflite2onnx.lower_node interp flag model_input_name st (key, layer))
  = Ok st' ->
  input_nodes_name consumer = key :: others ->
  exists prev nodes val weight,
    generate interp layer [prev]
      (if tflite2onnx.takes_table (op_type layer)
       then Some (tflite2onnx.op_name__sub_op_name__table st) else None)
    = Ok (nodes, val, weight)
    /\ tflite2onnx.prev_node_name (tflite2onnx.op_name__sub_op_name__table st')
         model_input_name consumer
       = last_item (map onnx.name
                      (filter (fun n => negb (tflite2onnx.is_constant n)) nodes))
    /\ (Forall (fun n => tflite2onnx.is_constant n = true) nodes ->
        forall key', tflite2onnx.lower_node interp flag model_input_name st'
                       (key', consumer)
                     = (Raise IndexError, [])).
Proof.
  intros Hstep Hinputs. apply lower_node_step in Hstep.
  destruct Hstep as (prev & nodes & val & weight & _ & Hgen & Htable & _).
  exists prev, nodes, val, weight. split; [exact Hgen|].
  assert (Hget : dict_get String.eqb
                   (tflite2onnx.op_name__sub_op_name__table st') key
                 = Some (map onnx.name
                           (filter (fun n => negb (tflite2onnx.is_constant n))
                                   nodes))).
  { rewrite Htable, (dict_get_set _ _ String.eqb string_eqb_eq).
    rewrite String.eqb_refl. reflexivity. }
  split.
  - unfold tflite2onnx.prev_node_name. rewrite Hinputs, Hget. reflexivity.
  - intros Hconst key'.
    apply (predecessor_without_sub_nodes interp flag model_input_name st' key'
             consumer).
    rewrite Hinputs, Hget. f_equal.
    assert (Hnil : filter (fun n => negb (tflite2onnx.is_constant n)) nodes = []).
    { clear - Hconst. induction Hconst as [|n l Hn _ IH]; [reflexivity|].
      cbn [filter]. rewrite Hn. exact IH. }
    rewrite Hnil. reflexivity.
Qed.
End TableOfNames.

Lemma lowered_name_reaches_the_consumer_witness :
  exists st',
    outcome (tflite2onnx.lower_node (ext := Samples.layers)
               (interpreter Samples.relu_relu6) true "input"
               Samples.first_turn ("relu"%string, Samples.relu_layer))
    = Ok st'
    /\ tflite2onnx.prev_node_name (tflite2onnx.op_name__sub_op_name__table st')
         "input" Samples.relu6_layer
       = Ok "relu"%string.
Proof.
  assert (H : exists st',
            outcome (tflite2onnx.lower_node (ext := Samples.layers)
                       (interpreter Samples.relu_relu6) true "input"
                       Samples.first_turn ("relu"%string, Samples.relu_layer))
            = Ok st') by (eexists; vm_compute; reflexivity).
  destruct H as (st' & H). exists st'. split; [exact H|].
  destruct (@lowered_name_reaches_the_consumer Samples.layers
              (interpreter Samples.relu_relu6) true "input"
              Samples.first_turn st' "relu" Samples.relu_layer
              Samples.relu6_layer [] H eq_refl)
    as (prev & nodes & val & weight & Hgen & Hprev & _).
  rewrite Hprev.
  assert (Hnodes : exists prev',
            generate (ext := Samples.layers) (interpreter Samples.relu_relu6)
              Samples.relu_layer [prev'] None
            = Ok (nodes, val, weight)) by (exists prev; exact Hgen).
  destruct Hnodes as (prev' & Hnodes). vm_compute in Hnodes.
  injection Hnodes as <- _ _. reflexivity.
Defined.

(* ================================================================== *)
(** * The driver: which layers are handed the table *)
(* ================================================================== *)

Lemma node_generator_class o ty interp l :
  Tree.node_generator o ty interp = Ok l ->
  tflite2onnx.takes_table (op_type l)
  = match cls l with
    | Add | Mul | Concatenation => true
    | _ => false
    end.
Proof.
  unfold Tree.node_generator.
  destruct ty; try discriminate; intros H;
    apply Layer_init_fields in H; destruct H as (-> & _ & -> & _);
    reflexivity.
Qed.

Lemma parse_graph_classes ops interp nodes :
  Tree.parse_graph ops interp = Ok nodes ->
  Forall (fun kv =>
            tflite2onnx.takes_table (op_type (snd kv))
            = match cls (snd kv) with
              | Add | Mul | Concatenation => true
              | _ => false
              end) nodes.
Proof.
  unfold Tree.parse_graph.
  apply (for_each_result_keeps
           (fun nodes =>
              Forall (fun kv =>
                        tflite2onnx.takes_table (op_type (snd kv))
                        = match cls (snd kv) with
                          | Add | Mul | Concatenation => true
                          | _ => false
                          end) nodes)).
  - intros st [o ty] st' _ Hst. cbn [fst snd].
    destruct (Tree.node_generator o ty interp) as [node|e] eqn:E;
      cbn [Py.bind]; [|discriminate].
    intros H. injection H as <-. apply node_generator_class in E.
    rewrite Forall_forall in Hst. apply Forall_forall. intros kv Hin.
    apply (In_dict_set _ _ String.eqb string_eqb_eq) in Hin.
    destruct Hin as [->|Hin]; [exact E|apply (Hst kv Hin)].
  - constructor.
Qed.

Section MergingLayers.
Context {ext : ExternalLayers}.

(** X20. The driver hands the table of node names to the layers of the
    classes Add, Mul and Concatenation and to no other, whatever the
    model: the class of a layer and the kind of its operator always go
    together, so that the lowering routines of the activation layers,
    which take no argument, are never called with one. *)
Theorem table_goes_to_the_merging_layers_only (model : Model) (flag : bool) :
  Forall (fun ev =>
            match ev with
            | Lower layer prevs table =>
                table <> None
                <-> cls layer = Add \/ cls layer = Mul
                    \/ cls layer = Concatenation
            | _ => True
            end)
         (trace (tflite2onnx.main model flag)).
Proof.
  destruct (main_cases model flag)
    as [(e & ->)|(d & rest & graph & st0 & _ & Hg & _ & _ & _ & ->)].
  - constructor.
  - assert (Hclasses :
      Forall (fun kv =>
                tflite2onnx.takes_table (op_type (snd kv))
                = match cls (snd kv) with
                  | Add | Mul | Concatenation => true
                  | _ => false
                  end) graph).
    { destruct (Tree.parse_graph (operators model) (interpreter model))
        as [nodes|e] eqn:E;
        [|rewrite (Tree_init_not_parsed _ _ _ E) in Hg; discriminate].
      destruct (Tree_init_parsed model nodes E) as (g' & Hg' & Hs).
      rewrite Hg' in Hg. injection Hg as ->.
      pose proof (parse_graph_classes _ _ _ E) as Hp.
      rewrite Forall_forall in Hp. apply Forall_forall.
      intros [k l] Hin. cbn [snd].
      destruct (skeleton_In _ _ _ _ Hs Hin) as (l0 & Hl0 & Hc).
      apply eliminate_side_input_In in Hl0. destruct Hl0 as (l1 & Hl1 & ->).
      apply clear_outputs_fields in Hc. destruct Hc as (Hc1 & _ & Hc3 & _).
      cbn in Hc1, Hc3. specialize (Hp (k, l1) Hl1). cbn [snd] in Hp.
      rewrite <- Hc1, <- Hc3. exact Hp. }
    apply trace_bindM.
    + apply for_each_trace. intros st [key layer] Hin.
      rewrite lower_node_trace.
      destruct (tflite2onnx.prev_node_name _ _ layer); constructor;
        [|constructor].
      rewrite Forall_forall in Hclasses.
      specialize (Hclasses (key, layer) Hin). cbn [snd] in Hclasses.
      rewrite Hclasses.
      destruct (cls layer); split;
        try (intros H; exfalso; apply H; reflexivity);
        try (intros [H|[H|H]]; discriminate);
        try (intros _; discriminate); auto.
    + intros st _. repeat constructor.
Qed.
End MergingLayers.

(* ================================================================== *)
(** * The helper that declares the inputs, on any list *)
(* ================================================================== *)

Lemma make_kneron_loop_app (items : list utils_onnx.input_init_item) :
  forall acc,
    Forall (fun item => match item with
                        | utils_onnx.an_attribute _ _ => False
                        | _ => True
                        end) items ->
    utils_onnx.make_kneron_valid_onnx_input_loop items acc
    = utils_onnx.Returns
        (acc ++ map (fun item =>
                       match item with
                       | utils_onnx.a_tensor data =>
                           onnx.make_tensor_value_info (onnx.t_name data)
                             (onnx.t_data_type data) (Some (onnx.t_dims data))
                       | utils_onnx.an_attribute nm _ =>
                           onnx.make_tensor_value_info nm onnx.FLOAT None
                       | utils_onnx.another data => data
                       end) items).
Proof.
  induction items as [|item items IH]; intros acc H; cbn.
  - rewrite app_nil_r. reflexivity.
  - inversion H as [|? ? Hitem Hrest]; subst.
    destruct item as [data|nm ty|data]; [|destruct Hitem|];
      rewrite IH by exact Hrest; rewrite <- app_assoc; reflexivity.
Qed.

(** X5. [make_kneron_valid_onnx_input] on any list.  On a list without
    attribute it returns one declaration for each element, in the same
    order: for a tensor a declaration with its name, element type and
    dimensions, for anything else the element itself; on the list that
    the driver hands it, the input declaration followed by the weights,
    that is the input declaration followed by the declarations of the
    weights.  On a list with an attribute it raises [NameError] when it
    comes to the first attribute, since [onnx_proto] is not a name of the
    module. *)
Theorem make_kneron_valid_onnx_input_on_any_list
    (input_init : list utils_onnx.input_init_item) :
  (Forall (fun item => match item with
                       | utils_onnx.an_attribute _ _ => False
                       | _ => True
                       end) input_init ->
   exists onnx_inputs,
     utils_onnx.make_kneron_valid_onnx_input_of input_init
     = utils_onnx.Returns onnx_inputs
     /\ Forall2 (fun item val =>
                   match item with
                   | utils_onnx.a_tensor data =>
                       val = onnx.make_tensor_value_info (onnx.t_name data)
                               (onnx.t_data_type data) (Some (onnx.t_dims data))
                   | utils_onnx.an_attribute _ _ => False
                   | utils_onnx.another data => val = data
                   end) input_init onnx_inputs)
  /\ (forall before nm ty after,
        input_init = before ++ utils_onnx.an_attribute nm ty :: after ->
        Forall (fun item => match item with
                            | utils_onnx.an_attribute _ _ => False
                            | _ => True
                            end) before ->
        utils_onnx.make_kneron_valid_onnx_input_of input_init
        = utils_onnx.NameError "onnx_proto")
  /\ (forall input_tensor_value_info weights,
        input_init = utils_onnx.another input_tensor_value_info
                     :: map utils_onnx.a_tensor weights ->
        utils_onnx.make_kneron_valid_onnx_input_of input_init
        = utils_onnx.Returns
            (utils_onnx.make_kneron_valid_onnx_input input_tensor_value_info
               weights)).
Proof.
  unfold utils_onnx.make_kneron_valid_onnx_input_of. split; [|split].
  - intros H. rewrite make_kneron_loop_app by exact H. cbn [app].
    eexists. split; [reflexivity|].
    induction H as [|item items Hitem _ IH]; cbn [map]; constructor;
      [|exact IH].
    destruct item; [reflexivity|destruct Hitem|reflexivity].
  - intros before nm ty after -> Hbefore.
    generalize (@nil onnx.ValueInfoProto).
    induction Hbefore as [|item items Hitem _ IH]; intros acc; cbn.
    + reflexivity.
    + destruct item; [apply IH|destruct Hitem|apply IH].
  - intros vi weights ->. rewrite make_kneron_loop_app.
    + cbn [app map]. unfold utils_onnx.make_kneron_valid_onnx_input.
      rewrite map_map. reflexivity.
    + constructor; [exact I|]. apply Forall_forall. intros item Hin.
      apply in_map_iff in Hin. destruct Hin as (w & <- & _). exact I.
Qed.

(* ================================================================== *)
(** * The script *)
(* ================================================================== *)

Lemma string_length_append (a b : string) :
  String.length (a ++ b) = (String.length a + String.length b)%nat.
Proof. induction a as [|c a IH]; cbn; [reflexivity|]. rewrite IH. reflexivity. Qed.

Lemma substring_all (s : string) :
  forall n, (String.length s <= n)%nat -> substring 0 n s = s.
Proof.
  induction s as [|c s IH]; intros n H; cbn in *.
  - destruct n; reflexivity.
  - destruct n as [|n]; [lia|]. rewrite IH by lia. reflexivity.
Qed.

Lemma substring_skip (a b : string) (n : nat) :
  substring (String.length a) n (a ++ b) = substring 0 n b.
Proof. induction a as [|c a IH]; cbn; [reflexivity|exact IH]. Qed.

Lemma last_chars_suffix (stem suffix : string) :
  script.last_chars (String.length suffix) (stem ++ suffix) = suffix.
Proof.
  unfold script.last_chars. rewrite string_length_append.
  replace (String.length stem + String.length suffix - String.length suffix)%nat
    with (String.length stem) by lia.
  rewrite substring_skip. apply substring_all. lia.
Qed.

Lemma last_chars_tflite (stem : string) :
  script.last_chars 7 (stem ++ ".tflite") = ".tflite"%string.
Proof. exact (last_chars_suffix stem ".tflite"). Qed.

Lemma last_chars_onnx (stem : string) :
  script.last_chars 5 (stem ++ ".onnx") = ".onnx"%string.
Proof. exact (last_chars_suffix stem ".onnx"). Qed.

Lemma substring_is_suffix (s : string) :
  forall k n, (String.length s <= k + n)%nat ->
              exists stem, s = (stem ++ substring k n s)%string.
Proof.
  induction s as [|c s IH]; intros k n H.
  - exists ""%string. destruct k, n; reflexivity.
  - destruct k as [|k].
    + exists ""%string. rewrite substring_all by exact H. reflexivity.
    + cbn in H. destruct (IH k n ltac:(lia)) as (stem & Hstem).
      exists (String c stem). cbn. rewrite <- Hstem. reflexivity.
Qed.

Lemma last_chars_is_suffix (n : nat) (s : string) :
  exists stem, s = (stem ++ script.last_chars n s)%string.
Proof. unfold script.last_chars. apply substring_is_suffix. lia. Qed.

Lemma effects_app (a b : list script.output) :
  script.effects (a ++ b) = script.effects a ++ script.effects b.
Proof. unfold script.effects. apply flat_map_app. Qed.

Lemma effects_map_effect (t : list event) :
  script.effects (map script.effect t) = t.
Proof. induction t as [|ev t IH]; cbn; [reflexivity|]. f_equal. exact IH. Qed.

Section Script.
Context {ext : ExternalLayers}.
Variable abspath : string -> string.
Variable read : string -> result Model.

(** X22. The script checks the two paths before anything else: a model path
    that does not end in [.tflite], and then a save path that does not
    end in [.onnx], ends it with a [UserWarning] that names the path,
    before a line is printed and before the model is read; an option
    that is not given ends it with [TypeError]. *)
Theorem script_checks_the_paths_first (args : script.Namespace) :
  (script.tflite args = None ->
   script.run abspath read args = (script.uncaught TypeError, []))
  /\ (forall path,
        script.tflite args = Some path ->
        (forall stem, path <> (stem ++ ".tflite")%string) ->
        script.run abspath read args
        = (script.UserWarning
             (script.newline ++ path ++ " should be .tflite"), []))
  /\ (forall stem,
        script.tflite args = Some (stem ++ ".tflite")%string ->
        script.save_path args = None ->
        script.run abspath read args = (script.uncaught TypeError, []))
  /\ (forall stem path,
        script.tflite args = Some (stem ++ ".tflite")%string ->
        script.save_path args = Some path ->
        (forall stem', path <> (stem' ++ ".onnx")%string) ->
        script.run abspath read args
        = (script.UserWarning
             (script.newline ++ path ++ " should be .onnx"), [])).
Proof.
  unfold script.run. repeat split.
  - intros ->. reflexivity.
  - intros path -> Hpath.
    destruct (String.eqb_spec (script.last_chars 7 path) ".tflite") as [E|E];
      [|reflexivity].
    destruct (last_chars_is_suffix 7 path) as (stem & Hstem).
    rewrite E in Hstem. destruct (Hpath stem Hstem).
  - intros stem -> ->.
    rewrite last_chars_tflite. reflexivity.
  - intros stem path -> -> Hpath.
    rewrite last_chars_tflite.
    replace (String.eqb ".tflite" ".tflite") with true by reflexivity.
    cbn [negb].
    destruct (String.eqb_spec (script.last_chars 5 path) ".onnx") as [E|E];
      [|reflexivity].
    destruct (last_chars_is_suffix 5 path) as (stem' & Hstem).
    rewrite E in Hstem. destruct (Hpath stem' Hstem).
Qed.

(** X23. Once the two paths have the right endings the script always runs to
    its last line, whatever the conversion does: it converts with the
    boundary conversion on unless the release-mode option is exactly the
    text [True], performs what [main] performs and nothing else, prints
    an exception of [main], or the exception of a model file that cannot
    be read, instead of raising it, and prints the closing line last. *)
Theorem script_finishes_whatever_the_conversion_does
    (args : script.Namespace) (stem stem' : string) :
  script.tflite args = Some (stem ++ ".tflite")%string ->
  script.save_path args = Some (stem' ++ ".onnx")%string ->
  let add_transpose_for_channel_last_first_issue :=
    match script.release_mode args with
    | Some given => negb (String.eqb given "True")
    | None => true
    end in
  (script.release_mode args <> Some "True"%string ->
   add_transpose_for_channel_last_first_issue = true)
  /\ fst (script.run abspath read args) = script.finished
  /\ (exists before,
        snd (script.run abspath read args)
        = before
          ++ [script.print "------------   end   ------------------------"])
  /\ match read (abspath (stem ++ ".tflite")) with
     | Ok model =>
         let conversion :=
           tflite2onnx.main model add_transpose_for_channel_last_first_issue in
         script.effects (snd (script.run abspath read args)) = trace conversion
         /\ forall e, outcome conversion = Raise e ->
              In (script.print_exception e)
                 (snd (script.run abspath read args))
     | Raise e =>
         script.effects (snd (script.run abspath read args)) = []
         /\ In (script.print_exception e) (snd (script.run abspath read args))
     end.
Proof.
  intros Ht Hs flag.
  assert (Hflag : flag = negb match script.release_mode args with
                              | Some given => String.eqb given "True"
                              | None => false
                              end).
  { unfold flag. destruct (script.release_mode args); reflexivity. }
  split.
  { intros Hne. unfold flag.
    destruct (script.release_mode args) as [given|]; [|reflexivity].
    destruct (String.eqb_spec given "True") as [E|E]; [|reflexivity].
    exfalso. apply Hne. rewrite E. reflexivity. }
  unfold script.run. rewrite Ht, Hs.
  rewrite last_chars_tflite, last_chars_onnx.
  replace (String.eqb ".tflite" ".tflite") with true by reflexivity.
  replace (String.eqb ".onnx" ".onnx") with true by reflexivity.
  cbn [negb]. cbv zeta. rewrite <- Hflag.
  cbn [fst snd]. split; [reflexivity|].
  split; [eexists; rewrite app_assoc; reflexivity|].
  destruct (read (abspath (stem ++ ".tflite"))) as [model|e].
  - split.
    + rewrite !effects_app, effects_map_effect.
      destruct (outcome (tflite2onnx.main model flag)); cbn;
        rewrite ?app_nil_r; reflexivity.
    + intros e He. rewrite He. apply in_or_app. right.
      apply in_or_app. left. apply in_or_app. right. right. left. reflexivity.
  - split; [reflexivity|].
    apply in_or_app. right. apply in_or_app. left. right. left. reflexivity.
Qed.
End Script.

Lemma script_finishes_whatever_the_conversion_does_witness :
  let args :=
    {| script.tflite := Some "model.tflite"%string;
       script.save_path := Some "model.onnx"%string;
       script.release_mode := Some "true"%string |} in
  fst (script.run (ext := Samples.layers) (fun path => path)
         (fun _ => Ok Samples.relu_relu6) args) = script.finished
  /\ script.effects
       (snd (script.run (ext := Samples.layers) (fun path => path)
               (fun _ => Ok Samples.relu_relu6) args))
     = trace (tflite2onnx.main (ext := Samples.layers) Samples.relu_relu6 true).
Proof.
  intros args.
  destruct (@script_finishes_whatever_the_conversion_does Samples.layers
              (fun path => path) (fun _ => Ok Samples.relu_relu6) args
              "model" "model" eq_refl eq_refl)
    as (_ & Hfin & _ & Heff & _).
  split; [exact Hfin|exact Heff].
Defined.

(* ================================================================== *)
(** * The driver: the weights and the inner shapes of the saved model *)
(* ================================================================== *)

Section SavedLists.
Context {ext : ExternalLayers}.

Lemma lower_loop_lists interp flag model_input_name (graph : Nodes) :
  forall st st',
    outcome (for_each (tflite2onnx.lower_node interp flag model_input_name)
               graph st) = Ok st' ->
    exists results : list Lowered,
      Forall2 (fun kv r => exists prev table,
                 generate interp (snd kv) [prev] table = Ok r)
              graph results
      /\ tflite2onnx.onnx_weight_node_list st'
         = tflite2onnx.onnx_weight_node_list st ++ flat_map snd results
      /\ tflite2onnx.inner_node_shape_value_info st'
         = tflite2onnx.inner_node_shape_value_info st
           ++ flat_map (fun r => snd (fst r)) results.
Proof.
  induction graph as [|[key layer] graph IH]; intros st st' H.
  - cbn in H. injection H as <-. exists []. cbn. rewrite !app_nil_r.
    split; [constructor|auto].
  - apply for_each_cons_Ok in H. destruct H as (st1 & Hstep & Hrest).
    destruct (IH _ _ Hrest) as (results & HF & Hw & Hv).
    apply lower_node_step in Hstep.
    destruct Hstep as (prev & nodes & val & weight & _ & Hgen & _ & Hw1 & Hv1 & _).
    exists ((nodes, val, weight) :: results). split; [|split].
    + constructor; [cbn [snd]; eauto|exact HF].
    + rewrite Hw, Hw1, <- app_assoc. reflexivity.
    + rewrite Hv, Hv1, <- app_assoc. reflexivity.
Qed.

Lemma main_saved_lists model flag g :
  In (Save g) (trace (tflite2onnx.main model flag)) ->
  exists d graph st0 st,
    Tree.init model false = (Ok graph, [])
    /\ tflite2onnx.onnx_weight_node_list st0 = []
    /\ tflite2onnx.inner_node_shape_value_info st0 = []
    /\ outcome (for_each (tflite2onnx.lower_node (interpreter model) flag
                            (tflite.name d)) graph st0) = Ok st
    /\ onnx.initializer g = tflite2onnx.onnx_weight_node_list st
    /\ onnx.value_info g = tflite2onnx.inner_node_shape_value_info st.
Proof.
  unfold tflite2onnx.main. cbv zeta.
  destruct (get_input_details (interpreter model)) as [|d rest];
    [intros []|].
  unfold Py.index. cbn [nth_error]. rewrite bindM_lift_Ok.
  destruct (Tree.parse_graph (operators model) (interpreter model))
    as [nodes|e] eqn:E;
    [|rewrite (Tree_init_not_parsed model e false E); intros []].
  destruct (Tree_init_parsed model nodes E) as (graph & Hg & _).
  rewrite Hg, bindM_Ok_nil.
  match goal with
  | |- In _ (trace (bindM (for_each ?body graph ?st0) _)) -> _ =>
      pose proof (loop_only_lowers (interpreter model) flag (tflite.name d)
                    graph st0) as Hlowers;
      destruct (for_each body graph st0) as [[st|e] t] eqn:Eloop;
      rewrite ?bindM_Ok, ?bindM_Raise; cbn; intros Hsave;
      cbn in Hlowers; rewrite Forall_forall in Hlowers;
      [|destruct (Hlowers _ Hsave)];
      apply in_app_or in Hsave;
      destruct Hsave as [Hsave|[Hsave|[]]]; [destruct (Hlowers _ Hsave)|];
      injection Hsave as <-;
      exists d, graph, st0, st
  end.
  split; [reflexivity|]. split; [reflexivity|]. split; [reflexivity|].
  split; [rewrite Eloop; reflexivity|]. split; reflexivity.
Qed.

(** X21. The weights and the inner shape annotations of the saved model are
    what the lowering routines returned, put end to end in the order of
    the graph: there is one lowering result for each node of the graph,
    each obtained with a single previous name, the initializers are their
    weight lists and the value infos their shape lists, one after the
    other. *)
Theorem saved_weights_are_what_lowering_returned
    (model : Model) (flag : bool) (g : onnx.GraphProto) :
  In (Save g) (trace (tflite2onnx.main model flag)) ->
  exists (graph : Nodes) (results : list Lowered),
    outcome (Tree.init model false) = Ok graph
    /\ Forall2 (fun kv r => exists prev table,
                  generate (interpreter model) (snd kv) [prev] table = Ok r)
               graph results
    /\ onnx.initializer g = flat_map snd results
    /\ onnx.value_info g = flat_map (fun r => snd (fst r)) results.
Proof.
  intros Hsave.
  destruct (main_saved_lists model flag g Hsave)
    as (d & graph & st0 & st & Hg & Hw0 & Hv0 & Hloop & -> & ->).
  destruct (lower_loop_lists _ _ _ _ _ _ Hloop) as (results & HF & Hw & Hv).
  exists graph, results. split; [rewrite Hg; reflexivity|].
  split; [exact HF|]. rewrite Hw, Hv, Hw0, Hv0. auto.
Qed.
End SavedLists.

Lemma saved_weights_are_what_lowering_returned_witness :
  exists g,
    In (Save g) (trace (tflite2onnx.main (ext := Samples.layers)
                          Samples.relu_relu6 false))
    /\ exists results : list Lowered,
         List.length results = 2%nat
         /\ onnx.value_info g = flat_map (fun r => snd (fst r)) results.
Proof.
  assert (H : exists g,
            In (Save g) (trace (tflite2onnx.main (ext := Samples.layers)
                                  Samples.relu_relu6 false))).
  { eexists. vm_compute. right; right; left; reflexivity. }
  destruct H as (g & Hg). exists g. split; [exact Hg|].
  destruct (@saved_weights_are_what_lowering_returned Samples.layers
              Samples.relu_relu6 false g Hg)
    as (graph & results & Hgraph & HF & _ & Hv).
  exists results. split; [|exact Hv].
  vm_compute in Hgraph. injection Hgraph as <-.
  apply Forall2_length in HF. symmetry. exact HF.
Defined.

(* ================================================================== *)
(** * The graph of a model has no dangling edge *)
(* ================================================================== *)

Section ClosedGraph.
Context {ext : ExternalLayers}.

(** X24. The graph built without de-fusion is closed: no two nodes share
    a name or an index, every node is stored under its own name, and
    every edge a node lists, as an input or as an output, by name or by
    index, leads to a node of the graph (on an interpreter that answers
    with the index it is asked for). *)
Theorem built_graph_is_closed (model : Model) (graph : Nodes) :
  Graph.echoes_index (interpreter model) ->
  outcome (Tree.init model false) = Ok graph ->
  NoDup (dict_keys graph)
  /\ NoDup (Graph.indices graph)
  /\ forall k l,
       nodes_get graph k = Ok l ->
       node_name l = k
       /\ Forall (fun name => In name (dict_keys graph)) (input_nodes_name l)
       /\ Forall (fun name => In name (dict_keys graph)) (output_nodes_name l)
       /\ Forall (fun idx => In idx (Graph.indices graph)) (input_nodes_idx l)
       /\ Forall (fun idx => In idx (Graph.indices graph)) (output_nodes_idx l).
Proof.
  intros Hecho Hinit.
  destruct (Tree.parse_graph (operators model) (interpreter model))
    as [nodes|e] eqn:Eparse;
    [|rewrite (Tree_init_not_parsed _ _ _ Eparse) in Hinit; discriminate].
  rewrite (Tree_init_exact model nodes Hecho Eparse) in Hinit.
  cbn in Hinit. injection Hinit as <-.
  set (n := Tree.eliminate_side_input nodes).
  destruct (parse_graph_fresh _ _ _ Eparse) as (Hnd & _ & _).
  destruct (parse_graph_named _ _ _ Eparse) as (Hnamed & _).
  pose proof (parse_graph_indices _ _ _ Hecho Eparse) as Hidx.
  destruct (eliminate_side_input_pruned nodes Hnamed) as (Hn1 & Hn2 & Hn3).
  fold n in Hn1, Hn2, Hn3.
  assert (Hwkeys : dict_keys (Graph.with_outputs n) = dict_keys n).
  { unfold Graph.with_outputs, dict_keys. rewrite map_map. reflexivity. }
  assert (Hwidx : Graph.indices (Graph.with_outputs n) = Graph.indices n).
  { unfold Graph.with_outputs, Graph.indices. rewrite map_map. reflexivity. }
  rewrite Hwkeys, Hwidx. unfold n at 1 2.
  rewrite eliminate_side_input_keys, eliminate_side_input_indices.
  split; [exact Hnd|]. split; [exact Hidx|].
  intros k l Hk. unfold nodes_get in Hk. rewrite with_outputs_get in Hk.
  destruct (dict_get String.eqb n k) as [l0|] eqn:El0; [|discriminate].
  cbn in Hk. injection Hk as <-. cbn.
  apply dict_get_In in El0; [|exact string_eqb_eq].
  unfold Graph.named_by_key, Graph.input_names_known,
    Graph.input_indices_known in Hn1, Hn2, Hn3.
  rewrite Forall_forall in Hn1, Hn2, Hn3.
  split; [apply (Hn1 (k, l0) El0)|].
  split; [apply (Hn2 (k, l0) El0)|].
  split; [|split; [apply (Hn3 (k, l0) El0)|]].
  - apply Forall_forall. intros m Hm. unfold Graph.name_edges in Hm.
    apply filter_In in Hm. apply Hm.
  - apply Forall_forall. intros i Hi. apply (index_edges_In _ _ _ Hi).
Qed.
End ClosedGraph.

Lemma built_graph_is_closed_witness :
  exists graph,
    outcome (Tree.init (ext := Samples.layers) Samples.relu_squared false)
    = Ok graph
    /\ NoDup (dict_keys graph)
    /\ NoDup (Graph.indices graph).
Proof.
  assert (H : exists graph,
            outcome (Tree.init (ext := Samples.layers) Samples.relu_squared false)
            = Ok graph) by (eexists; vm_compute; reflexivity).
  destruct H as (graph & H). exists graph. split; [exact H|].
  destruct (@built_graph_is_closed Samples.layers Samples.relu_squared graph
              (interpreter_of_echoes _ _ _) H) as (Hk & Hi & _).
  split; [exact Hk|exact Hi].
Defined.
